(** * Content-based movie recommender: TF-IDF, cosine ranking, title
      resolution, keyword search and the corpus cache

    Shallow embedding of [lib/recommendation-grok.ts] (module [Grok]) and
    [lib/recommendation.ts] (module [Csv]), together with the parts of
    [lib/grok-api.ts], [lib/imdb-suggest.ts] and
    [app/api/recommend/route.ts] that they call or that call them.

    Conventions of the embedding.
    - A JavaScript string is a [string] whose characters are read as the
      code units U+0000..U+00FF.  On that range [toLowerCase], [trim], [\s]
      and [\w] are exactly the functions given below.
    - A JavaScript number is a binary64 number.  [cosineSimilarity] uses
      only [+], [*], [/] and [Math.sqrt], which IEEE 754 fixes bit for bit:
      what is stated about its values is stated over the binary64 numbers
      themselves (module [Binary64]).  The TF-IDF weights go through
      [Math.log], which the language leaves to the implementation; the
      matrix and the ranking built on it are embedded over [number]: a
      real, one of the two infinities, or NaN, with exact arithmetic on the
      finite values and the two zeros identified.  What is stated over
      [number] is the value that exact arithmetic gives; the code's value
      can differ from it by rounding.
    - A number that [parseInt] returns (the identifiers and years of the CSV
      data set, the count of the route) is an [integer]: an integer or NaN.
      Counters and lengths stay in [nat].
    - [throw new Error(msg)] is the result [Throw msg].
    - Module-level [let] variables are the fields of a [State] record that
      every function takes and returns. *)

From Stdlib Require Import List Bool Arith ZArith NArith Lia.
From Stdlib Require Import Ascii String.
From Stdlib Require Import Reals Lra Psatz.
From Stdlib Require Floats.
From Stdlib Require Import Sorting.Sorted Sorting.Permutation FinFun.
Import ListNotations.

Set Implicit Arguments.

(* ================================================================== *)
(** * JavaScript built-ins used by the program *)
(* ================================================================== *)

Module JS.

Local Open Scope string_scope.
Local Open Scope N_scope.

(** ** Characters *)

Definition code (c : ascii) : N := N_of_ascii c.

Definition between (lo hi n : N) : bool := (lo <=? n) && (n <=? hi).

(** [\s]: TAB, LF, VT, FF, CR, SPACE and NBSP. *)
Definition is_space (c : ascii) : bool :=
  let n := code c in between 9 13 n || (n =? 32) || (n =? 160).

Definition is_digit (c : ascii) : bool := between 48 57 (code c).
Definition is_upper (c : ascii) : bool := between 65 90 (code c).
Definition is_lower (c : ascii) : bool := between 97 122 (code c).

(** [\w] is [[A-Za-z0-9_]]. *)
Definition is_word (c : ascii) : bool :=
  is_upper c || is_lower c || is_digit c || (code c =? 95).

(** Letters and digits only: the class the prose calls alphanumeric. *)
Definition is_alnum (c : ascii) : bool :=
  is_upper c || is_lower c || is_digit c.

(** [toLowerCase] on one code unit: A-Z, and the capitals of the Latin-1
    supplement except the multiplication sign. *)
Definition lower_char (c : ascii) : ascii :=
  let n := code c in
  if between 65 90 n || (between 192 222 n && negb (n =? 215))
  then ascii_of_N (n + 32) else c.

Definition space : ascii := " "%char.

(** ** Strings *)

Fixpoint map_string (f : ascii -> ascii) (s : string) : string :=
  match s with
  | EmptyString => EmptyString
  | String c s' => String (f c) (map_string f s')
  end.

Definition toLowerCase (s : string) : string := map_string lower_char s.

Fixpoint trimStart (s : string) : string :=
  match s with
  | EmptyString => EmptyString
  | String c s' => if is_space c then trimStart s' else s
  end.

Fixpoint trimEnd (s : string) : string :=
  match s with
  | EmptyString => EmptyString
  | String c s' =>
      match trimEnd s' with
      | EmptyString => if is_space c then EmptyString else String c EmptyString
      | r => String c r
      end
  end.

Definition trim (s : string) : string := trimEnd (trimStart s).

(** [hay.includes(needle)]. *)
Fixpoint includes (hay needle : string) : bool :=
  String.prefix needle hay ||
  match hay with
  | EmptyString => false
  | String _ hay' => includes hay' needle
  end.

(** [s.split(/\s+/)]: the pieces between maximal runs of white space; a run
    at the very start or the very end leaves an empty piece there, and the
    empty string gives one empty piece. *)
Fixpoint split_ws (s : string) : list string :=
  match s with
  | EmptyString => [EmptyString]
  | String c s' =>
      if is_space c then
        match s' with
        | String c' _ => if is_space c' then split_ws s' else EmptyString :: split_ws s'
        | EmptyString => EmptyString :: split_ws s'
        end
      else
        match split_ws s' with
        | w :: r => String c w :: r
        | [] => [String c EmptyString]
        end
  end.

(** A string is falsy exactly when it is empty. *)
Definition truthy (s : string) : bool :=
  match s with EmptyString => false | _ => true end.

(** ** Numbers *)

Local Open Scope R_scope.

Inductive number : Type :=
  | Fin (r : R)
  | PInf
  | NInf
  | NaN.

Definition Rsign (r : R) : comparison :=
  if Rlt_dec 0 r then Gt else if Rlt_dec r 0 then Lt else Eq.

Definition signed_inf (s : comparison) : number :=
  match s with Gt => PInf | Lt => NInf | Eq => NaN end.

Definition flip (s : comparison) : comparison := CompOpp s.

Definition add (a b : number) : number :=
  match a, b with
  | NaN, _ | _, NaN => NaN
  | Fin x, Fin y => Fin (x + y)
  | PInf, NInf | NInf, PInf => NaN
  | PInf, _ | _, PInf => PInf
  | NInf, _ | _, NInf => NInf
  end.

Definition neg (a : number) : number :=
  match a with
  | Fin x => Fin (- x)
  | PInf => NInf
  | NInf => PInf
  | NaN => NaN
  end.

Definition sub (a b : number) : number := add a (neg b).

Definition mul (a b : number) : number :=
  match a, b with
  | NaN, _ | _, NaN => NaN
  | Fin x, Fin y => Fin (x * y)
  | Fin x, PInf | PInf, Fin x => signed_inf (Rsign x)
  | Fin x, NInf | NInf, Fin x => signed_inf (flip (Rsign x))
  | PInf, PInf | NInf, NInf => PInf
  | PInf, NInf | NInf, PInf => NInf
  end.

Definition div (a b : number) : number :=
  match a, b with
  | NaN, _ | _, NaN => NaN
  | Fin x, Fin y =>
      if Req_dec_T y 0 then signed_inf (Rsign x) else Fin (x / y)
  | Fin _, (PInf | NInf) => Fin 0
  | PInf, Fin y => match Rsign y with Lt => NInf | _ => PInf end
  | NInf, Fin y => match Rsign y with Lt => PInf | _ => NInf end
  | (PInf | NInf), (PInf | NInf) => NaN
  end.

(** [Math.sqrt] *)
Definition msqrt (a : number) : number :=
  match a with
  | Fin x => if Rlt_dec x 0 then NaN else Fin (sqrt x)
  | PInf => PInf
  | NInf | NaN => NaN
  end.

(** [Math.log] *)
Definition mlog (a : number) : number :=
  match a with
  | Fin x => match Rsign x with
             | Gt => Fin (ln x)
             | Eq => NInf
             | Lt => NaN
             end
  | PInf => PInf
  | NInf | NaN => NaN
  end.

(** [a === 0] *)
Definition is_zero (a : number) : bool :=
  match a with
  | Fin x => if Req_dec_T x 0 then true else false
  | _ => false
  end.

(** [a > 0], as [Array.prototype.sort] reads a comparator's result: NaN and
    zero both mean that the two elements are left in their order. *)
Definition is_pos (a : number) : bool :=
  match a with
  | Fin x => if Rlt_dec 0 x then true else false
  | PInf => true
  | NInf | NaN => false
  end.

Definition of_nat (n : nat) : number := Fin (INR n).

(** The integer nearest to a non-negative real, the larger one on a tie. *)
Definition round_half_up (x : R) : Z := Int_part (x + / 2).

(** [parseFloat(x.toFixed(4))]: [toFixed] picks the integer [n] with
    [n / 10^4] nearest to [|x|] (the larger on a tie) and keeps the sign;
    from [10^21] on it prints the number itself. *)
Definition round4 (x : R) : R :=
  if Rlt_dec x 0
  then - (IZR (round_half_up (- x * 10000)) / 10000)
  else IZR (round_half_up (x * 10000)) / 10000.

Definition toFixed4 (a : number) : number :=
  match a with
  | Fin x => if Rle_dec (10 ^ 21) (Rabs x) then Fin x else Fin (round4 x)
  | other => other
  end.

(** ** Integers that may be NaN

    What [parseInt] returns, and what a count or a limit computed from such
    a value is: an integer, or NaN.  (A count with a fraction is cut to its
    integer part by [slice], so the integers stand for these too.) *)

Inductive integer : Type :=
  | Int (z : Z)
  | NaNint.

Coercion Int : Z >-> integer.
Bind Scope Z_scope with integer.

(** [a === b]: NaN is not equal to anything, itself included. *)
Definition strict_eq (a b : integer) : bool :=
  match a, b with
  | Int x, Int y => (x =? y)%Z
  | _, _ => false
  end.

Definition is_number (a : integer) : Prop := exists z, a = Int z.

(** [a < b]: false as soon as one side is NaN. *)
Definition less (a b : integer) : bool :=
  match a, b with
  | Int x, Int y => (x <? y)%Z
  | _, _ => false
  end.

(** [a || 0]: NaN is falsy. *)
Definition or_zero (a : integer) : Z :=
  match a with
  | Int z => z
  | NaNint => 0%Z
  end.

(** [Math.min] and [Math.max]: NaN as soon as one argument is NaN. *)
Definition math_min (a b : integer) : integer :=
  match a, b with
  | Int x, Int y => Int (Z.min x y)
  | _, _ => NaNint
  end.

Definition math_max (a b : integer) : integer :=
  match a, b with
  | Int x, Int y => Int (Z.max x y)
  | _, _ => NaNint
  end.

(** ** Arrays *)

(** [a.slice(0, e)]: a negative [e] counts from the end, and NaN is read
    as 0. *)
Definition slice0 {A : Type} (a : list A) (e : integer) : list A :=
  match e with
  | NaNint => []
  | Int e =>
      let len := Z.of_nat (List.length a) in
      let k := if (e <? 0)%Z then Z.max (len + e) 0 else Z.min e len in
      firstn (Z.to_nat k) a
  end.

(** [a.findIndex(p)], with [None] for -1. *)
Fixpoint findIndex {A : Type} (p : A -> bool) (a : list A) : option nat :=
  match a with
  | [] => None
  | x :: a' => if p x then Some O
               else match findIndex p a' with
                    | Some i => Some (S i)
                    | None => None
                    end
  end.

(** [a.sort(cmp)].  The sort is stable; [after x y] says that [cmp(x, y)]
    is positive, so that [x] has to come after [y].  For a comparator that
    is a consistent ordering the result below is the only one the language
    allows; for other comparators the language leaves the order open and
    the model picks the insertion order. *)
Section Sort.

Context {A : Type} (after : A -> A -> bool).

Fixpoint insert (x : A) (l : list A) : list A :=
  match l with
  | [] => [x]
  | y :: l' => if after x y then y :: insert x l' else x :: l
  end.

Fixpoint sort (l : list A) : list A :=
  match l with
  | [] => []
  | x :: l' => insert x (sort l')
  end.

End Sort.

(** [Array.from(set).sort()] on strings: ascending by code units.  The
    elements of a set are distinct. *)
Definition sort_strings (l : list string) : list string :=
  sort (fun x y => String.ltb y x) l.

(** Insertion into a [Set]: insertion order, no duplicates. *)
Definition set_add (s : list string) (x : string) : list string :=
  if existsb (String.eqb x) s then s else s ++ [x].

End JS.

Import JS.

(* ================================================================== *)
(** * The tokenizer (identical in both library files) *)
(* ================================================================== *)

Local Open Scope string_scope.

(** [text.replace(/[^\w\s]/g, ' ')] *)
Definition strip_punct (s : string) : string :=
  map_string (fun c => if is_word c || is_space c then c else space) s.

Definition tokenize (text : string) : list string :=
  filter (fun word => 2 <? String.length word)%nat
         (split_ws (strip_punct (toLowerCase text))).

(** ** The tokenizer as the prose describes it

    The description is parametric in the class of characters that are kept;
    the prose keeps the alphanumeric ones. *)

(** Pieces between single white-space characters. *)
Fixpoint pieces (s : string) : list string :=
  match s with
  | EmptyString => [EmptyString]
  | String c s' =>
      if is_space c then EmptyString :: pieces s'
      else match pieces s' with
           | w :: r => String c w :: r
           | [] => [String c EmptyString]
           end
  end.

(** Splitting on white-space runs: the non-empty pieces. *)
Definition words (s : string) : list string := filter truthy (pieces s).

Definition tokenize_by (keep : ascii -> bool) (text : string) : list string :=
  filter (fun w => negb (String.length w <=? 2)%nat)
    (words (map_string (fun c => if keep c || is_space c then c else space)
                       (toLowerCase text))).

Definition tokenize_spec : string -> list string := tokenize_by is_alnum.

(** The test of the final filter. *)
Definition long (w : string) : bool := (2 <? String.length w)%nat.

(** Characters a token can be made of. *)
Definition token_char (c : ascii) : bool :=
  is_lower c || is_digit c || (code c =? 95)%N.

Fixpoint forallb_string (p : ascii -> bool) (s : string) : bool :=
  match s with
  | EmptyString => true
  | String c s' => p c && forallb_string p s'
  end.

(* ================================================================== *)
(** * Data shared by the two library files *)
(* ================================================================== *)

Record Movie : Type := mkMovie {
  movie_id : integer;
  title : string;
  industry : string;
  genre : string;
  language : string;
  release_year : integer;
  overview : string
}.

(** [{ ...item.movie, similarity_score }] *)
Record RecommendationResult : Type := mkResult {
  movie : Movie;
  similarity_score : number
}.

Inductive result (A : Type) : Type :=
  | Ok (a : A)
  | Throw (msg : string).
Arguments Ok {A} a.
Arguments Throw {A} msg.

(** [`${movie.title} ${movie.genre} ${movie.overview}`] *)
Definition combinedText (m : Movie) : string :=
  title m ++ " " ++ genre m ++ " " ++ overview m.

Definition buildVocabulary (movies : list Movie) : list string :=
  let vocabSet :=
    fold_left (fun set m => fold_left set_add (tokenize (combinedText m)) set)
              movies [] in
  sort_strings vocabSet.

(** ** The object [termFreq]

    [termFreq] is created by the literal [{}], so a property that it does
    not own is looked up in [Object.prototype].  A property holds a count,
    or a value that is not a number: a member of [Object.prototype], or the
    string that [+ 1] makes of such a value.  All of the latter are truthy
    and convert to NaN. *)

Inductive prop_value : Type :=
  | Count (n : nat)
  | NotNumeric.

Definition object_prototype_keys : list string :=
  [ "constructor"; "__proto__"; "hasOwnProperty"; "isPrototypeOf";
    "propertyIsEnumerable"; "toLocaleString"; "toString"; "valueOf";
    "__defineGetter__"; "__defineSetter__"; "__lookupGetter__";
    "__lookupSetter__" ].

Definition inherited (key : string) : bool :=
  existsb (String.eqb key) object_prototype_keys.

(** Own properties, the latest write first. *)
Definition object : Type := list (string * prop_value).

Fixpoint own (o : object) (key : string) : option prop_value :=
  match o with
  | [] => None
  | (k, v) :: o' => if String.eqb key k then Some v else own o' key
  end.

(** [o[key]]; [None] is [undefined]. *)
Definition get (o : object) (key : string) : option prop_value :=
  match own o key with
  | Some v => Some v
  | None => if inherited key then Some NotNumeric else None
  end.

(** [o[key] = v]; the setter of [__proto__] ignores a value that is not an
    object. *)
Definition set (o : object) (key : string) (v : prop_value) : object :=
  if String.eqb key "__proto__" then o else (key, v) :: o.

(** [(x || 0) + 1] *)
Definition or0_plus1 (x : option prop_value) : prop_value :=
  match x with
  | None => Count 1
  | Some (Count n) => Count (n + 1)
  | Some NotNumeric => NotNumeric
  end.

(** [x || 0], converted to a number by the division that follows. *)
Definition or0 (x : option prop_value) : number :=
  match x with
  | None => of_nat 0
  | Some (Count n) => of_nat n
  | Some NotNumeric => NaN
  end.

Definition countTerms (tokens : list string) : object :=
  fold_left (fun termFreq token =>
               set termFreq token (or0_plus1 (get termFreq token)))
            tokens [].

(** [array.includes(word)] on an array of strings. *)
Definition array_includes (a : list string) (word : string) : bool :=
  existsb (String.eqb word) a.

Definition calculateTfIdf (document : string) (vocabulary : list string)
    (allDocuments : list string) : list number :=
  let tokens := tokenize document in
  if (List.length tokens =? 0)%nat then map (fun _ => of_nat 0) vocabulary
  else
    let termFreq := countTerms tokens in
    map (fun word =>
           let tf := div (or0 (get termFreq word)) (of_nat (List.length tokens)) in
           let docCount :=
             List.length (filter (fun doc => array_includes (tokenize doc) word)
                                 allDocuments) in
           let idf := mlog (div (of_nat (List.length allDocuments))
                                (of_nat (docCount + 1))) in
           mul tf idf)
        vocabulary.

(** The rebuilding branch of [buildTfIdfMatrix]. *)
Definition tfidf_rows (movies : list Movie) : list (list number) :=
  let combinedTexts := map combinedText movies in
  let vocabArray := buildVocabulary movies in
  map (fun doc => calculateTfIdf doc vocabArray combinedTexts) combinedTexts.

(** The loop of [cosineSimilarity] in exact arithmetic (module [Binary64]
    has it in binary64); reading [vec2] past its end gives [undefined],
    which the arithmetic turns into NaN. *)
Fixpoint cosine_loop (vec1 vec2 : list number) (dotProduct norm1 norm2 : number)
  : number * number * number :=
  match vec1 with
  | [] => (dotProduct, norm1, norm2)
  | x :: vec1' =>
      let y := hd NaN vec2 in
      cosine_loop vec1' (tl vec2)
        (add dotProduct (mul x y)) (add norm1 (mul x x)) (add norm2 (mul y y))
  end.

Definition cosine_arrays (vec1 vec2 : list number) : number :=
  let '(dotProduct, norm1, norm2) :=
    cosine_loop vec1 vec2 (of_nat 0) (of_nat 0) (of_nat 0) in
  let denominator := mul (msqrt norm1) (msqrt norm2) in
  if is_zero denominator then of_nat 0 else div dotProduct denominator.

(** [similarities.sort((a, b) => b.score - a.score)] followed by
    [.slice(0, numRecommendations).map(...)]. *)
Definition score_after (a b : Movie * number) : bool :=
  is_pos (sub (snd b) (snd a)).

Definition report (item : Movie * number) : RecommendationResult :=
  mkResult (fst item) (toFixed4 (snd item)).

Definition top_results (similarities : list (Movie * number))
    (numRecommendations : integer) : list RecommendationResult :=
  map report (slice0 (sort score_after similarities) numRecommendations).

Definition dquote : string := String (ascii_of_nat 34) EmptyString.

(** [`Movie "${movieTitle}"`] *)
Definition quote_title (movieTitle : string) : string :=
  "Movie " ++ dquote ++ movieTitle ++ dquote.

(* ================================================================== *)
(** * [lib/recommendation-grok.ts] *)
(* ================================================================== *)

Module Grok.

(** [GrokMovie]: the identifier is optional. *)
Record GrokMovie : Type := mkGrokMovie {
  g_movie_id : option Z;
  g_title : string;
  g_industry : string;
  g_genre : string;
  g_language : string;
  g_release_year : Z;
  g_overview : string
}.

(** What one call sees of the outside: the clock (one reading of
    [Date.now()] for the whole call), the list that
    [getAllMoviesFromGrok()] resolves to, and the list that
    [fetchMoviesFromGrok(query)] resolves to.  Calls run one after the
    other: no other call is interleaved at an [await]. *)
Record World : Type := mkWorld {
  now : Z;
  allMovies : list GrokMovie;
  fetchMovies : string -> list GrokMovie
}.

(** An array of movies with its identity: [===] on arrays compares
    [ref]. *)
Record Arr : Type := mkArr {
  ref : nat;
  items : list Movie
}.

Record State : Type := mkState {
  moviesCache : option Arr;
  tfidfMatrix : option (list (list number));
  vocabulary : option (list string);
  cacheTimestamp : Z;
  fresh : nat  (* identity of the next array that is allocated *)
}.

Definition initial : State := mkState None None None 0 0.

Definition CACHE_DURATION : Z := 60 * 60 * 1000.

Definition msg_empty_recommend : string :=
  "Dataset is empty. No movies are available for recommendation.".
Definition msg_empty_build : string :=
  "Dataset is empty. Please add movies to the dataset.".
Definition msg_not_found (movieTitle : string) : string :=
  quote_title movieTitle ++ " not found. Please try another title.".
Definition msg_not_in_dataset (movieTitle : string) : string :=
  quote_title movieTitle ++ " not found in the dataset".

(** The two messages of the empty-dataset condition. *)
Definition EmptyCorpus (msg : string) : Prop :=
  msg = msg_empty_recommend \/ msg = msg_empty_build.

(** [movie.movie_id || index + 1] *)
Definition id_or (id : option Z) (index : nat) : Z :=
  match id with
  | Some n => if (n =? 0)%Z then Z.of_nat index + 1 else n
  | None => Z.of_nat index + 1
  end.

Definition convert (index : nat) (g : GrokMovie) : Movie :=
  mkMovie (id_or (g_movie_id g) index) (trim (g_title g)) (trim (g_industry g))
          (trim (g_genre g)) (trim (g_language g)) (g_release_year g)
          (trim (g_overview g)).

Fixpoint mapi_from {A B : Type} (f : nat -> A -> B) (i : nat) (l : list A) : list B :=
  match l with
  | [] => []
  | x :: l' => f i x :: mapi_from f (S i) l'
  end.

Definition store (st : State) (l : list Movie) (t : Z) : Arr * State :=
  let arr := mkArr (fresh st) l in
  (arr, mkState (Some arr) (tfidfMatrix st) (vocabulary st) t (S (fresh st))).

Definition loadMovies (w : World) (st : State) : Arr * State :=
  let reload :=
    match allMovies w with
    | [] => store st [] (now w)
    | grokMovies => store st (mapi_from convert 0 grokMovies) (now w)
    end in
  match moviesCache st with
  | Some cached =>
      if (now w - cacheTimestamp st <? CACHE_DURATION)%Z then (cached, st)
      else reload
  | None => reload
  end.

(** Only the guarded entry differs from [cosine_arrays]: [None] is a value
    that is not an array. *)
Definition cosineSimilarity (vec1 vec2 : option (list number)) : number :=
  match vec1, vec2 with
  | Some v1, Some v2 => cosine_arrays v1 v2
  | _, _ => of_nat 0
  end.

Definition buildTfIdfMatrix (st : State) (movies : Arr)
  : result (list (list number) * list string) * State :=
  if (List.length (items movies) =? 0)%nat then (Throw msg_empty_build, st)
  else
    let rebuild :=
      let vocabArray := buildVocabulary (items movies) in
      let matrix := tfidf_rows (items movies) in
      (Ok (matrix, vocabArray),
       mkState (moviesCache st) (Some matrix) (Some vocabArray)
               (cacheTimestamp st) (fresh st)) in
    match tfidfMatrix st, vocabulary st, moviesCache st with
    | Some matrix, Some vocab, Some cached =>
        if (ref cached =? ref movies)%nat
           && (List.length matrix =? List.length (items movies))%nat
        then (Ok (matrix, vocab), st)
        else rebuild
    | _, _, _ => rebuild
    end.

Definition normalize (s : string) : string := toLowerCase (trim s).

Definition findMovieByTitle (movies : list Movie) (t : string) : option Movie :=
  let normalizedTitle := normalize t in
  if negb (truthy normalizedTitle) then None
  else
    match find (fun m => String.eqb (normalize (title m)) normalizedTitle) movies with
    | Some exact => Some exact
    | None => find (fun m => includes (normalize (title m)) normalizedTitle) movies
    end.

(** [searchMovieInGrok] of [lib/grok-api.ts]. *)
Definition searchMovieInGrok (w : World) (movieTitle : string) : option GrokMovie :=
  let normalized := normalize movieTitle in
  find (fun g => String.eqb (normalize (g_title g)) normalized)
       (fetchMovies w movieTitle).

(** The scoring loop: [i] is the index of the head of [rest]. *)
Fixpoint similarities_from (matrix : list (list number)) (inputMovieIndex i : nat)
    (rest : list Movie) : list (Movie * number) :=
  match rest with
  | [] => []
  | m :: rest' =>
      let next := similarities_from matrix inputMovieIndex (S i) rest' in
      if (i =? inputMovieIndex)%nat then next
      else
        match nth_error matrix inputMovieIndex, nth_error matrix i with
        | Some vq, Some vi => (m, cosineSimilarity (Some vq) (Some vi)) :: next
        | _, _ => next
        end
  end.

Definition getRecommendations (w : World) (st : State) (movieTitle : string)
    (numRecommendations : integer) : result (list RecommendationResult) * State :=
  let '(movies, st1) := loadMovies w st in
  if (List.length (items movies) =? 0)%nat then (Throw msg_empty_recommend, st1)
  else
    let found :=
      match findMovieByTitle (items movies) movieTitle with
      | Some m => Some (m, movies, st1)
      | None =>
          match searchMovieInGrok w movieTitle with
          | Some g =>
              let newMovie :=
                mkMovie (Z.of_nat (List.length (items movies)) + 1)
                        (trim (g_title g)) (trim (g_industry g)) (trim (g_genre g))
                        (trim (g_language g)) (g_release_year g)
                        (trim (g_overview g)) in
              (* [movies] is the cached array itself: the push is seen
                 through [moviesCache] too. *)
              let pushed := mkArr (ref movies) (items movies ++ [newMovie]) in
              Some (newMovie, pushed,
                    mkState (Some pushed) None None (cacheTimestamp st1) (fresh st1))
          | None => None
          end
      end in
    match found with
    | None => (Throw (msg_not_found movieTitle), st1)
    | Some (inputMovie, movies2, st2) =>
        match buildTfIdfMatrix st2 movies2 with
        | (Throw msg, st3) => (Throw msg, st3)
        | (Ok (matrix, _), st3) =>
            match findIndex (fun m => String.eqb (toLowerCase (title m))
                                                 (toLowerCase (title inputMovie)))
                            (items movies2) with
            | None => (Throw (msg_not_in_dataset movieTitle), st3)
            | Some inputMovieIndex =>
                (Ok (top_results
                       (similarities_from matrix inputMovieIndex 0 (items movies2))
                       numRecommendations),
                 st3)
            end
        end
    end.

Definition getMoviesByIndustry (w : World) (st : State) (ind : string)
  : list Movie * State :=
  let '(movies, st1) := loadMovies w st in
  (filter (fun m => String.eqb (industry m) ind) (items movies), st1).

Definition getMoviesByGenre (w : World) (st : State) (g : string)
  : list Movie * State :=
  let '(movies, st1) := loadMovies w st in
  (filter (fun m => includes (toLowerCase (genre m)) (toLowerCase g)) (items movies),
   st1).

(** The states the exported functions can produce from the initial one. *)
Inductive reachable (ok : World -> Prop) : State -> Prop :=
  | reach_initial : reachable ok initial
  | reach_load w st :
      reachable ok st -> ok w -> reachable ok (snd (loadMovies w st))
  | reach_recommend w st t n :
      reachable ok st -> ok w -> reachable ok (snd (getRecommendations w st t n))
  | reach_industry w st i :
      reachable ok st -> ok w -> reachable ok (snd (getMoviesByIndustry w st i))
  | reach_genre w st g :
      reachable ok st -> ok w -> reachable ok (snd (getMoviesByGenre w st g)).

End Grok.

(* ================================================================== *)
(** * [lib/recommendation.ts] *)
(* ================================================================== *)

Module Csv.

Record State : Type := mkState {
  moviesCache : option (list Movie);
  tfidfMatrix : option (list (list number));
  vocabulary : option (list string)
}.

Definition initial : State := mkState None None None.

Definition msg_empty : string :=
  "Dataset is empty. No movies are available for recommendation.".
Definition msg_not_in_dataset (movieTitle : string) : string :=
  quote_title movieTitle ++ " not found in the dataset".
(** The messages of the TypeError that Node's engine raises when
    [vec1.length] or [vec2[0]] is read from [undefined]. *)
Definition msg_read_length : string :=
  "Cannot read properties of undefined (reading 'length')".
Definition msg_read_first : string :=
  "Cannot read properties of undefined (reading '0')".

(** [dataset] is what reading and parsing [dataset/movies_15000.csv] and
    normalising its records gives: the list of movies, or the exception of
    the file system or of the parser. *)
Definition loadMovies (dataset : result (list Movie)) (st : State)
  : result (list Movie) * State :=
  match moviesCache st with
  | Some cached => (Ok cached, st)
  | None =>
      match dataset with
      | Ok records =>
          (Ok records, mkState (Some records) (tfidfMatrix st) (vocabulary st))
      | Throw msg => (Throw msg, st)
      end
  end.

(** No guard here: a value that is not an array raises when it is read. *)
Definition cosineSimilarity (vec1 vec2 : option (list number)) : result number :=
  match vec1, vec2 with
  | None, _ => Throw msg_read_length
  | Some [], _ => Ok (cosine_arrays [] [])
  | Some (_ :: _), None => Throw msg_read_first
  | Some v1, Some v2 => Ok (cosine_arrays v1 v2)
  end.

Definition buildTfIdfMatrix (st : State) (movies : list Movie)
  : result (list (list number) * list string) * State :=
  if (List.length movies =? 0)%nat then (Throw msg_empty, st)
  else
    match tfidfMatrix st, vocabulary st with
    | Some matrix, Some vocab => (Ok (matrix, vocab), st)
    | _, _ =>
        let vocabArray := buildVocabulary movies in
        let matrix := tfidf_rows movies in
        (Ok (matrix, vocabArray),
         mkState (moviesCache st) (Some matrix) (Some vocabArray))
    end.

Definition findMovieByTitle (movies : list Movie) (t : string) : option Movie :=
  let normalizedTitle := toLowerCase (trim t) in
  find (fun m => String.eqb (toLowerCase (title m)) normalizedTitle) movies.

(** The scoring loop: [i] is the index of the head of [rest]. *)
Fixpoint similarities_from (matrix : list (list number)) (inputMovieIndex i : nat)
    (rest : list Movie) : result (list (Movie * number)) :=
  match rest with
  | [] => Ok []
  | m :: rest' =>
      if (i =? inputMovieIndex)%nat
      then similarities_from matrix inputMovieIndex (S i) rest'
      else
        match cosineSimilarity (nth_error matrix inputMovieIndex)
                               (nth_error matrix i) with
        | Throw msg => Throw msg
        | Ok similarity =>
            match similarities_from matrix inputMovieIndex (S i) rest' with
            | Throw msg => Throw msg
            | Ok next => Ok ((m, similarity) :: next)
            end
        end
  end.

Definition getRecommendations (dataset : result (list Movie)) (st : State)
    (movieTitle : string) (numRecommendations : integer)
  : result (list RecommendationResult) * State :=
  match loadMovies dataset st with
  | (Throw msg, st1) => (Throw msg, st1)
  | (Ok movies, st1) =>
      if (List.length movies =? 0)%nat then (Throw msg_empty, st1)
      else
        match findMovieByTitle movies movieTitle with
        | None => (Throw (msg_not_in_dataset movieTitle), st1)
        | Some inputMovie =>
            match buildTfIdfMatrix st1 movies with
            | (Throw msg, st2) => (Throw msg, st2)
            | (Ok (matrix, _), st2) =>
                match findIndex (fun m => strict_eq (movie_id m)
                                                    (movie_id inputMovie))
                                movies with
                | None => (Throw (msg_not_in_dataset movieTitle), st2)
                | Some inputMovieIndex =>
                    match nth_error matrix inputMovieIndex with
                    | None => (Throw (msg_not_in_dataset movieTitle), st2)
                    | Some _ =>
                        match similarities_from matrix inputMovieIndex 0 movies with
                        | Throw msg => (Throw msg, st2)
                        | Ok similarities =>
                            (Ok (top_results similarities numRecommendations), st2)
                        end
                    end
                end
            end
        end
  end.

(** ** Keyword search *)

(** The inner loop: one point for each query token found in the text. *)
Definition keyword_score (tokens : list string) (m : Movie) : nat :=
  let haystack := toLowerCase (combinedText m) in
  fold_left (fun score t =>
               if negb (truthy t) then score
               else if includes haystack t then score + 1 else score)%nat
            tokens 0%nat.

Definition industry_set (industries : list string) : list string :=
  filter truthy (map (fun x => toLowerCase (trim x)) industries).

Definition set_has (s : list string) (x : string) : bool :=
  existsb (String.eqb x) s.

(** The outer loop. *)
Fixpoint score_movies (industrySet tokens : list string) (movies : list Movie)
  : list (Movie * nat) :=
  match movies with
  | [] => []
  | m :: movies' =>
      let next := score_movies industrySet tokens movies' in
      let hasIndustryFilter := negb (List.length industrySet =? 0)%nat in
      if hasIndustryFilter && negb (set_has industrySet (toLowerCase (industry m)))
      then next
      else
        let score := keyword_score tokens m in
        if (0 <? score)%nat then (m, score) :: next else next
  end.

(** The comparator of the final sort is positive when [a] has to come after
    [b]; a year that is NaN counts as 0. *)
Definition keyword_cmp (a b : Movie * nat) : Z :=
  if negb (snd b =? snd a)%nat then (Z.of_nat (snd b) - Z.of_nat (snd a))%Z
  else (or_zero (release_year (fst b)) - or_zero (release_year (fst a)))%Z.

Definition keyword_after (a b : Movie * nat) : bool := (0 <? keyword_cmp a b)%Z.

(** [Math.max(1, Math.min(limit, 50))] *)
Definition clamp_limit (limit : integer) : integer :=
  math_max 1 (math_min limit 50).

Definition searchMoviesByKeyword (dataset : result (list Movie)) (st : State)
    (query : string) (industries : list string) (limit : integer)
  : result (list Movie) * State :=
  let q := toLowerCase (trim query) in
  if negb (truthy q) then (Ok [], st)
  else
    match loadMovies dataset st with
    | (Throw msg, st1) => (Throw msg, st1)
    | (Ok movies, st1) =>
        if (List.length movies =? 0)%nat then (Ok [], st1)
        else
          let tokens := tokenize q in
          if (List.length tokens =? 0)%nat then (Ok [], st1)
          else
            let scored := score_movies (industry_set industries) tokens movies in
            (Ok (map fst (slice0 (sort keyword_after scored) (clamp_limit limit))),
             st1)
    end.

Definition getMoviesByIndustry (dataset : result (list Movie)) (st : State)
    (ind : string) : result (list Movie) * State :=
  match loadMovies dataset st with
  | (Throw msg, st1) => (Throw msg, st1)
  | (Ok movies, st1) =>
      (Ok (filter (fun m => String.eqb (industry m) ind) movies), st1)
  end.

Definition getMoviesByGenre (dataset : result (list Movie)) (st : State)
    (g : string) : result (list Movie) * State :=
  match loadMovies dataset st with
  | (Throw msg, st1) => (Throw msg, st1)
  | (Ok movies, st1) =>
      (Ok (filter (fun m => includes (toLowerCase (genre m)) (toLowerCase g))
                  movies), st1)
  end.

(** The states the exported functions can produce from the initial one,
    whatever the data set file holds at each call. *)
Inductive reachable : State -> Prop :=
  | reach_initial : reachable initial
  | reach_load d st : reachable st -> reachable (snd (loadMovies d st))
  | reach_recommend d st t n :
      reachable st -> reachable (snd (getRecommendations d st t n))
  | reach_search d st q i l :
      reachable st -> reachable (snd (searchMoviesByKeyword d st q i l))
  | reach_industry d st i :
      reachable st -> reachable (snd (getMoviesByIndustry d st i))
  | reach_genre d st g :
      reachable st -> reachable (snd (getMoviesByGenre d st g)).

End Csv.

(* ================================================================== *)
(** * [cosineSimilarity] in binary64 *)
(* ================================================================== *)

(** The function uses only [+], [*], [/] and [Math.sqrt], which IEEE 754
    fixes bit for bit; here it is over the binary64 numbers themselves. *)
Module Binary64.

Import PrimFloat.
Local Open Scope float_scope.

(** The loop; reading [vec2] past its end gives [undefined], which the
    multiplication turns into NaN. *)
Fixpoint cosine_loop (vec1 vec2 : list float) (dotProduct norm1 norm2 : float)
  : float * float * float :=
  match vec1 with
  | [] => (dotProduct, norm1, norm2)
  | x :: vec1' =>
      let y := hd nan vec2 in
      cosine_loop vec1' (tl vec2)
        (dotProduct + x * y) (norm1 + x * x) (norm2 + y * y)
  end.

Definition cosine_arrays (vec1 vec2 : list float) : float :=
  let '(dotProduct, norm1, norm2) := cosine_loop vec1 vec2 0 0 0 in
  let denominator := sqrt norm1 * sqrt norm2 in
  if denominator =? 0 then 0 else dotProduct / denominator.

(** [cosineSimilarity] of [recommendation-grok.ts]: [None] is a value that
    is not an array. *)
Definition cosineSimilarity (vec1 vec2 : option (list float)) : float :=
  match vec1, vec2 with
  | Some v1, Some v2 => cosine_arrays v1 v2
  | _, _ => 0
  end.

(** [cosineSimilarity] of [recommendation.ts], which has no guard. *)
Definition cosineSimilarity_unguarded (vec1 vec2 : option (list float))
  : result float :=
  match vec1, vec2 with
  | None, _ => Throw Csv.msg_read_length
  | Some [], _ => Ok (cosine_arrays [] [])
  | Some (_ :: _), None => Throw Csv.msg_read_first
  | Some v1, Some v2 => Ok (cosine_arrays v1 v2)
  end.



Definition huge : float := 0x1.4e718d7d7625ap+664.
Definition tiny : float := 0x1.87e92154ef7acp-665.

End Binary64.

(* ================================================================== *)
(** * Vocabulary of the statements *)
(* ================================================================== *)

Local Open Scope R_scope.

(** The dot product over the positions that both vectors have. *)
Fixpoint dot (a b : list R) : R :=
  match a, b with
  | x :: a', y :: b' => x * y + dot a' b'
  | _, _ => 0
  end.

Definition sumsq (a : list R) : R := dot a a.

(** The L2 norm. *)
Definition norm (a : list R) : R := sqrt (sumsq a).

Definition vec (a : list R) : list number := map Fin a.

Definition zero_vector (n : nat) : list R := repeat 0 n.

Definition finite (a : number) : Prop := exists r, a = Fin r.

(** Term frequency, document frequency and inverse document frequency as
    the prose defines them. *)
Definition tf (w : string) (doc : string) : R :=
  match tokenize doc with
  | [] => 0
  | tokens => INR (count_occ string_dec tokens w) / INR (List.length tokens)
  end.

Definition doc_frequency (w : string) (docs : list string) : nat :=
  List.length (filter (fun d => if in_dec string_dec w (tokenize d)
                                then true else false) docs).

Definition idf (w : string) (docs : list string) : R :=
  ln (INR (List.length docs) / (INR (doc_frequency w docs) + 1)).

Definition weight (w : string) (doc : string) (docs : list string) : R :=
  tf w doc * idf w docs.

(** The vector of a document over a vocabulary. *)
Definition weights (doc : string) (vocab docs : list string) : list R :=
  map (fun w => weight w doc docs) vocab.

Definition plain_vocabulary (vocab : list string) : Prop :=
  Forall (fun w => inherited w = false) vocab.

(** [ord] is the order of the input of a sort; [x] may stand before [y] in
    the output when [x] need not come after [y] and, on a tie, [x] was
    first. *)
Definition may_precede {A : Type} (after : A -> A -> bool) (ord : A -> A -> Prop)
    (x y : A) : Prop :=
  after x y = false /\ (after y x = false -> ord x y).

(** ** Keyword search, as the prose describes it *)

(** An entry of the industry list names nothing when it is blank. *)
Definition blank (i : string) : bool := negb (truthy (trim i)).

(** An entry names the industry of a movie: equal up to letter case, the
    entry without its outer white space. *)
Definition names_industry (m : Movie) (i : string) : bool :=
  String.eqb (toLowerCase (trim i)) (toLowerCase (industry m)).

(** The industry filter: no industry is asked for, or some entry that is
    not blank names the industry of the movie. *)
Definition industry_ok (industries : list string) (m : Movie) : bool :=
  forallb blank industries
  || existsb (fun i => negb (blank i) && names_industry m i) industries.

Definition query_tokens (query : string) : list string :=
  tokenize (toLowerCase (trim query)).

(** The lowercased concatenation of title, genre and overview. *)
Definition haystack (m : Movie) : string :=
  toLowerCase (title m ++ " " ++ genre m ++ " " ++ overview m).

(** One point for every token of the query that occurs in the haystack. *)
Definition query_score (query : string) (m : Movie) : nat :=
  List.length (filter (fun t => includes (haystack m) t) (query_tokens query)).

(** The movies a keyword search has to rank, in corpus order. *)
Definition keyword_hits (movies : list Movie) (query : string)
    (industries : list string) : list Movie :=
  filter (fun m => industry_ok industries m && (0 <? query_score query m)%nat)
         movies.

(** The year by which ties are broken: a year that is not a number counts
    as 0. *)
Definition year_of (m : Movie) : Z :=
  match release_year m with
  | Int y => y
  | NaNint => 0%Z
  end.

(** Higher score first, and the newer movie first among equal scores. *)
Definition keyword_order (query : string) (a b : Movie) : Prop :=
  (query_score query b < query_score query a)%nat \/
  (query_score query a = query_score query b /\ (year_of b <= year_of a)%Z).

(** One round of the counting loop. *)
Definition step (termFreq : object) (token : string) : object :=
  set termFreq token (or0_plus1 (get termFreq token)).

(** The count held under a key that [Object.prototype] does not have. *)
Definition held (o : object) (k : string) : option nat :=
  match get o k with
  | None => Some 0%nat
  | Some (Count n) => Some n
  | Some NotNumeric => None
  end.

(** The cosine of two finite vectors, the second at least as long as the
    first. *)
Definition cosine_value (a b : list R) : R :=
  let den := norm a * norm (firstn (List.length a) b) in
  if Req_dec_T den 0 then 0 else dot a b / den.

Local Close Scope R_scope.

(** ** Title resolution *)

(** Resolution as the prose words it: the first exact match of the
    normalized titles, or else the first title that contains the query. *)
Definition resolve_spec (movies : list Movie) (query : string) : option Movie :=
  let nq := Grok.normalize query in
  match find (fun m => String.eqb (Grok.normalize (title m)) nq) movies with
  | Some m => Some m
  | None => find (fun m => includes (Grok.normalize (title m)) nq) movies
  end.

(** [m] is the first element of [l] that satisfies [p]. *)
Definition first_with {A : Type} (p : A -> bool) (l : list A) (m : A) : Prop :=
  exists l1 l2, l = (l1 ++ m :: l2)%list /\ p m = true /\
                Forall (fun x => p x = false) l1.

Definition none_with {A : Type} (p : A -> bool) (l : list A) : Prop :=
  Forall (fun x => p x = false) l.

(** ** Identifiers *)

(** The data source sends no identifiers of its own: each item comes
    without one, or with its position counted from 1. *)
Definition positional (l : list Grok.GrokMovie) : Prop :=
  forall i g, nth_error l i = Some g ->
    Grok.g_movie_id g = None \/ Grok.g_movie_id g = Some 0%Z \/
    Grok.g_movie_id g = Some (Z.of_nat i + 1)%Z.

Definition positional_world (w : Grok.World) : Prop :=
  positional (Grok.allMovies w).

Definition any_world (w : Grok.World) : Prop := True.

(** The identifiers of a corpus are 1, 2, ..., in this order. *)
Definition ids_in_order (l : list Movie) : Prop :=
  map movie_id l = map (fun i => Int (Z.of_nat i + 1)) (seq 0 (List.length l)).

(** The invariant of the cache. *)
Definition cache_in_order (st : Grok.State) : Prop :=
  forall arr, Grok.moviesCache st = Some arr -> ids_in_order (Grok.items arr).

(** ** Ranking *)

(** The cached matrix, when there is one, is the matrix of the cached
    corpus. *)
Definition coherent (st : Csv.State) : Prop :=
  match Csv.tfidfMatrix st, Csv.vocabulary st with
  | None, None => True
  | Some matrix, Some vocab =>
      exists movies, Csv.moviesCache st = Some movies /\
                     matrix = tfidf_rows movies /\
                     vocab = buildVocabulary movies
  | _, _ => False
  end.

Definition no_movie : Movie :=
  mkMovie 0 EmptyString EmptyString EmptyString EmptyString 0 EmptyString.

(** The TF-IDF vector of row [i] of a corpus. *)
Definition row (movies : list Movie) (i : nat) : list R :=
  weights (combinedText (nth i movies no_movie)) (buildVocabulary movies)
          (map combinedText movies).

(** The similarity of rows [q] and [i]. *)
Definition similarity (movies : list Movie) (q i : nat) : R :=
  cosine_value (row movies q) (row movies i).

(** The rows other than [q], in corpus order. *)
Definition others (q n : nat) : list nat :=
  filter (fun i => negb (i =? q)%nat) (seq 0 n).

(** Row [i] is ranked before row [j]: it is more similar to row [q], or
    as similar and earlier in the corpus. *)
Definition ranked_before (movies : list Movie) (q i j : nat) : Prop :=
  (similarity movies q j < similarity movies q i)%R \/
  (similarity movies q i = similarity movies q j /\ (i < j)%nat).

(** All the other rows, ranked: the stable sort of [others] by similarity
    to row [q], descending. *)
Definition ranking (movies : list Movie) (q : nat) : list nat :=
  sort (fun i j => if Rlt_dec (similarity movies q i) (similarity movies q j)
                   then true else false)
       (others q (List.length movies)).

(** [y] is [x] rounded to four decimal digits. *)
Definition rounded4 (x y : R) : Prop :=
  (exists k : Z, y = (IZR k / 10000)%R) /\ (Rabs (y - x) <= / 20000)%R.

(** The entry reported for row [i]. *)
Definition entry (movies : list Movie) (q i : nat) : RecommendationResult :=
  mkResult (nth i movies no_movie) (Fin (round4 (similarity movies q i))).

(* ================================================================== *)
(** * [app/api/recommend/route.ts]: the match in the CSV corpus *)
(* ================================================================== *)

Module Route.

Definition normalizeTitle (input : string) : string := toLowerCase (trim input).

Definition findBestCsvMatch (movies : list Movie) (query : string) : option Movie :=
  let q := normalizeTitle query in
  if negb (truthy q) then None
  else
    match find (fun m => String.eqb (normalizeTitle (title m)) q) movies with
    | Some exact => Some exact
    | None => find (fun m => includes (normalizeTitle (title m)) q) movies
    end.

(** [numRecs] is [parseInt(searchParams.get('num') || '10', 10)]: an
    integer, or NaN when the parameter does not begin with a number.  The
    handler goes on unless [numRecs < 1 || numRecs > 50]; NaN is neither. *)
Definition accepted (numRecs : integer) : bool :=
  negb (less numRecs 1 || less 50 numRecs).

(** A query parameter is [null] or a string, and truthy when it is a
    non-empty string. *)
Definition given (param : option string) : bool :=
  match param with
  | Some p => truthy p
  | None => false
  end.

(** [Math.max(1, Math.min(50, industriesParam ? 20 : numRecs))] *)
Definition wantTopN (industriesParam : option string) (numRecs : integer)
  : integer :=
  math_max 1 (math_min 50 (if given industriesParam then Int 20 else numRecs)).

(** The branch [else if (csvMatch)] of the handler: the TF-IDF
    recommender is called with the title of the match. *)
Definition csvRecommendations (dataset : result (list Movie)) (st : Csv.State)
    (csvMatch : Movie) (industriesParam : option string) (numRecs : integer)
  : result (list RecommendationResult) * Csv.State :=
  Csv.getRecommendations dataset st (title csvMatch)
                         (wantTopN industriesParam numRecs).

End Route.

(* ================================================================== *)
(** * [lib/imdb-suggest.ts] *)
(* ================================================================== *)

Module ImdbSuggest.

(** [ImdbSuggestionItem]; an absent or empty [id] is the empty string. *)
Record Item : Type := mkItem {
  id : string;
  l : option string;
  y : option Z;
  qid : option string;
  q : option string;
  imageUrl : option string   (* [item.i?.imageUrl] *)
}.

Record MovieSummary : Type := mkSummary {
  imdbId : string;
  s_title : string;
  year : option Z;
  type : option string;
  poster : option string;
  imdbUrl : string
}.

Record CacheEntry : Type := mkEntry {
  value : list MovieSummary;
  expiresAt : Z
}.

(** The [Map]: the latest [set] of a key comes first and hides the older
    ones. *)
Definition State : Type := list (string * CacheEntry).

Definition initial : State := [].

Definition CACHE_TTL_MS : Z := 10 * 60 * 1000.

Fixpoint cache_get (st : State) (key : string) : option CacheEntry :=
  match st with
  | [] => None
  | (k, e) :: st' => if String.eqb key k then Some e else cache_get st' key
  end.

Definition cache_set (st : State) (key : string) (e : CacheEntry) : State :=
  (key, e) :: st.

Definition normalizeQuery (query : string) : string := toLowerCase (trim query).

(** [a || b] on optional strings. *)
Definition or_string (a b : option string) : option string :=
  match a with
  | Some x => if truthy x then Some x else b
  | None => b
  end.

(** An element of the array may be [null]: [None]. *)
Definition toSummary (item : option Item) : option MovieSummary :=
  match item with
  | None => None
  | Some it =>
      match l it with
      | Some label =>
          if truthy (id it) && truthy label
          then Some (mkSummary (id it) label (y it) (or_string (qid it) (q it))
                               (imageUrl it)
                               ("https://www.imdb.com/title/" ++ id it ++ "/"))
          else None
      | None => None
      end
  end.

(** What the request gives: an exception of [fetch] or of [res.json()], a
    response that is not [ok], or the parsed body, whose field [d] is an
    array or something else ([None]). *)
Inductive Response : Type :=
  | Failed
  | NotOk
  | Body (d : option (list (option Item))).

(** The clock (one reading for the call) and the answer to the request
    for each normalized query. *)
Record World : Type := mkWorld {
  now : Z;
  fetch : string -> Response
}.

Fixpoint filter_some {A : Type} (xs : list (option A)) : list A :=
  match xs with
  | [] => []
  | Some x :: xs' => x :: filter_some xs'
  | None :: xs' => filter_some xs'
  end.

Definition imdbSuggestSearch (w : World) (st : State) (query : string)
  : list MovieSummary * State :=
  let normalized := normalizeQuery query in
  if negb (truthy normalized) then ([], st)
  else
    let request :=
      match fetch w normalized with
      | Failed | NotOk =>
          ([], cache_set st normalized (mkEntry [] (now w + CACHE_TTL_MS)))
      | Body d =>
          let list := match d with Some items => items | None => [] end in
          let summaries := filter_some (map toSummary list) in
          (summaries,
           cache_set st normalized (mkEntry summaries (now w + CACHE_TTL_MS)))
      end in
    match cache_get st normalized with
    | Some cached =>
        if (now w <? expiresAt cached)%Z then (value cached, st) else request
    | None => request
    end.

(** The states that calls produce from the empty cache. *)
Inductive reachable : State -> Prop :=
  | reach_initial : reachable initial
  | reach_search w st query :
      reachable st -> reachable (snd (imdbSuggestSearch w st query)).

(** A summary as [toSummary] makes them. *)
Definition well_formed (s : MovieSummary) : Prop :=
  imdbId s <> EmptyString /\ s_title s <> EmptyString /\
  imdbUrl s = "https://www.imdb.com/title/" ++ imdbId s ++ "/".

End ImdbSuggest.

(** A string that does not begin with white space. *)
Definition starts_clean (s : string) : Prop :=
  match s with
  | EmptyString => True
  | String c _ => is_space c = false
  end.

(** A string that [trim] leaves as it is. *)
Definition trimmed (s : string) : Prop := trim s = s.

(* ================================================================== *)
(** * Sample data *)
(* ================================================================== *)

Definition the_constructor : Movie :=
  mkMovie 1 "The Constructor" "Hollywood" "Drama" "English" 2020
          "A builder fights city hall".

Definition inception : Movie :=
  mkMovie 1 "Inception" "Hollywood" "Action Sci-Fi" "English" 2010
          "a thief steals secrets".
Definition the_thief : Movie :=
  mkMovie 2 "The Thief" "Hollywood" "Crime" "English" 2012
          "a thief steals jewels".
Definition romance_story : Movie :=
  mkMovie 3 "Romance Story" "Bollywood" "Romance" "Hindi" 2015
          "two people fall in love".
Definition sample_corpus : list Movie := [inception; the_thief; romance_story].

Definition alpha_g : Grok.GrokMovie :=
  Grok.mkGrokMovie None "Alpha" "Hollywood" "Drama" "English" 2001 "first".
Definition beta_g : Grok.GrokMovie :=
  Grok.mkGrokMovie None "Beta" "Hollywood" "Comedy Horror" "English" 2002
                   "second story".
Definition alpha : Movie :=
  mkMovie 1 "Alpha" "Hollywood" "Drama" "English" 2001 "first".
Definition beta : Movie :=
  mkMovie 1 "Beta" "Hollywood" "Comedy Horror" "English" 2002 "second story".

(** Two answers of the data source, a little more than an hour apart. *)
Definition world_one : Grok.World :=
  Grok.mkWorld 1000 [alpha_g] (fun _ => []).
Definition world_two : Grok.World :=
  Grok.mkWorld (1000 + 3600000) [beta_g] (fun _ => []).

(** An answer with one identified item, and a lookup that finds the
    title asked for. *)
Definition two_g : Grok.GrokMovie :=
  Grok.mkGrokMovie (Some 2%Z) "Alpha" "Hollywood" "Drama" "English" 2001 "first".
Definition lookup_world : Grok.World :=
  Grok.mkWorld 1000 [two_g] (fun _ => [beta_g]).

(** An answer whose two items carry distinct identifiers, 1 and 3, and a
    lookup that finds the title asked for. *)
Definition one_g : Grok.GrokMovie :=
  Grok.mkGrokMovie (Some 1%Z) "Alpha" "Hollywood" "Drama" "English" 2001 "first".
Definition three_g : Grok.GrokMovie :=
  Grok.mkGrokMovie (Some 3%Z) "Gamma" "Hollywood" "Drama" "English" 2003 "third".
Definition gap_world : Grok.World :=
  Grok.mkWorld 1000 [one_g; three_g] (fun _ => [beta_g]).

(** An empty answer of the data source. *)
Definition empty_world : Grok.World := Grok.mkWorld 1000 [] (fun _ => []).

(** An answer of the suggestion endpoint: a title, a hole, an entry
    without a label and an entry without an identifier. *)
Definition suggest_world : ImdbSuggest.World :=
  ImdbSuggest.mkWorld 0 (fun _ =>
    ImdbSuggest.Body (Some
      [ Some (ImdbSuggest.mkItem "tt1375666" (Some "Inception") (Some 2010%Z)
                (Some "movie") (Some "feature")
                (Some "https://m.media-amazon.com/images/M/inception.jpg"));
        None;
        Some (ImdbSuggest.mkItem "tt0000001" None None None None None);
        Some (ImdbSuggest.mkItem EmptyString (Some "Ghost") None None None None) ])).

(** The sample corpus with a movie whose identifier cell was blank. *)
Definition unnumbered : Movie :=
  mkMovie NaNint "Unnumbered" "Hollywood" "Crime" "English" 2013
          "a thief steals secrets and jewels".
Definition blank_id_corpus : list Movie :=
  [inception; unnumbered; the_thief; romance_story].

(** The sample corpus in another order, with one more movie. *)
Definition constructor_corpus : list Movie :=
  [inception; romance_story; the_thief; the_constructor].

(* ================================================================== *)
(** * Theorems *)
(* ================================================================== *)

Example split_ws_samples :
  split_ws EmptyString = [EmptyString] /\
  split_ws "  a" = [EmptyString; "a"] /\
  split_ws "a " = ["a"; EmptyString] /\
  split_ws "a  b" = ["a"; "b"] /\
  split_ws "   " = [EmptyString; EmptyString].
Proof. repeat split; reflexivity. Qed.

Example tokenize_sample :
  tokenize "A skilled thief enters people's dreams, in 3-D!" =
  ["skilled"; "thief"; "enters"; "people"; "dreams"].
Proof. reflexivity. Qed.

(* ------------------------------------------------------------------ *)
(** ** Tokenizer *)
(* ------------------------------------------------------------------ *)

Section Tokenizer.

Lemma split_ws_pieces (s : string) :
  exists w r r',
    split_ws s = w :: r /\ pieces s = w :: r' /\
    filter long r = filter long r' /\
    (forall c s', s = String c s' -> is_space c = true -> w = EmptyString).
Proof.
  induction s as [|c s IH].
  - exists EmptyString, [], []. repeat split.
  - destruct IH as (w & r & r' & Hs & Hp & Hf & Hh).
    simpl. destruct (is_space c) eqn:Hc.
    + destruct s as [|c' s'].
      * simpl in *. exists EmptyString, [EmptyString], [EmptyString].
        repeat split; auto.
      * destruct (is_space c') eqn:Hc'.
        -- assert (w = EmptyString) by (eapply Hh; eauto). subst w.
           exists EmptyString, r, (EmptyString :: r').
           rewrite Hs, Hp. repeat split; auto.
        -- exists EmptyString, (w :: r), (w :: r').
           rewrite Hs, Hp. repeat split; auto.
           simpl. rewrite Hf. reflexivity.
    + rewrite Hs, Hp. exists (String c w), r, r'.
      repeat split; auto.
      intros c0 s0 E Hc0. injection E as -> _. congruence.
Qed.

Lemma filter_split_ws (s : string) :
  filter long (split_ws s) = filter long (pieces s).
Proof.
  destruct (split_ws_pieces s) as (w & r & r' & -> & -> & Hf & _).
  simpl. rewrite Hf. reflexivity.
Qed.

Lemma filter_long_words (l : list string) :
  filter (fun w => negb (String.length w <=? 2)%nat) (filter truthy l) =
  filter long l.
Proof.
  induction l as [|w l IH]; simpl; auto.
  unfold long at 1.
  destruct w as [|a w]; simpl.
  - exact IH.
  - rewrite IH. rewrite Nat.ltb_antisym. reflexivity.
Qed.

Lemma tokenize_refines_by_word (text : string) :
  tokenize text = tokenize_by is_word text.
Proof.
  unfold tokenize, tokenize_by, words, strip_punct.
  rewrite filter_long_words. apply filter_split_ws.
Qed.

Lemma lower_char_not_upper (c : ascii) : is_upper (lower_char c) = false.
Proof.
  destruct c as [[] [] [] [] [] [] [] []]; reflexivity.
Qed.

Lemma kept_char (c : ascii) :
  let c' := if is_word (lower_char c) || is_space (lower_char c)
            then lower_char c else space in
  is_space c' = false -> token_char c' = true.
Proof.
  destruct c as [[] [] [] [] [] [] [] []]; vm_compute; congruence.
Qed.

(** Every piece of a string is free of white space. *)
Lemma pieces_no_space (s : string) :
  Forall (fun w => forallb_string (fun c => negb (is_space c)) w = true) (pieces s).
Proof.
  induction s as [|c s IH]; simpl.
  - repeat constructor.
  - destruct (is_space c) eqn:Hc.
    + constructor; auto.
    + destruct (pieces s) as [|w r]; inversion IH; subst.
      * repeat constructor. simpl. rewrite Hc. reflexivity.
      * constructor; auto. simpl. rewrite Hc. simpl. assumption.
Qed.

Lemma pieces_chars (p : ascii -> bool) (s : string) :
  forallb_string p s = true ->
  Forall (fun w => forallb_string p w = true) (pieces s).
Proof.
  induction s as [|c s IH]; simpl; intros H.
  - repeat constructor.
  - apply andb_true_iff in H as [Hc Hs]. specialize (IH Hs).
    destruct (is_space c).
    + constructor; auto.
    + destruct (pieces s) as [|w r]; inversion IH; subst.
      * repeat constructor. simpl. rewrite Hc. reflexivity.
      * constructor; auto. simpl. rewrite Hc. simpl. assumption.
Qed.

Lemma forallb_string_and (p q : ascii -> bool) (s : string) :
  forallb_string p s = true -> forallb_string q s = true ->
  forallb_string (fun c => p c && q c) s = true.
Proof.
  induction s as [|c s IH]; simpl; auto.
  intros H1 H2.
  apply andb_true_iff in H1 as [-> H1]. apply andb_true_iff in H2 as [-> H2].
  simpl. auto.
Qed.

Lemma forallb_string_impl (p q : ascii -> bool) (s : string) :
  (forall c, p c = true -> q c = true) ->
  forallb_string p s = true -> forallb_string q s = true.
Proof.
  intros Hpq. induction s as [|c s IH]; simpl; auto.
  intros H. apply andb_true_iff in H as [Hc Hs].
  rewrite (Hpq _ Hc). simpl. auto.
Qed.

Lemma stripped_chars (s : string) :
  forallb_string (fun c => is_space c || token_char c)
                 (strip_punct (toLowerCase s)) = true.
Proof.
  induction s as [|c s IH]; simpl; auto.
  apply andb_true_iff. split; [|exact IH].
  pose proof (kept_char c) as H. cbv zeta in H.
  destruct (is_space (if is_word (lower_char c) || is_space (lower_char c)
                      then lower_char c else space)); auto.
Qed.

Lemma tokenize_tokens (text : string) :
  Forall (fun w => (2 < String.length w)%nat /\
                   forallb_string token_char w = true)
         (tokenize text).
Proof.
  rewrite tokenize_refines_by_word. unfold tokenize_by, words.
  set (s := map_string _ _).
  assert (Hs : Forall (fun w => forallb_string token_char w = true) (pieces s)).
  { pose proof (pieces_no_space s) as H1.
    pose proof (pieces_chars _ _ (stripped_chars text)) as H2.
    fold (strip_punct (toLowerCase text)) in s. fold s in H2.
    rewrite Forall_forall in *. intros w Hw.
    specialize (H1 w Hw). specialize (H2 w Hw).
    pose proof (forallb_string_and _ _ _ H1 H2) as H3.
    revert H3. apply forallb_string_impl.
    intros c Hc. destruct (is_space c); simpl in Hc; auto. discriminate. }
  rewrite Forall_forall in *. intros w Hw.
  apply filter_In in Hw as [Hw Hlen]. apply filter_In in Hw as [Hw _].
  split; auto.
  apply negb_true_iff in Hlen. apply Nat.leb_gt in Hlen. exact Hlen.
Qed.

End Tokenizer.

(** C7, as stated, fails: the underscore is not alphanumeric, yet it is
    kept, so that ["a_b"] is one token of three characters where the
    description leaves two pieces that are too short. *)
Lemma tokenize_keeps_underscore :
  tokenize "a_b" = ["a_b"] /\ tokenize_spec "a_b" = [] /\
  tokenize "a_b" <> tokenize_spec "a_b".
Proof. repeat split; try reflexivity. vm_compute. discriminate. Qed.

(** C7 (amended): tokenize lowercases the text, replaces every character
    that is neither a word character (ASCII letter, digit or underscore)
    nor white space by a space, splits on white-space runs and keeps the
    tokens longer than two characters, each made of lower-case letters,
    digits and underscores.  Being a function, it gives the same output
    each time it is applied to the same string. *)
Theorem tokenize_word_chars (text : string) :
  tokenize text = tokenize_by is_word text /\
  Forall (fun w => (2 < String.length w)%nat /\
                   forallb_string token_char w = true)
         (tokenize text) /\
  tokenize_by is_word text = tokenize_by is_word text.
Proof.
  split; [apply tokenize_refines_by_word|].
  split; [apply tokenize_tokens|]. reflexivity.
Qed.

(* ------------------------------------------------------------------ *)
(** ** Arithmetic on finite numbers *)
(* ------------------------------------------------------------------ *)

Section Numbers.

Local Open Scope R_scope.

Lemma mul_NaN_r (a : number) : mul a NaN = NaN.
Proof. destruct a; reflexivity. Qed.

Lemma add_NaN_r (a : number) : add a NaN = NaN.
Proof. destruct a; reflexivity. Qed.

Lemma msqrt_Fin (x : R) : 0 <= x -> msqrt (Fin x) = Fin (sqrt x).
Proof.
  intros H. unfold msqrt. destruct (Rlt_dec x 0); [lra | reflexivity].
Qed.

Lemma div_Fin (x y : R) : y <> 0 -> div (Fin x) (Fin y) = Fin (x / y).
Proof.
  intros H. unfold div. destruct (Req_dec_T y 0); [contradiction | reflexivity].
Qed.

Lemma is_zero_Fin (x : R) : is_zero (Fin x) = true <-> x = 0.
Proof.
  unfold is_zero. destruct (Req_dec_T x 0); split; auto; discriminate.
Qed.

Lemma mlog_Fin (x : R) : 0 < x -> mlog (Fin x) = Fin (ln x).
Proof.
  intros H. unfold mlog, Rsign. destruct (Rlt_dec 0 x); [reflexivity | lra].
Qed.

Lemma of_nat_0 : of_nat 0 = Fin 0.
Proof. reflexivity. Qed.

End Numbers.

(* ------------------------------------------------------------------ *)
(** ** Cosine similarity *)
(* ------------------------------------------------------------------ *)

Section Cosine.

Local Open Scope R_scope.

Lemma sumsq_nonneg (a : list R) : 0 <= sumsq a.
Proof.
  unfold sumsq. induction a as [|x a IH]; simpl; [lra|].
  pose proof (Rle_0_sqr x) as H. unfold Rsqr in H. lra.
Qed.

Lemma firstn_length_cons (x : R) (a b : list R) (y : R) :
  firstn (List.length (x :: a)) (y :: b) = y :: firstn (List.length a) b.
Proof. reflexivity. Qed.

Lemma fin_triple (a a' b b' c c' : R) :
  a = a' -> b = b' -> c = c' -> (Fin a, Fin b, Fin c) = (Fin a', Fin b', Fin c').
Proof. intros -> -> ->. reflexivity. Qed.

Lemma cosine_loop_vec (a : list R) :
  forall (b : list R) (d n1 n2 : R),
    (List.length a <= List.length b)%nat ->
    cosine_loop (vec a) (vec b) (Fin d) (Fin n1) (Fin n2) =
    (Fin (d + dot a b), Fin (n1 + sumsq a),
     Fin (n2 + sumsq (firstn (List.length a) b))).
Proof.
  induction a as [|x a IH]; intros b d n1 n2 Hlen.
  - simpl. unfold sumsq. simpl. apply fin_triple; lra.
  - destruct b as [|y b]; [simpl in Hlen; lia|].
    rewrite firstn_length_cons.
    change (cosine_loop (vec (x :: a)) (vec (y :: b)) (Fin d) (Fin n1) (Fin n2))
      with (cosine_loop (vec a) (vec b) (Fin (d + x * y)) (Fin (n1 + x * x))
                        (Fin (n2 + y * y))).
    rewrite IH by (simpl in Hlen; lia).
    unfold sumsq. simpl. apply fin_triple; lra.
Qed.

Lemma cosine_arrays_vec (a b : list R) :
  (List.length a <= List.length b)%nat ->
  cosine_arrays (vec a) (vec b) = Fin (cosine_value a b).
Proof.
  intros Hlen. unfold cosine_arrays. rewrite of_nat_0.
  rewrite (cosine_loop_vec a b 0 0 0 Hlen).
  rewrite !Rplus_0_l.
  rewrite !msqrt_Fin by apply sumsq_nonneg.
  unfold cosine_value, norm.
  change (mul (Fin ?x) (Fin ?y)) with (Fin (x * y)).
  set (den := sqrt (sumsq a) * sqrt (sumsq (firstn (List.length a) b))).
  unfold is_zero. destruct (Req_dec_T den 0) as [E|E].
  - reflexivity.
  - apply div_Fin. exact E.
Qed.

Lemma cs_step (x y D A B : R) :
  D * D <= A * B -> 0 <= A -> 0 <= B ->
  (x * y + D) * (x * y + D) <= (x * x + A) * (y * y + B).
Proof.
  intros HD HA HB.
  assert (Hkey : 2 * (x * y * D) <= x * x * B + y * y * A).
  { destruct (Req_dec A 0) as [EA|NA].
    - assert (ED : D = 0).
      { rewrite EA, Rmult_0_l in HD.
        pose proof (Rle_0_sqr D) as H0. unfold Rsqr in H0.
        apply Rsqr_0_uniq. unfold Rsqr. lra. }
      rewrite ED, EA.
      pose proof (Rle_0_sqr x) as H0. unfold Rsqr in H0.
      assert (0 <= x * x * B) by (apply Rmult_le_pos; assumption). lra.
    - assert (HApos : 0 < A) by lra.
      pose proof (Rle_0_sqr (x * D - y * A)) as H1. unfold Rsqr in H1.
      pose proof (Rle_0_sqr x) as H2. unfold Rsqr in H2.
      assert (H3 : 0 <= x * x * (A * B - D * D)).
      { apply Rmult_le_pos; lra. }
      assert (H4 : 0 <= A * (x * x * B + y * y * A - 2 * (x * y * D))).
      { replace (A * (x * x * B + y * y * A - 2 * (x * y * D)))
          with ((x * D - y * A) * (x * D - y * A) + x * x * (A * B - D * D))
          by ring.
        lra. }
      assert (H5 : 0 <= x * x * B + y * y * A - 2 * (x * y * D)).
      { apply Rmult_le_reg_l with A; [exact HApos|]. lra. }
      lra. }
  replace ((x * y + D) * (x * y + D))
    with (x * x * (y * y) + 2 * (x * y * D) + D * D) by ring.
  replace ((x * x + A) * (y * y + B))
    with (x * x * (y * y) + (x * x * B + y * y * A) + A * B) by ring.
  lra.
Qed.

(** Cauchy-Schwarz over the common positions. *)
Lemma cauchy_schwarz (a : list R) :
  forall b : list R,
    (List.length a <= List.length b)%nat ->
    dot a b * dot a b <= sumsq a * sumsq (firstn (List.length a) b).
Proof.
  induction a as [|x a IH]; intros b Hlen.
  - unfold sumsq. simpl. lra.
  - destruct b as [|y b]; [simpl in Hlen; lia|].
    rewrite firstn_length_cons.
    assert (Hl : (List.length a <= List.length b)%nat) by (simpl in Hlen; lia).
    specialize (IH b Hl).
    pose proof (sumsq_nonneg a) as HA.
    pose proof (sumsq_nonneg (firstn (List.length a) b)) as HB.
    unfold sumsq in *. simpl.
    apply cs_step; assumption.
Qed.

Lemma cosine_value_bounds (a b : list R) :
  (List.length a <= List.length b)%nat ->
  -1 <= cosine_value a b <= 1.
Proof.
  intros Hlen. unfold cosine_value.
  set (den := norm a * norm (firstn (List.length a) b)).
  destruct (Req_dec_T den 0) as [E|E]; [lra|].
  pose proof (cauchy_schwarz a b Hlen) as CS.
  pose proof (sumsq_nonneg a) as HA.
  pose proof (sumsq_nonneg (firstn (List.length a) b)) as HB.
  assert (Hden : den * den = sumsq a * sumsq (firstn (List.length a) b)).
  { unfold den, norm.
    transitivity ((sqrt (sumsq a) * sqrt (sumsq a)) *
                  (sqrt (sumsq (firstn (List.length a) b)) *
                   sqrt (sumsq (firstn (List.length a) b)))); [ring|].
    rewrite !sqrt_sqrt by assumption. reflexivity. }
  assert (Hpos : 0 < den).
  { assert (0 <= den).
    { unfold den, norm. apply Rmult_le_pos; apply sqrt_pos. }
    lra. }
  assert (Habs : - den <= dot a b <= den).
  { assert (Hsq : Rsqr (dot a b) <= Rsqr den) by (unfold Rsqr; lra).
    apply Rsqr_le_abs_0 in Hsq.
    rewrite (Rabs_pos_eq den) in Hsq by lra.
    unfold Rabs in Hsq. destruct (Rcase_abs (dot a b)); lra. }
  split.
  - apply Rmult_le_reg_r with den; [exact Hpos|].
    unfold Rdiv. rewrite Rmult_assoc, Rinv_l by exact E. lra.
  - apply Rmult_le_reg_r with den; [exact Hpos|].
    unfold Rdiv. rewrite Rmult_assoc, Rinv_l by exact E. lra.
Qed.

Lemma cosine_value_zero_norm (a b : list R) :
  norm a = 0 \/ norm (firstn (List.length a) b) = 0 -> cosine_value a b = 0.
Proof.
  intros H. unfold cosine_value.
  destruct (Req_dec_T _ 0) as [E|E]; [reflexivity|].
  exfalso. apply E. destruct H as [-> | ->]; ring.
Qed.

Lemma cosine_value_self (a : list R) : norm a <> 0 -> cosine_value a a = 1.
Proof.
  intros H. unfold cosine_value. rewrite firstn_all.
  pose proof (sumsq_nonneg a) as HA.
  assert (E : norm a * norm a = sumsq a) by (unfold norm; apply sqrt_sqrt; exact HA).
  rewrite E.
  assert (sumsq a <> 0).
  { intros Z. apply H. unfold norm. rewrite Z. apply sqrt_0. }
  destruct (Req_dec_T (sumsq a) 0); [contradiction|].
  unfold sumsq. field. assumption.
Qed.

Lemma sumsq_zero_vector (n : nat) : sumsq (zero_vector n) = 0.
Proof.
  unfold sumsq, zero_vector. induction n as [|n IH]; simpl; [reflexivity|].
  rewrite IH. ring.
Qed.

Lemma norm_zero_vector (n : nat) : norm (zero_vector n) = 0.
Proof. unfold norm. rewrite sumsq_zero_vector. apply sqrt_0. Qed.

Lemma length_zero_vector (n : nat) : List.length (zero_vector n) = n.
Proof. apply repeat_length. Qed.

End Cosine.

(* ------------------------------------------------------------------ *)
(** ** Cosine similarity in binary64 *)
(* ------------------------------------------------------------------ *)

Section Binary64Facts.

Import PrimFloat.
Local Open Scope float_scope.



























Example lengths_and_zero_norms_in_binary64 :
  Binary64.cosineSimilarity (Some [3; 4]) (Some [4; 3; 7])
    = 0x1.eb851eb851eb8p-1 (* 24/25, rounded *) /\
  Binary64.cosineSimilarity (Some [3; 4; 7]) (Some [4; 3]) = nan /\
  Binary64.cosineSimilarity (Some [0; 0]) (Some [4; 3]) = 0 /\
  Binary64.cosineSimilarity (Some [4; 3]) (Some [0; 0]) = 0 /\
  Binary64.cosineSimilarity (Some [Binary64.huge]) (Some [0]) = nan /\
  Binary64.cosineSimilarity (Some [Binary64.tiny]) (Some [1]) = 0 /\
  Binary64.cosineSimilarity_unguarded (Some [1]) None =
    Throw Csv.msg_read_first.
Proof. repeat split; reflexivity. Qed.



Example self_and_zero_vector_in_binary64 :
  Binary64.cosineSimilarity (Some [3; 4]) (Some [3; 4]) = 1 /\
  Binary64.cosineSimilarity (Some [Binary64.huge]) (Some [Binary64.huge]) = nan /\
  Binary64.cosineSimilarity (Some [0; 0]) (Some [3; 4; 5]) = 0 /\
  Binary64.cosineSimilarity (Some [3; 4]) (Some [0; 0; 0]) = 0 /\
  Binary64.cosineSimilarity (Some [0; 0; 0]) (Some [3; 4]) = nan /\
  Binary64.cosineSimilarity (Some [3; 4; 5]) (Some [0; 0]) = nan /\
  Binary64.cosineSimilarity (Some [0]) (Some [infinity]) = nan.
Proof. repeat split; reflexivity. Qed.

End Binary64Facts.

(* ------------------------------------------------------------------ *)
(** ** TF-IDF weights *)
(* ------------------------------------------------------------------ *)

Section TfIdf.

Local Open Scope R_scope.

Lemma countTerms_fold (tokens : list string) :
  countTerms tokens = fold_left step tokens [].
Proof. reflexivity. Qed.

Lemma inherited_not_proto (k : string) :
  inherited k = false -> String.eqb k "__proto__" = false.
Proof.
  intros H. destruct (String.eqb k "__proto__") eqn:E; [|reflexivity].
  apply String.eqb_eq in E. subst k. discriminate H.
Qed.

Lemma get_step_same (o : object) (k : string) :
  inherited k = false -> get (step o k) k = Some (or0_plus1 (get o k)).
Proof.
  intros H. unfold step, set. rewrite (inherited_not_proto k H).
  unfold get at 1. simpl. rewrite String.eqb_refl. reflexivity.
Qed.

Lemma get_step_other (o : object) (t k : string) :
  k <> t -> get (step o t) k = get o k.
Proof.
  intros H. unfold step, set.
  destruct (String.eqb t "__proto__"); [reflexivity|].
  unfold get. simpl.
  destruct (String.eqb k t) eqn:E; [apply String.eqb_eq in E; contradiction|].
  reflexivity.
Qed.

Lemma held_fold (k : string) (Hk : inherited k = false) (tokens : list string) :
  forall (o : object) (n : nat),
    held o k = Some n ->
    held (fold_left step tokens o) k = Some (n + count_occ string_dec tokens k)%nat.
Proof.
  induction tokens as [|t tokens IH]; intros o n Hn; simpl.
  - rewrite Nat.add_0_r. exact Hn.
  - destruct (string_dec t k) as [->|Hne].
    + rewrite (IH (step o k) (S n)); [f_equal; lia|].
      unfold held in *. rewrite get_step_same by exact Hk.
      destruct (get o k) as [[m|]|]; simpl; try discriminate.
      * injection Hn as ->. f_equal. lia.
      * injection Hn as <-. reflexivity.
    + apply IH. unfold held in *.
      rewrite get_step_other by congruence. exact Hn.
Qed.

Lemma or0_held (o : object) (k : string) (n : nat) :
  held o k = Some n -> or0 (get o k) = of_nat n.
Proof.
  unfold held. destruct (get o k) as [[m|]|]; simpl; intros H;
    try discriminate; injection H as <-; reflexivity.
Qed.

Lemma or0_countTerms (tokens : list string) (k : string) :
  inherited k = false ->
  or0 (get (countTerms tokens) k) = of_nat (count_occ string_dec tokens k).
Proof.
  intros Hk. apply or0_held. rewrite countTerms_fold.
  apply held_fold with (n := 0%nat); [exact Hk|].
  unfold held, get. simpl. rewrite Hk. reflexivity.
Qed.

(** A key of [Object.prototype] never holds a number. *)
Lemma get_fold_inherited (k : string) (Hk : inherited k = true)
    (tokens : list string) :
  forall o : object,
    get o k = Some NotNumeric ->
    get (fold_left step tokens o) k = Some NotNumeric.
Proof.
  induction tokens as [|t tokens IH]; intros o Ho; simpl; [exact Ho|].
  apply IH. destruct (string_dec k t) as [<-|Hne].
  - unfold step, set. rewrite Ho. simpl.
    destruct (String.eqb k "__proto__"); [exact Ho|].
    unfold get. simpl. rewrite String.eqb_refl. reflexivity.
  - rewrite get_step_other by exact Hne. exact Ho.
Qed.

Lemma get_countTerms_inherited (tokens : list string) (k : string) :
  inherited k = true -> get (countTerms tokens) k = Some NotNumeric.
Proof.
  intros Hk. rewrite countTerms_fold. apply get_fold_inherited; [exact Hk|].
  unfold get. simpl. rewrite Hk. reflexivity.
Qed.

Lemma array_includes_in (a : list string) (w : string) :
  array_includes a w = if in_dec string_dec w a then true else false.
Proof.
  unfold array_includes. destruct (in_dec string_dec w a) as [H|H].
  - apply existsb_exists. exists w. split; [exact H | apply String.eqb_refl].
  - destruct (existsb (String.eqb w) a) eqn:E; [|reflexivity].
    apply existsb_exists in E as (x & Hx & Ex).
    apply String.eqb_eq in Ex. subst x. contradiction.
Qed.

Lemma docCount_frequency (w : string) (docs : list string) :
  List.length (filter (fun doc => array_includes (tokenize doc) w) docs) =
  doc_frequency w docs.
Proof.
  unfold doc_frequency. f_equal. apply filter_ext.
  intros d. apply array_includes_in.
Qed.

Lemma idf_code (w : string) (docs : list string) :
  docs <> [] ->
  mlog (div (of_nat (List.length docs))
            (of_nat (List.length
                       (filter (fun doc => array_includes (tokenize doc) w) docs)
                     + 1)))
  = Fin (idf w docs).
Proof.
  intros Hdocs. rewrite docCount_frequency. unfold of_nat, idf.
  set (df := doc_frequency w docs).
  assert (Hdf : 0 < INR (df + 1)) by (apply lt_0_INR; lia).
  assert (Hn : 0 < INR (List.length docs)).
  { apply lt_0_INR. destruct docs; [contradiction | simpl; lia]. }
  rewrite div_Fin by lra.
  rewrite mlog_Fin by (apply Rdiv_lt_0_compat; assumption).
  rewrite plus_INR. reflexivity.
Qed.

(** The weight the code gives to a term that [Object.prototype] does not
    have, in a document of a non-empty collection. *)
Lemma calculateTfIdf_plain (doc : string) (vocab docs : list string) :
  docs <> [] -> plain_vocabulary vocab ->
  calculateTfIdf doc vocab docs = vec (weights doc vocab docs).
Proof.
  intros Hdocs Hplain. unfold calculateTfIdf, weights, vec, weight, tf.
  rewrite map_map.
  destruct (tokenize doc) as [|t tokens] eqn:Htok.
  - simpl. apply map_ext. intros w. rewrite Rmult_0_l. reflexivity.
  - change (List.length (t :: tokens) =? 0)%nat with false. cbv iota.
    apply map_ext_in. intros w Hw.
    unfold plain_vocabulary in Hplain. rewrite Forall_forall in Hplain.
    rewrite or0_countTerms by (apply Hplain; exact Hw).
    rewrite idf_code by exact Hdocs.
    unfold of_nat. rewrite div_Fin; [reflexivity|].
    apply not_0_INR. simpl. lia.
Qed.

(** The weight the code gives to a term that names a member of
    [Object.prototype], in a document that has tokens. *)
Lemma calculateTfIdf_inherited (doc : string) (vocab docs : list string)
    (j : nat) (w : string) :
  tokenize doc <> [] -> nth_error vocab j = Some w -> inherited w = true ->
  nth_error (calculateTfIdf doc vocab docs) j = Some NaN.
Proof.
  intros Htok Hj Hw. unfold calculateTfIdf.
  destruct (tokenize doc) as [|t tokens]; [contradiction|].
  change (List.length (t :: tokens) =? 0)%nat with false. cbv iota.
  rewrite nth_error_map, Hj. simpl.
  rewrite get_countTerms_inherited by exact Hw. reflexivity.
Qed.

Lemma calculateTfIdf_no_tokens (doc : string) (vocab docs : list string) :
  tokenize doc = [] ->
  calculateTfIdf doc vocab docs = vec (zero_vector (List.length vocab)).
Proof.
  intros Htok. unfold calculateTfIdf. rewrite Htok. simpl.
  unfold vec, zero_vector. induction vocab as [|w vocab IH]; simpl; [reflexivity|].
  rewrite IH. reflexivity.
Qed.

End TfIdf.

Section TfIdfClaims.

Local Open Scope R_scope.

(** Outside the terms that name a member of [Object.prototype], the rows
    of the matrix are the weights of the prose. *)
Lemma tfidf_rows_plain (movies : list Movie) :
  movies <> [] -> plain_vocabulary (buildVocabulary movies) ->
  tfidf_rows movies =
  map (fun m => vec (weights (combinedText m) (buildVocabulary movies)
                             (map combinedText movies)))
      movies.
Proof.
  intros Hne Hplain. unfold tfidf_rows. rewrite map_map.
  apply map_ext. intros m. apply calculateTfIdf_plain; [|exact Hplain].
  destruct movies; [contradiction | discriminate].
Qed.

(** C1 at a corpus whose text has the word "constructor": the property
    [termFreq["constructor"]] is found in [Object.prototype], the count
    turns into a string and the weight of the term is NaN, where the
    claim expects the real number [tf * idf]. *)
Theorem constructor_weight_is_NaN :
  let doc := combinedText the_constructor in
  nth_error (buildVocabulary [the_constructor]) 2 = Some "constructor" /\
  (exists row,
      tfidf_rows [the_constructor] = [row] /\ nth_error row 2 = Some NaN) /\
  NaN <> Fin (weight "constructor" doc [doc]).
Proof.
  split; [reflexivity|]. split; [|discriminate].
  eexists. split; [reflexivity|].
  apply calculateTfIdf_inherited with (w := "constructor").
  - vm_compute. discriminate.
  - reflexivity.
  - reflexivity.
Qed.

End TfIdfClaims.

(* ------------------------------------------------------------------ *)
(** ** The stable sort and [slice] *)
(* ------------------------------------------------------------------ *)

Section SortFacts.

Context {A : Type} (after : A -> A -> bool).

Lemma insert_perm (x : A) (l : list A) : Permutation (insert after x l) (x :: l).
Proof.
  induction l as [|y l IH]; simpl; [reflexivity|].
  destruct (after x y); [|reflexivity].
  rewrite IH. apply perm_swap.
Qed.

Lemma sort_perm (l : list A) : Permutation (sort after l) l.
Proof.
  induction l as [|x l IH]; simpl; [reflexivity|].
  rewrite insert_perm. constructor. exact IH.
Qed.

Lemma sort_length (l : list A) : List.length (sort after l) = List.length l.
Proof. apply Permutation_length, sort_perm. Qed.

Lemma Forall_insert (P : A -> Prop) (x : A) (l : list A) :
  P x -> Forall P l -> Forall P (insert after x l).
Proof.
  intros Hx Hl. eapply Permutation_Forall.
  - symmetry. apply insert_perm.
  - constructor; assumption.
Qed.

Variable ord : A -> A -> Prop.

Hypothesis after_asym : forall x y, after x y = true -> after y x = false.
Hypothesis after_negtrans :
  forall x y z, after x y = false -> after y z = false -> after x z = false.

Lemma insert_sorted (x : A) (l : list A) :
  Forall (ord x) l -> StronglySorted (may_precede after ord) l ->
  StronglySorted (may_precede after ord) (insert after x l).
Proof.
  induction l as [|y l IH]; intros Hx Hs; simpl.
  - repeat constructor.
  - inversion Hs as [|? ? Hs' Hy]; subst.
    inversion Hx as [|? ? Hxy Hx']; subst.
    destruct (after x y) eqn:E.
    + constructor; [apply IH; assumption|].
      apply Forall_insert; [|exact Hy].
      split; [apply after_asym; exact E|]. congruence.
    + constructor; [exact Hs|].
      constructor; [split; auto|].
      rewrite Forall_forall in *. intros z Hz.
      split; [|intros _; apply Hx'; exact Hz].
      apply after_negtrans with y; [exact E|]. apply (Hy z Hz).
Qed.

Lemma sort_sorted (l : list A) :
  StronglySorted ord l -> StronglySorted (may_precede after ord) (sort after l).
Proof.
  induction l as [|x l IH]; intros Hs; simpl; [constructor|].
  inversion Hs as [|? ? Hs' Hx]; subst.
  apply insert_sorted; [|apply IH; exact Hs'].
  eapply Permutation_Forall; [symmetry; apply sort_perm | exact Hx].
Qed.

End SortFacts.

Lemma insert_map {A B : Type} (f : A -> B) (after : B -> B -> bool) (x : A)
    (l : list A) :
  insert after (f x) (map f l) =
  map f (insert (fun a b => after (f a) (f b)) x l).
Proof.
  induction l as [|y l IH]; simpl; [reflexivity|].
  destruct (after (f x) (f y)); simpl; [rewrite IH|]; reflexivity.
Qed.

Lemma sort_map {A B : Type} (f : A -> B) (after : B -> B -> bool) (l : list A) :
  sort after (map f l) = map f (sort (fun a b => after (f a) (f b)) l).
Proof.
  induction l as [|x l IH]; simpl; [reflexivity|].
  rewrite IH. apply insert_map.
Qed.

Lemma sort_ext {A : Type} (f g : A -> A -> bool) (l : list A) :
  (forall x y, f x y = g x y) -> sort f l = sort g l.
Proof.
  intros H. induction l as [|x l IH]; simpl; [reflexivity|].
  rewrite IH. generalize (sort g l). intros s.
  induction s as [|y s IHs]; simpl; [reflexivity|].
  rewrite H, IHs. reflexivity.
Qed.

Lemma slice0_nonneg {A : Type} (l : list A) (e : Z) :
  (0 <= e)%Z -> slice0 l e = firstn (Z.to_nat e) l.
Proof.
  intros He. unfold slice0.
  destruct (Z.ltb_spec e 0); [lia|].
  destruct (Z.le_ge_cases e (Z.of_nat (List.length l))) as [Hle|Hge].
  - rewrite Z.min_l by exact Hle. reflexivity.
  - rewrite Z.min_r by exact Hge. rewrite Nat2Z.id.
    rewrite firstn_all. symmetry. apply firstn_all2. lia.
Qed.

Lemma slice0_length {A : Type} (l : list A) (e : Z) :
  (0 <= e)%Z -> (Z.of_nat (List.length (slice0 l e)) <= e)%Z.
Proof.
  intros He. rewrite slice0_nonneg by exact He.
  rewrite length_firstn. lia.
Qed.

Lemma slice0_map {A B : Type} (f : A -> B) (l : list A) (e : integer) :
  slice0 (map f l) e = map f (slice0 l e).
Proof.
  destruct e as [e|]; [|reflexivity].
  unfold slice0. rewrite length_map. apply firstn_map.
Qed.

Lemma In_firstn_in {A : Type} (x : A) (n : nat) :
  forall l, In x (firstn n l) -> In x l.
Proof.
  induction n as [|n IH]; intros l H; simpl in H; [contradiction|].
  destruct l as [|y l]; [contradiction|].
  destruct H as [->|H]; [left; reflexivity | right; apply IH; exact H].
Qed.

Lemma StronglySorted_firstn {A : Type} (R : A -> A -> Prop) (n : nat) :
  forall l, StronglySorted R l -> StronglySorted R (firstn n l).
Proof.
  induction n as [|n IH]; intros l Hs; simpl; [constructor|].
  destruct l as [|x l]; [constructor|].
  inversion Hs as [|? ? Hs' Hx]; subst.
  constructor; [apply IH; exact Hs'|].
  rewrite Forall_forall in *. intros y Hy. apply Hx.
  eapply In_firstn_in; eauto.
Qed.

(* ------------------------------------------------------------------ *)
(** ** Keyword search *)
(* ------------------------------------------------------------------ *)

Section KeywordSearch.

Lemma truthy_lower (s : string) : truthy (toLowerCase s) = truthy s.
Proof. destruct s; reflexivity. Qed.

Lemma industry_set_none (industries : list string) :
  (List.length (Csv.industry_set industries) =? 0)%nat = forallb blank industries.
Proof.
  unfold Csv.industry_set, blank.
  induction industries as [|i industries IH]; simpl; [reflexivity|].
  rewrite truthy_lower.
  destruct (truthy (trim i)); simpl; [reflexivity | exact IH].
Qed.

Lemma industry_set_has (industries : list string) (m : Movie) :
  Csv.set_has (Csv.industry_set industries) (toLowerCase (industry m)) =
  existsb (fun i => negb (blank i) && names_industry m i) industries.
Proof.
  unfold Csv.set_has, Csv.industry_set, blank, names_industry.
  induction industries as [|i industries IH]; simpl; [reflexivity|].
  rewrite truthy_lower.
  destruct (truthy (trim i)); simpl; [|exact IH].
  rewrite IH. f_equal. apply String.eqb_sym.
Qed.

Lemma tokenize_truthy (text t : string) : In t (tokenize text) -> truthy t = true.
Proof.
  unfold tokenize. intros H. apply filter_In in H as [_ H].
  destruct t; [discriminate | reflexivity].
Qed.

Lemma keyword_score_count (tokens : list string) (m : Movie) :
  forall acc : nat,
    fold_left (fun score t =>
                 if negb (truthy t) then score
                 else if includes (toLowerCase (combinedText m)) t
                      then score + 1 else score)%nat
              tokens acc =
    (acc + List.length
             (filter (fun t => truthy t
                               && includes (toLowerCase (combinedText m)) t)
                     tokens))%nat.
Proof.
  induction tokens as [|t tokens IH]; intros acc; simpl; [lia|].
  rewrite IH. destruct (truthy t); simpl; [|reflexivity].
  destruct (includes _ t); simpl; lia.
Qed.

Lemma keyword_score_query (query : string) (m : Movie) :
  Csv.keyword_score (query_tokens query) m = query_score query m.
Proof.
  unfold Csv.keyword_score, query_score. rewrite keyword_score_count. simpl.
  f_equal. apply filter_ext_in. intros t Ht.
  unfold query_tokens in Ht. rewrite (tokenize_truthy _ _ Ht). reflexivity.
Qed.

Lemma score_movies_hits (industries : list string) (query : string)
    (movies : list Movie) :
  Csv.score_movies (Csv.industry_set industries) (query_tokens query) movies =
  map (fun m => (m, query_score query m)) (keyword_hits movies query industries).
Proof.
  unfold keyword_hits.
  induction movies as [|m movies IH]; simpl; [reflexivity|].
  rewrite IH. unfold industry_ok.
  rewrite industry_set_none, industry_set_has, keyword_score_query.
  destruct (forallb blank industries); simpl.
  - destruct (0 <? query_score query m)%nat; reflexivity.
  - destruct (existsb _ industries); simpl; [|reflexivity].
    destruct (0 <? query_score query m)%nat; reflexivity.
Qed.

Lemma keyword_after_asym (a b : Movie * nat) :
  Csv.keyword_after a b = true -> Csv.keyword_after b a = false.
Proof.
  unfold Csv.keyword_after, Csv.keyword_cmp.
  destruct (Nat.eqb_spec (snd b) (snd a)), (Nat.eqb_spec (snd a) (snd b));
    simpl; intros H; apply Z.ltb_lt in H; apply Z.ltb_ge; lia.
Qed.

Lemma keyword_after_negtrans (a b c : Movie * nat) :
  Csv.keyword_after a b = false -> Csv.keyword_after b c = false ->
  Csv.keyword_after a c = false.
Proof.
  unfold Csv.keyword_after, Csv.keyword_cmp.
  destruct (Nat.eqb_spec (snd b) (snd a)), (Nat.eqb_spec (snd c) (snd b)),
           (Nat.eqb_spec (snd c) (snd a));
    simpl; intros H1 H2; apply Z.ltb_ge in H1; apply Z.ltb_ge in H2;
    apply Z.ltb_ge; lia.
Qed.

Lemma or_zero_year (m : Movie) : or_zero (release_year m) = year_of m.
Proof. reflexivity. Qed.

Lemma keyword_after_order (query : string) (a b : Movie) :
  Csv.keyword_after (a, query_score query a) (b, query_score query b) = false ->
  keyword_order query a b.
Proof.
  unfold Csv.keyword_after, Csv.keyword_cmp, keyword_order. simpl.
  rewrite !or_zero_year.
  destruct (Nat.eqb_spec (query_score query b) (query_score query a));
    simpl; intros H; apply Z.ltb_ge in H; lia.
Qed.

Lemma StronglySorted_impl {A : Type} (R S : A -> A -> Prop) (l : list A) :
  (forall x y, R x y -> S x y) -> StronglySorted R l -> StronglySorted S l.
Proof.
  intros HRS. induction 1 as [|x l Hs IH Hx]; constructor; auto.
  rewrite Forall_forall in *. auto.
Qed.

Lemma StronglySorted_true {A : Type} (l : list A) :
  StronglySorted (fun _ _ => True) l.
Proof.
  induction l; constructor; auto. rewrite Forall_forall. auto.
Qed.

Lemma blank_query_tokens (query : string) :
  truthy (toLowerCase (trim query)) = false -> query_tokens query = [].
Proof.
  unfold query_tokens. destruct (toLowerCase (trim query)); [|discriminate].
  reflexivity.
Qed.

Lemma keyword_hits_no_tokens (movies : list Movie) (query : string)
    (industries : list string) :
  query_tokens query = [] -> keyword_hits movies query industries = [].
Proof.
  intros H. unfold keyword_hits, query_score. rewrite H.
  induction movies as [|m movies IH]; simpl; [reflexivity|].
  rewrite andb_false_r. exact IH.
Qed.

(** The list that the search returns, in terms of the ranking of the
    hits. *)
Lemma keyword_search_result (dataset : result (list Movie)) (st : Csv.State)
    (query : string) (industries : list string) (limit : integer)
    (movies : list Movie)
    (Hload : fst (Csv.loadMovies dataset st) = Ok movies) :
  let f := fun m : Movie => (m, query_score query m) in
  let ranked := sort (fun a b => Csv.keyword_after (f a) (f b))
                     (keyword_hits movies query industries) in
  fst (Csv.searchMoviesByKeyword dataset st query industries limit) =
  Ok (match limit with
      | Int z => firstn (Z.to_nat (Z.max 1 (Z.min z 50))) ranked
      | NaNint => []
      end).
Proof.
  intros f ranked.
  assert (Hempty : keyword_hits movies query industries = [] -> ranked = []).
  { intros E. unfold ranked. rewrite E. reflexivity. }
  assert (Hnil : ranked = [] ->
            match limit with
            | Int z => firstn (Z.to_nat (Z.max 1 (Z.min z 50))) ranked
            | NaNint => []
            end = []).
  { intros ->. destruct limit; [apply firstn_nil | reflexivity]. }
  unfold Csv.searchMoviesByKeyword.
  destruct (truthy (toLowerCase (trim query))) eqn:Hq; simpl.
  - destruct (Csv.loadMovies dataset st) as [r st1]. simpl in Hload. subst r.
    destruct (List.length movies =? 0)%nat eqn:Hm.
    + apply Nat.eqb_eq in Hm. destruct movies; [|discriminate].
      simpl. rewrite Hnil; [reflexivity|]. apply Hempty. reflexivity.
    + fold (query_tokens query).
      destruct (List.length (query_tokens query) =? 0)%nat eqn:Ht.
      * apply Nat.eqb_eq in Ht.
        destruct (query_tokens query) eqn:Etok; [|discriminate].
        simpl. rewrite Hnil; [reflexivity|].
        apply Hempty, keyword_hits_no_tokens. exact Etok.
      * simpl. f_equal. rewrite score_movies_hits. fold f.
        rewrite sort_map. fold ranked.
        rewrite slice0_map, map_map. simpl. rewrite map_id.
        destruct limit as [z|]; [|reflexivity].
        change (Csv.clamp_limit z) with (Int (Z.max 1 (Z.min z 50))).
        apply slice0_nonneg. lia.
  - rewrite Hnil; [reflexivity|].
    apply Hempty, keyword_hits_no_tokens, blank_query_tokens. exact Hq.
Qed.

(** C6: once the corpus is loaded, keyword search returns a list and does
    not raise.  The list is empty for an empty corpus and for an empty or
    blank query.  Otherwise it holds the first movies of a ranking of
    exactly the movies that pass the industry filter (no entry of the list
    of industries names one, or an entry names the industry of the movie up
    to letter case) and whose haystack contains at least one token of the
    query; the ranking is by the number of query tokens contained,
    descending, and among equal scores by release year descending.  For a
    limit that is a number the list is the first clamp(limit, 1, 50) of the
    ranking; for a limit that is NaN it is empty.  It never holds more than
    50 movies. *)
Theorem keyword_search_ranked (dataset : result (list Movie)) (st : Csv.State)
    (query : string) (industries : list string) (limit : integer)
    (movies : list Movie)
    (Hload : fst (Csv.loadMovies dataset st) = Ok movies) :
  exists out ranked,
    fst (Csv.searchMoviesByKeyword dataset st query industries limit) = Ok out /\
    (movies = [] -> out = []) /\
    (trim query = EmptyString -> out = []) /\
    Permutation ranked (keyword_hits movies query industries) /\
    StronglySorted (keyword_order query) ranked /\
    (forall z, limit = Int z ->
       out = firstn (Z.to_nat (Z.max 1 (Z.min z 50))) ranked) /\
    (limit = NaNint -> out = []) /\
    (List.length out <= 50)%nat.
Proof.
  set (f := fun m : Movie => (m, query_score query m)).
  set (ranked := sort (fun a b => Csv.keyword_after (f a) (f b))
                      (keyword_hits movies query industries)).
  assert (Hperm : Permutation ranked (keyword_hits movies query industries))
    by apply sort_perm.
  assert (Hsorted : StronglySorted (keyword_order query) ranked).
  { apply StronglySorted_impl
      with (R := may_precede (fun a b => Csv.keyword_after (f a) (f b))
                             (fun _ _ => True)).
    - intros x y [H _]. apply keyword_after_order. exact H.
    - apply sort_sorted.
      + intros x y. apply keyword_after_asym.
      + intros x y z. apply keyword_after_negtrans.
      + apply StronglySorted_true. }
  assert (Hempty : keyword_hits movies query industries = [] -> ranked = []).
  { intros E. unfold ranked. rewrite E. reflexivity. }
  pose proof (keyword_search_result dataset st query industries limit Hload)
    as Hout.
  cbv zeta in Hout. fold f in Hout. fold ranked in Hout.
  eexists. exists ranked. split; [exact Hout|].
  split.
  { intros ->. rewrite Hempty by reflexivity.
    destruct limit; [apply firstn_nil | reflexivity]. }
  split.
  { intros Hq. rewrite Hempty.
    - destruct limit; [apply firstn_nil | reflexivity].
    - apply keyword_hits_no_tokens. unfold query_tokens. rewrite Hq. reflexivity. }
  split; [exact Hperm|]. split; [exact Hsorted|].
  split.
  { intros z ->. reflexivity. }
  split.
  { intros ->. reflexivity. }
  destruct limit as [z|]; simpl; [|lia].
  rewrite length_firstn. lia.
Qed.

End KeywordSearch.

Example keyword_search_love :
  fst (Csv.searchMoviesByKeyword (Ok sample_corpus) Csv.initial "love" [] 10)
  = Ok [romance_story].
Proof. reflexivity. Qed.

Lemma keyword_search_ranked_witness :
  fst (Csv.loadMovies (Ok sample_corpus) Csv.initial) = Ok sample_corpus /\
  fst (Csv.searchMoviesByKeyword (Ok sample_corpus) Csv.initial
         "thief steals love" ["Hollywood "; EmptyString] 1) = Ok [the_thief] /\
  keyword_hits sample_corpus "thief steals love" ["Hollywood "; EmptyString]
    = [inception; the_thief] /\
  exists out ranked,
    fst (Csv.searchMoviesByKeyword (Ok sample_corpus) Csv.initial
           "thief steals love" ["Hollywood "; EmptyString] 1) = Ok out /\
    (sample_corpus = [] -> out = []) /\
    (trim "thief steals love" = EmptyString -> out = []) /\
    Permutation ranked
      (keyword_hits sample_corpus "thief steals love"
                    ["Hollywood "; EmptyString]) /\
    StronglySorted (keyword_order "thief steals love") ranked /\
    (forall z, Int 1 = Int z ->
       out = firstn (Z.to_nat (Z.max 1 (Z.min z 50))) ranked) /\
    (Int 1 = NaNint -> out = []) /\
    (List.length out <= 50)%nat.
Proof.
  split; [reflexivity|]. split; [reflexivity|]. split; [reflexivity|].
  apply (@keyword_search_ranked (Ok sample_corpus) Csv.initial
           "thief steals love" ["Hollywood "; EmptyString] 1 sample_corpus).
  reflexivity.
Defined.

(* ------------------------------------------------------------------ *)
(** ** Ranking of the neighbours *)
(* ------------------------------------------------------------------ *)

Section Rounding.

Local Open Scope R_scope.

Lemma round_half_up_near (y : R) :
  - / 2 <= IZR (round_half_up y) - y <= / 2.
Proof.
  unfold round_half_up.
  destruct (base_Int_part (y + / 2)) as [H1 H2]. lra.
Qed.

Lemma round4_rounded (x : R) : rounded4 x (round4 x).
Proof.
  unfold rounded4, round4. destruct (Rlt_dec x 0) as [Hneg|Hpos].
  - split.
    + exists (- round_half_up (- x * 10000))%Z. rewrite opp_IZR.
      unfold Rdiv. ring.
    + pose proof (round_half_up_near (- x * 10000)) as H.
      apply Rabs_le. lra.
  - split.
    + eexists. reflexivity.
    + pose proof (round_half_up_near (x * 10000)) as H.
      apply Rabs_le. lra.
Qed.

Lemma toFixed4_small (x : R) : -1 <= x <= 1 -> toFixed4 (Fin x) = Fin (round4 x).
Proof.
  intros Hx. unfold toFixed4.
  destruct (Rle_dec (10 ^ 21) (Rabs x)) as [H|H]; [|reflexivity].
  exfalso.
  assert (Rabs x <= 1) by (apply Rabs_le; lra).
  assert (1 < 10 ^ 21) by (apply Rlt_pow_R1; [lra | lia]).
  lra.
Qed.

Lemma score_after_lt (a b : Movie) (x y : R) :
  score_after (a, Fin x) (b, Fin y) = true <-> x < y.
Proof.
  unfold score_after, sub. simpl.
  destruct (Rlt_dec 0 (y + - x)); split; intros H; try reflexivity;
    try discriminate; lra.
Qed.

End Rounding.

Unset Implicit Arguments.

Section CsvState.

Lemma csv_load_ok (d : result (list Movie)) (st : Csv.State) (movies : list Movie) :
  fst (Csv.loadMovies d st) = Ok movies ->
  Csv.moviesCache (snd (Csv.loadMovies d st)) = Some movies /\
  Csv.tfidfMatrix (snd (Csv.loadMovies d st)) = Csv.tfidfMatrix st /\
  Csv.vocabulary (snd (Csv.loadMovies d st)) = Csv.vocabulary st.
Proof.
  unfold Csv.loadMovies.
  destruct (Csv.moviesCache st) as [cached|] eqn:E; simpl.
  - intros [= ->]. auto.
  - destruct d as [records|msg]; simpl; [|discriminate].
    intros [= ->]. auto.
Qed.

Lemma csv_load_coherent (d : result (list Movie)) (st : Csv.State) :
  coherent st -> coherent (snd (Csv.loadMovies d st)).
Proof.
  unfold Csv.loadMovies.
  destruct (Csv.moviesCache st) as [cached|] eqn:E; simpl; [auto|].
  destruct d as [records|msg]; simpl; [|auto].
  unfold coherent. simpl.
  destruct (Csv.tfidfMatrix st), (Csv.vocabulary st); auto.
  intros (movies & H & _). congruence.
Qed.

Lemma csv_build (st : Csv.State) (movies : list Movie) :
  coherent st -> Csv.moviesCache st = Some movies -> movies <> [] ->
  exists st',
    Csv.buildTfIdfMatrix st movies =
      (Ok (tfidf_rows movies, buildVocabulary movies), st') /\
    coherent st' /\ Csv.moviesCache st' = Some movies.
Proof.
  intros Hco Hcache Hne. unfold Csv.buildTfIdfMatrix.
  destruct movies as [|m movies]; [contradiction|].
  change (List.length (m :: movies) =? 0)%nat with false. cbv iota.
  unfold coherent in Hco.
  destruct (Csv.tfidfMatrix st) as [matrix|] eqn:Em,
           (Csv.vocabulary st) as [vocab|] eqn:Ev; try contradiction.
  - destruct Hco as (movies' & H1 & -> & ->).
    rewrite Hcache in H1. injection H1 as <-.
    exists st. repeat split; auto.
    unfold coherent. rewrite Em, Ev. eauto.
  - eexists. split; [reflexivity|]. split; [|exact Hcache].
    unfold coherent. simpl. eauto.
Qed.

Lemma csv_build_coherent (st : Csv.State) (movies : list Movie) :
  coherent st -> Csv.moviesCache st = Some movies ->
  coherent (snd (Csv.buildTfIdfMatrix st movies)).
Proof.
  intros Hco Hcache. destruct movies as [|m movies].
  - exact Hco.
  - destruct (csv_build st (m :: movies) Hco Hcache) as (st' & E & H & _);
      [discriminate|].
    rewrite E. exact H.
Qed.

Lemma csv_recommend_coherent (d : result (list Movie)) (st : Csv.State)
    (t : string) (n : integer) :
  coherent st -> coherent (snd (Csv.getRecommendations d st t n)).
Proof.
  intros Hco. unfold Csv.getRecommendations.
  pose proof (csv_load_coherent d st Hco) as H1.
  pose proof (csv_load_ok d st) as H2.
  destruct (Csv.loadMovies d st) as [[movies|msg] st1]; simpl in *; [|exact H1].
  destruct (H2 movies eq_refl) as (Hcache & _).
  destruct (List.length movies =? 0)%nat; [exact H1|].
  destruct (Csv.findMovieByTitle movies t); [|exact H1].
  pose proof (csv_build_coherent st1 movies H1 Hcache) as H3.
  destruct (Csv.buildTfIdfMatrix st1 movies) as [[[matrix vocab]|msg] st2];
    simpl in *; [|exact H3].
  destruct (findIndex _ movies); [|exact H3].
  destruct (nth_error matrix n0); [|exact H3].
  destruct (Csv.similarities_from matrix n0 0 movies); exact H3.
Qed.

Lemma csv_reachable_coherent (st : Csv.State) : Csv.reachable st -> coherent st.
Proof.
  induction 1 as [|d st _ IH|d st t n _ IH|d st q i l _ IH|d st i _ IH|d st g _ IH].
  - exact I.
  - apply csv_load_coherent. exact IH.
  - apply csv_recommend_coherent. exact IH.
  - unfold Csv.searchMoviesByKeyword.
    pose proof (csv_load_coherent d st IH) as H1.
    destruct (truthy (toLowerCase (trim q))); simpl; [|exact IH].
    destruct (Csv.loadMovies d st) as [[movies|msg] st1]; simpl in *; [|exact H1].
    destruct (List.length movies =? 0)%nat; [exact H1|].
    destruct (List.length _ =? 0)%nat; exact H1.
  - unfold Csv.getMoviesByIndustry.
    pose proof (csv_load_coherent d st IH) as H1.
    destruct (Csv.loadMovies d st) as [[movies|msg] st1]; exact H1.
  - unfold Csv.getMoviesByGenre.
    pose proof (csv_load_coherent d st IH) as H1.
    destruct (Csv.loadMovies d st) as [[movies|msg] st1]; exact H1.
Qed.

End CsvState.

Section Ranking.

Local Open Scope R_scope.

Lemma findIndex_some {A : Type} (p : A -> bool) (l : list A) (q : nat) :
  findIndex p l = Some q ->
  exists x, nth_error l q = Some x /\ p x = true.
Proof.
  revert q. induction l as [|y l IH]; intros q; simpl; [discriminate|].
  destruct (p y) eqn:E.
  - intros [= <-]. exists y. auto.
  - destruct (findIndex p l) as [i|]; [|discriminate].
    intros [= <-]. apply IH. reflexivity.
Qed.

Lemma findIndex_exists {A : Type} (p : A -> bool) (l : list A) (x : A) :
  In x l -> p x = true -> exists q, findIndex p l = Some q.
Proof.
  induction l as [|y l IH]; intros Hin Hp; [contradiction|]. simpl.
  destruct (p y) eqn:E; [eauto|].
  destruct Hin as [->|Hin]; [congruence|].
  destruct (IH Hin Hp) as (q & ->). eauto.
Qed.

Lemma NoDup_map_same {A B : Type} (f : A -> B) (l : list A) (x y : A) :
  NoDup (map f l) -> In x l -> In y l -> f x = f y -> x = y.
Proof.
  induction l as [|z l IH]; intros Hnd Hx Hy Hf; [contradiction|].
  simpl in Hnd. inversion Hnd as [|? ? Hnot Hnd']; subst.
  destruct Hx as [->|Hx], Hy as [->|Hy]; auto.
  - exfalso. apply Hnot. rewrite Hf. apply in_map. exact Hy.
  - exfalso. apply Hnot. rewrite <- Hf. apply in_map. exact Hx.
Qed.

Lemma skipn_cons_nth {A : Type} (l : list A) :
  forall (i : nat) (x : A) (r : list A),
    skipn i l = x :: r -> nth_error l i = Some x /\ skipn (S i) l = r.
Proof.
  induction l as [|y l IH]; intros i x r H.
  - destruct i; discriminate.
  - destruct i as [|i]; simpl in *.
    + injection H as -> ->. auto.
    + apply IH. exact H.
Qed.

Lemma score_after_decide (a b : Movie) (x y : R) :
  score_after (a, Fin x) (b, Fin y) = if Rlt_dec x y then true else false.
Proof.
  destruct (Rlt_dec x y) as [H|H].
  - apply score_after_lt. exact H.
  - destruct (score_after (a, Fin x) (b, Fin y)) eqn:E; [|reflexivity].
    apply score_after_lt in E. contradiction.
Qed.

Lemma csv_cosine_vec (a b : list R) :
  List.length a = List.length b ->
  Csv.cosineSimilarity (Some (vec a)) (Some (vec b)) = Ok (Fin (cosine_value a b)).
Proof.
  intros Hlen. rewrite <- cosine_arrays_vec by lia.
  destruct a; reflexivity.
Qed.

Variable movies : list Movie.
Hypothesis movies_nonempty : movies <> [].
Hypothesis movies_plain : plain_vocabulary (buildVocabulary movies).

Lemma matrix_row (i : nat) :
  (i < List.length movies)%nat ->
  nth_error (tfidf_rows movies) i = Some (vec (row movies i)).
Proof.
  intros Hi. rewrite tfidf_rows_plain by assumption.
  rewrite nth_error_map.
  destruct (nth_error movies i) as [m|] eqn:E.
  - simpl. unfold row. rewrite (nth_error_nth _ _ _ E). reflexivity.
  - apply nth_error_None in E. lia.
Qed.

Lemma row_length (i : nat) :
  List.length (row movies i) = List.length (buildVocabulary movies).
Proof. unfold row, weights. apply length_map. Qed.

Lemma similarity_bounds (q i : nat) : -1 <= similarity movies q i <= 1.
Proof.
  apply cosine_value_bounds. rewrite !row_length. lia.
Qed.

Lemma csv_similarities (q : nat) (Hq : (q < List.length movies)%nat)
    (rest : list Movie) :
  forall i : nat,
    rest = skipn i movies ->
    Csv.similarities_from (tfidf_rows movies) q i rest =
    Ok (map (fun j => (nth j movies no_movie, Fin (similarity movies q j)))
            (filter (fun j => negb (j =? q)%nat) (seq i (List.length rest)))).
Proof.
  induction rest as [|m rest IH]; intros i Hrest; [reflexivity|].
  symmetry in Hrest. apply skipn_cons_nth in Hrest as [Hnth Hrest].
  assert (Hi : (i < List.length movies)%nat).
  { apply nth_error_Some. congruence. }
  simpl. rewrite (IH (S i)) by (symmetry; exact Hrest).
  destruct (i =? q)%nat eqn:E; simpl; [reflexivity|].
  rewrite (matrix_row q Hq), (matrix_row i Hi).
  rewrite csv_cosine_vec by (rewrite !row_length; reflexivity).
  rewrite (nth_error_nth _ _ _ Hnth). reflexivity.
Qed.

Lemma top_results_ranking (q : nat) (n : integer) :
  top_results
    (map (fun j => (nth j movies no_movie, Fin (similarity movies q j)))
         (others q (List.length movies))) n =
  map (entry movies q) (slice0 (ranking movies q) n).
Proof.
  unfold top_results. rewrite sort_map, slice0_map, map_map.
  unfold ranking.
  rewrite (sort_ext _ (fun i j => if Rlt_dec (similarity movies q i)
                                              (similarity movies q j)
                                   then true else false))
    by (intros x y; apply score_after_decide).
  apply map_ext. intros i. unfold report, entry. cbn [fst snd].
  rewrite toFixed4_small by apply similarity_bounds. reflexivity.
Qed.

End Ranking.

Section RankingClaims.

Local Open Scope R_scope.

Lemma seq_sorted (n : nat) : forall i, StronglySorted lt (seq i n).
Proof.
  induction n as [|n IH]; intros i; simpl; constructor; auto.
  rewrite Forall_forall. intros j Hj. apply in_seq in Hj. lia.
Qed.

Lemma filter_sorted {A : Type} (R : A -> A -> Prop) (p : A -> bool) (l : list A) :
  StronglySorted R l -> StronglySorted R (filter p l).
Proof.
  induction 1 as [|x l Hs IH Hx]; simpl; [constructor|].
  destruct (p x); [|exact IH].
  constructor; [exact IH|].
  rewrite Forall_forall in *. intros y Hy.
  apply filter_In in Hy as [Hy _]. auto.
Qed.

Lemma others_spec (q n i : nat) :
  In i (others q n) <-> (i < n)%nat /\ i <> q.
Proof.
  unfold others. rewrite filter_In, in_seq, negb_true_iff, Nat.eqb_neq. lia.
Qed.

Lemma ranking_perm (movies : list Movie) (q : nat) :
  Permutation (ranking movies q) (others q (List.length movies)).
Proof. apply sort_perm. Qed.

Lemma ranking_excludes (movies : list Movie) (q : nat) : ~ In q (ranking movies q).
Proof.
  intros H. apply (Permutation_in _ (ranking_perm movies q)) in H.
  apply others_spec in H. lia.
Qed.

Lemma ranking_sorted (movies : list Movie) (q : nat) :
  StronglySorted (ranked_before movies q) (ranking movies q).
Proof.
  unfold ranking.
  set (after := fun i j => if Rlt_dec (similarity movies q i) (similarity movies q j)
                           then true else false).
  apply StronglySorted_impl with (R := may_precede after lt).
  - intros i j [H1 H2]. unfold after, ranked_before in *.
    destruct (Rlt_dec (similarity movies q i) (similarity movies q j));
      [discriminate|].
    destruct (Rlt_dec (similarity movies q j) (similarity movies q i)).
    + left. assumption.
    + right. split; [lra | apply H2; reflexivity].
  - apply sort_sorted.
    + intros x y. unfold after.
      destruct (Rlt_dec (similarity movies q x) (similarity movies q y));
        [|discriminate].
      destruct (Rlt_dec (similarity movies q y) (similarity movies q x));
        [lra | reflexivity].
    + intros x y z. unfold after.
      destruct (Rlt_dec (similarity movies q x) (similarity movies q y));
        [discriminate|].
      destruct (Rlt_dec (similarity movies q y) (similarity movies q z));
        [discriminate|].
      destruct (Rlt_dec (similarity movies q x) (similarity movies q z));
        [lra | reflexivity].
    + unfold others. apply filter_sorted, seq_sorted.
Qed.

Lemma strict_eq_refl (a : integer) : is_number a -> strict_eq a a = true.
Proof. intros [z ->]. apply Z.eqb_refl. Qed.

Lemma strict_eq_eq (a b : integer) : strict_eq a b = true -> a = b /\ is_number b.
Proof.
  destruct a as [x|], b as [y|]; simpl; try discriminate.
  intros H. apply Z.eqb_eq in H. subst y. split; [reflexivity | exists x; reflexivity].
Qed.

Lemma csv_recommend_core (dataset : result (list Movie)) (st : Csv.State)
    (t : string) (n : integer) (movies : list Movie) (input : Movie) :
  coherent st ->
  fst (Csv.loadMovies dataset st) = Ok movies ->
  Csv.findMovieByTitle movies t = Some input ->
  is_number (movie_id input) ->
  plain_vocabulary (buildVocabulary movies) ->
  exists q,
    findIndex (fun m => strict_eq (movie_id m) (movie_id input)) movies = Some q /\
    (q < List.length movies)%nat /\
    In input movies /\
    movie_id (nth q movies no_movie) = movie_id input /\
    fst (Csv.getRecommendations dataset st t n) =
      Ok (map (entry movies q) (slice0 (ranking movies q) n)).
Proof.
  intros Hco Hload Hfound Hnum Hplain.
  assert (Hin : In input movies).
  { unfold Csv.findMovieByTitle in Hfound. apply find_some in Hfound. tauto. }
  assert (Hne : movies <> []) by (destruct movies; [contradiction | discriminate]).
  destruct (findIndex_exists (fun m => strict_eq (movie_id m) (movie_id input))
              movies input Hin (strict_eq_refl _ Hnum)) as (q & Hq).
  destruct (findIndex_some _ _ _ Hq) as (x & Hx & Hid).
  apply strict_eq_eq in Hid as [Hid _].
  assert (Hlt : (q < List.length movies)%nat).
  { apply nth_error_Some. congruence. }
  exists q. repeat split; auto.
  { rewrite (nth_error_nth _ _ _ Hx). exact Hid. }
  unfold Csv.getRecommendations.
  pose proof (csv_load_coherent dataset st Hco) as Hco1.
  destruct (csv_load_ok dataset st movies Hload) as (Hcache & _).
  destruct (Csv.loadMovies dataset st) as [r st1]. simpl in *. subst r.
  destruct movies as [|m0 ms] eqn:Em; [contradiction|]. rewrite <- Em in *.
  replace (List.length movies =? 0)%nat with false
    by (rewrite Em; reflexivity).
  rewrite Hfound.
  destruct (csv_build st1 movies Hco1 Hcache Hne) as (st2 & -> & _).
  rewrite Hq, (matrix_row movies Hne Hplain q Hlt).
  rewrite (csv_similarities movies Hne Hplain q Hlt movies 0 eq_refl).
  cbn [fst]. f_equal.
  apply (top_results_ranking movies q n).
Qed.

(** The ranking in exact arithmetic, on a corpus whose vocabulary has no
    term naming a member of [Object.prototype], for a query movie whose
    identifier is a number and a count that is not negative: the row [q]
    found for the query is left out, at most [top_n] entries are returned,
    they are the first ones of the ranking of all other rows by similarity
    descending and corpus order among equals, and each reported score is
    the similarity rounded to four decimal digits.  (Two scores that exact
    arithmetic makes equal, or nearly so, can come out of the binary64
    arithmetic in either order.) *)
Lemma recommendations_ranked (dataset : result (list Movie)) (st : Csv.State)
    (t : string) (top_n : Z) (movies : list Movie) (input : Movie) :
  Csv.reachable st ->
  fst (Csv.loadMovies dataset st) = Ok movies ->
  Csv.findMovieByTitle movies t = Some input ->
  is_number (movie_id input) ->
  plain_vocabulary (buildVocabulary movies) ->
  (0 <= top_n)%Z ->
  exists q full,
    findIndex (fun m => strict_eq (movie_id m) (movie_id input)) movies = Some q /\
    (NoDup (map movie_id movies) -> nth_error movies q = Some input) /\
    Permutation full (others q (List.length movies)) /\
    ~ In q full /\
    StronglySorted (ranked_before movies q) full /\
    fst (Csv.getRecommendations dataset st t top_n) =
      Ok (map (entry movies q) (firstn (Z.to_nat top_n) full)) /\
    (Z.of_nat (List.length (firstn (Z.to_nat top_n) full)) <= top_n)%Z /\
    (forall i, rounded4 (similarity movies q i) (round4 (similarity movies q i))).
Proof.
  intros Hreach Hload Hfound Hnum Hplain Hn.
  destruct (csv_recommend_core dataset st t top_n movies input
              (csv_reachable_coherent st Hreach) Hload Hfound Hnum Hplain)
    as (q & Hq & Hlt & Hin & Hid & Hout).
  exists q, (ranking movies q).
  split; [exact Hq|]. split.
  { intros Hnd. destruct (nth_error movies q) as [x|] eqn:Ex.
    - f_equal. apply (NoDup_map_same movie_id movies x input Hnd).
      + eapply nth_error_In; eauto.
      + exact Hin.
      + rewrite <- Hid. rewrite (nth_error_nth _ _ _ Ex). reflexivity.
    - apply nth_error_None in Ex. lia. }
  split; [apply ranking_perm|].
  split; [apply ranking_excludes|].
  split; [apply ranking_sorted|].
  split; [rewrite Hout, slice0_nonneg by exact Hn; reflexivity|].
  split; [rewrite length_firstn; lia|].
  intros i. apply round4_rounded.
Qed.

End RankingClaims.

Section NaNScores.

Lemma cosine_loop_NaN (v1 : list number) :
  forall (v2 : list number) (n2 : number),
    exists n2', cosine_loop v1 v2 NaN NaN n2 = (NaN, NaN, n2').
Proof.
  induction v1 as [|x v1 IH]; intros v2 n2; simpl; [eauto|].
  apply IH.
Qed.

Lemma cosine_loop_meets_NaN (v1 : list number) :
  forall (j : nat) (v2 : list number) (d n1 n2 : number),
    nth_error v1 j = Some NaN ->
    exists n2', cosine_loop v1 v2 d n1 n2 = (NaN, NaN, n2').
Proof.
  induction v1 as [|x v1 IH]; intros j v2 d n1 n2 Hj.
  - destruct j; discriminate.
  - destruct j as [|j]; simpl in Hj.
    + injection Hj as ->. simpl. rewrite !add_NaN_r. apply cosine_loop_NaN.
    + simpl. eapply IH. exact Hj.
Qed.

Lemma cosine_arrays_NaN (v1 v2 : list number) (j : nat) :
  nth_error v1 j = Some NaN -> cosine_arrays v1 v2 = NaN.
Proof.
  intros Hj. unfold cosine_arrays.
  destruct (cosine_loop_meets_NaN v1 j v2 (of_nat 0) (of_nat 0) (of_nat 0) Hj)
    as (n2' & ->).
  reflexivity.
Qed.

Lemma csv_cosine_NaN (v1 v2 : list number) (j : nat) :
  nth_error v1 j = Some NaN ->
  Csv.cosineSimilarity (Some v1) (Some v2) = Ok NaN.
Proof.
  intros Hj. unfold Csv.cosineSimilarity.
  destruct v1 as [|x v1]; [destruct j; discriminate|].
  rewrite (cosine_arrays_NaN _ v2 j Hj). reflexivity.
Qed.

Lemma sort_never_after {A : Type} (l : list A) : sort (fun _ _ => false) l = l.
Proof.
  induction l as [|x l IH]; simpl; [reflexivity|].
  rewrite IH. destruct l; reflexivity.
Qed.

Lemma matrix_row_any (movies : list Movie) (i : nat) :
  (i < List.length movies)%nat ->
  nth_error (tfidf_rows movies) i =
  Some (calculateTfIdf (combinedText (nth i movies no_movie))
                       (buildVocabulary movies) (map combinedText movies)).
Proof.
  intros Hi. unfold tfidf_rows. rewrite !nth_error_map.
  destruct (nth_error movies i) as [m|] eqn:E.
  - simpl. rewrite (nth_error_nth _ _ _ E). reflexivity.
  - apply nth_error_None in E. lia.
Qed.

Variable movies : list Movie.
Variables (q j : nat) (w : string).
Hypothesis q_row : (q < List.length movies)%nat.
Hypothesis q_tokens : tokenize (combinedText (nth q movies no_movie)) <> [].
Hypothesis w_term : nth_error (buildVocabulary movies) j = Some w.
Hypothesis w_inherited : inherited w = true.

Lemma csv_similarities_NaN (rest : list Movie) :
  forall i : nat,
    rest = skipn i movies ->
    Csv.similarities_from (tfidf_rows movies) q i rest =
    Ok (map (fun k => (nth k movies no_movie, NaN))
            (filter (fun k => negb (k =? q)%nat) (seq i (List.length rest)))).
Proof.
  induction rest as [|m rest IH]; intros i Hrest; [reflexivity|].
  symmetry in Hrest. apply skipn_cons_nth in Hrest as [Hnth Hrest].
  assert (Hi : (i < List.length movies)%nat).
  { apply nth_error_Some. congruence. }
  simpl. rewrite (IH (S i)) by (symmetry; exact Hrest).
  destruct (i =? q)%nat eqn:E; simpl; [reflexivity|].
  rewrite (matrix_row_any movies q q_row), (matrix_row_any movies i Hi).
  rewrite (csv_cosine_NaN _ _ j)
    by (apply calculateTfIdf_inherited with (w := w); assumption).
  rewrite (nth_error_nth _ _ _ Hnth). reflexivity.
Qed.

Lemma top_results_NaN (n : integer) :
  top_results (map (fun k => (nth k movies no_movie, NaN))
                   (others q (List.length movies))) n =
  map (fun k => mkResult (nth k movies no_movie) NaN)
      (slice0 (others q (List.length movies)) n).
Proof.
  unfold top_results. rewrite sort_map.
  rewrite (sort_ext _ (fun _ _ => false)) by reflexivity.
  rewrite sort_never_after, slice0_map, map_map. reflexivity.
Qed.

(** With such a term in the vocabulary every score is NaN and the sort
    leaves the corpus order. *)
Lemma csv_recommend_NaN (dataset : result (list Movie)) (st : Csv.State)
    (t : string) (n : integer) (input : Movie) :
  coherent st ->
  fst (Csv.loadMovies dataset st) = Ok movies ->
  Csv.findMovieByTitle movies t = Some input ->
  findIndex (fun m => strict_eq (movie_id m) (movie_id input)) movies = Some q ->
  fst (Csv.getRecommendations dataset st t n) =
    Ok (map (fun k => mkResult (nth k movies no_movie) NaN)
            (slice0 (others q (List.length movies)) n)).
Proof.
  intros Hco Hload Hfound Hq.
  assert (Hne : movies <> []).
  { intros E. pose proof q_row as H. rewrite E in H. simpl in H. lia. }
  assert (Hlen : (List.length movies =? 0)%nat = false).
  { apply Nat.eqb_neq. pose proof q_row. lia. }
  unfold Csv.getRecommendations.
  pose proof (csv_load_coherent dataset st Hco) as Hco1.
  destruct (csv_load_ok dataset st movies Hload) as (Hcache & _).
  destruct (Csv.loadMovies dataset st) as [r st1].
  cbn [fst snd] in Hload, Hco1, Hcache. subst r.
  rewrite Hlen, Hfound.
  destruct (csv_build st1 movies Hco1 Hcache Hne) as (st2 & -> & _).
  rewrite Hq, (matrix_row_any movies q q_row).
  rewrite (csv_similarities_NaN movies 0 eq_refl).
  cbn [fst]. f_equal. apply top_results_NaN.
Qed.

End NaNScores.

(** C2 at a corpus whose text has the word "constructor" (the defect shown
    for C1): every similarity is NaN, so the entries come in corpus order,
    "Romance Story" before "The Thief", and the reported scores are NaN
    instead of similarities rounded to four digits. *)
Theorem constructor_corpus_ranking :
  fst (Csv.getRecommendations (Ok constructor_corpus) Csv.initial "Inception" 2)
  = Ok [mkResult romance_story NaN; mkResult the_thief NaN].
Proof.
  rewrite (csv_recommend_NaN constructor_corpus 0 3 "constructor")
    with (input := inception); try reflexivity.
  - simpl. lia.
  - vm_compute. discriminate.
Qed.

(* ------------------------------------------------------------------ *)
(** ** Title resolution *)
(* ------------------------------------------------------------------ *)

Section TitleResolution.

Lemma find_first_with {A : Type} (p : A -> bool) (l : list A) :
  match find p l with
  | Some m => first_with p l m
  | None => none_with p l
  end.
Proof.
  induction l as [|x l IH]; simpl.
  - constructor.
  - destruct (p x) eqn:E.
    + exists [], l. repeat split; auto.
    + destruct (find p l) as [m|].
      * destruct IH as (l1 & l2 & -> & Hm & Hl1).
        exists (x :: l1), l2. repeat split; auto.
      * constructor; assumption.
Qed.

Lemma is_space_lower_char (c : ascii) : is_space (lower_char c) = is_space c.
Proof. destruct c as [[] [] [] [] [] [] [] []]; reflexivity. Qed.

Lemma trimStart_lower (s : string) :
  trimStart (toLowerCase s) = toLowerCase (trimStart s).
Proof.
  induction s as [|c s IH]; simpl; [reflexivity|].
  rewrite is_space_lower_char. destruct (is_space c); [exact IH | reflexivity].
Qed.

Lemma trimEnd_lower (s : string) :
  trimEnd (toLowerCase s) = toLowerCase (trimEnd s).
Proof.
  induction s as [|c s IH]; simpl; [reflexivity|].
  fold (toLowerCase s). rewrite IH, is_space_lower_char.
  destruct (trimEnd s); simpl; [destruct (is_space c)|]; reflexivity.
Qed.

Lemma normalize_lower (s : string) : Grok.normalize s = trim (toLowerCase s).
Proof.
  unfold Grok.normalize, trim. rewrite trimStart_lower, trimEnd_lower. reflexivity.
Qed.

Lemma normalize_same_case (s s' : string) :
  toLowerCase s' = toLowerCase s -> Grok.normalize s' = Grok.normalize s.
Proof. intros H. rewrite !normalize_lower, H. reflexivity. Qed.

(** C4, as stated, fails for a query that is empty after trimming: every
    title contains the empty string, so the rule of the claim gives the
    first item of the corpus, and the code gives none.  The variant of
    [recommendation.ts] has no substring pass at all. *)
Lemma blank_query_resolves_to_nothing :
  Grok.findMovieByTitle sample_corpus "  " = None /\
  resolve_spec sample_corpus "  " = Some inception /\
  Csv.findMovieByTitle sample_corpus "incep" = None /\
  resolve_spec sample_corpus "incep" = Some inception.
Proof. repeat split; reflexivity. Qed.

(** C4 (amended): in [recommendation-grok.ts], title resolution trims and
    lowercases both sides; for a query that is not empty after trimming it
    returns the first item whose normalized title equals the normalized
    query, or else the first item whose normalized title contains it, or
    else nothing; for a query that is empty after trimming it returns
    nothing.  Queries that differ only in letter case resolve alike.  In
    [recommendation.ts] the result is the first item whose lowercased title
    equals the normalized query, or nothing. *)
Theorem title_resolution (movies : list Movie) (query : string) :
  let nq := Grok.normalize query in
  let exact := fun m => String.eqb (Grok.normalize (title m)) nq in
  let partial := fun m => includes (Grok.normalize (title m)) nq in
  match Grok.findMovieByTitle movies query with
  | Some m =>
      nq <> EmptyString /\
      (first_with exact movies m \/
       (none_with exact movies /\ first_with partial movies m))
  | None =>
      nq = EmptyString \/ (none_with exact movies /\ none_with partial movies)
  end /\
  (forall query', toLowerCase query' = toLowerCase query ->
                  Grok.findMovieByTitle movies query' =
                  Grok.findMovieByTitle movies query) /\
  match Csv.findMovieByTitle movies query with
  | Some m => first_with (fun m => String.eqb (toLowerCase (title m)) nq) movies m
  | None => none_with (fun m => String.eqb (toLowerCase (title m)) nq) movies
  end.
Proof.
  intros nq exact partial. split; [|split].
  - unfold Grok.findMovieByTitle. fold nq. fold exact. fold partial.
    destruct nq as [|c nq'] eqn:Enq; simpl; [left; reflexivity|].
    pose proof (find_first_with exact movies) as He.
    pose proof (find_first_with partial movies) as Hp.
    destruct (find exact movies) as [m|].
    + split; [discriminate | left; exact He].
    + destruct (find partial movies) as [m|].
      * split; [discriminate | right; split; assumption].
      * right. split; assumption.
  - intros query' H. unfold Grok.findMovieByTitle.
    rewrite (normalize_same_case query query' H). reflexivity.
  - unfold Csv.findMovieByTitle. apply find_first_with.
Qed.

End TitleResolution.

(* ------------------------------------------------------------------ *)
(** ** The corpus cache of [recommendation-grok.ts] *)
(* ------------------------------------------------------------------ *)

Section GrokCache.

Lemma grok_load_cases (w : Grok.World) (st : Grok.State) :
  Grok.loadMovies w st =
    Grok.store st (Grok.mapi_from Grok.convert 0 (Grok.allMovies w)) (Grok.now w)
  \/ (exists cached, Grok.moviesCache st = Some cached /\
                     Grok.loadMovies w st = (cached, st)).
Proof.
  unfold Grok.loadMovies.
  destruct (Grok.moviesCache st) as [cached|].
  - destruct (Grok.now w - Grok.cacheTimestamp st <? Grok.CACHE_DURATION)%Z.
    + right. eauto.
    + left. destruct (Grok.allMovies w); reflexivity.
  - left. destruct (Grok.allMovies w); reflexivity.
Qed.

Lemma grok_load_cache (w : Grok.World) (st : Grok.State) :
  Grok.moviesCache (snd (Grok.loadMovies w st)) = Some (fst (Grok.loadMovies w st)).
Proof.
  destruct (grok_load_cases w st) as [-> | (cached & Hc & ->)]; [reflexivity|].
  simpl. exact Hc.
Qed.

Lemma grok_load_keeps_matrix (w : Grok.World) (st : Grok.State) :
  Grok.tfidfMatrix (snd (Grok.loadMovies w st)) = Grok.tfidfMatrix st /\
  Grok.vocabulary (snd (Grok.loadMovies w st)) = Grok.vocabulary st.
Proof.
  destruct (grok_load_cases w st) as [-> | (cached & Hc & ->)]; split; reflexivity.
Qed.

Lemma grok_load_ignores_lookup (w : Grok.World) (st : Grok.State)
    (fetch : string -> list Grok.GrokMovie) :
  Grok.loadMovies (Grok.mkWorld (Grok.now w) (Grok.allMovies w) fetch) st =
  Grok.loadMovies w st.
Proof. reflexivity. Qed.

(** C8: building a matrix for an empty corpus throws the empty-dataset
    error and leaves the state alone; and when the corpus that
    [loadMovies] returns is empty, [getRecommendations] throws the
    empty-dataset error straight after loading: the state is the one
    loading left, the cached matrix and vocabulary are those from before
    the call, and neither the title, the count nor the external lookup has
    any influence. *)
Theorem empty_corpus_fails_fast (w : Grok.World) (st : Grok.State)
    (movieTitle : string) (n : integer)
    (Hempty : Grok.items (fst (Grok.loadMovies w st)) = []) :
  (forall st' arr, Grok.items arr = [] ->
     exists msg, Grok.buildTfIdfMatrix st' arr = (Throw msg, st') /\
                 Grok.EmptyCorpus msg) /\
  (exists msg,
     Grok.getRecommendations w st movieTitle n =
       (Throw msg, snd (Grok.loadMovies w st)) /\
     Grok.EmptyCorpus msg) /\
  Grok.tfidfMatrix (snd (Grok.getRecommendations w st movieTitle n)) =
    Grok.tfidfMatrix st /\
  Grok.vocabulary (snd (Grok.getRecommendations w st movieTitle n)) =
    Grok.vocabulary st /\
  (forall movieTitle' n' fetch,
     Grok.getRecommendations
       (Grok.mkWorld (Grok.now w) (Grok.allMovies w) fetch) st movieTitle' n' =
     Grok.getRecommendations w st movieTitle n).
Proof.
  assert (Hrec : forall w' t' n',
            Grok.loadMovies w' st = Grok.loadMovies w st ->
            Grok.getRecommendations w' st t' n' =
            (Throw Grok.msg_empty_recommend, snd (Grok.loadMovies w st))).
  { intros w' t' n' Hw. unfold Grok.getRecommendations. rewrite Hw.
    destruct (Grok.loadMovies w st) as [movies st1]. simpl in Hempty.
    rewrite Hempty. reflexivity. }
  split; [|split; [|split; [|split]]].
  - intros st' arr Harr. exists Grok.msg_empty_build.
    unfold Grok.buildTfIdfMatrix. rewrite Harr. split; [reflexivity|].
    right. reflexivity.
  - exists Grok.msg_empty_recommend. split; [apply Hrec; reflexivity|].
    left. reflexivity.
  - rewrite Hrec by reflexivity. apply grok_load_keeps_matrix.
  - rewrite Hrec by reflexivity. apply grok_load_keeps_matrix.
  - intros t' n' fetch.
    rewrite (Hrec w movieTitle n eq_refl).
    apply Hrec. apply grok_load_ignores_lookup.
Qed.

Lemma empty_corpus_fails_fast_witness :
  Grok.items (fst (Grok.loadMovies empty_world Grok.initial)) = [] /\
  exists msg,
    Grok.getRecommendations empty_world Grok.initial "Inception" 5 =
      (Throw msg, snd (Grok.loadMovies empty_world Grok.initial)) /\
    Grok.EmptyCorpus msg.
Proof.
  split; [reflexivity|].
  apply (empty_corpus_fails_fast empty_world Grok.initial "Inception" 5).
  reflexivity.
Defined.

End GrokCache.

Section Identifiers.

Lemma grok_build_cache (st : Grok.State) (movies : Grok.Arr) :
  Grok.moviesCache (snd (Grok.buildTfIdfMatrix st movies)) = Grok.moviesCache st.
Proof.
  unfold Grok.buildTfIdfMatrix.
  destruct (List.length (Grok.items movies) =? 0)%nat; [reflexivity|].
  destruct (Grok.tfidfMatrix st), (Grok.vocabulary st); try reflexivity.
  destruct (Grok.moviesCache st) as [cached|] eqn:E; [|simpl; congruence].
  destruct (_ && _); simpl; congruence.
Qed.

(** What a call of [getRecommendations] leaves in the cache: the loaded
    array, perhaps with one item pushed, whose identifier is the new
    length. *)
Lemma grok_recommend_cache (w : Grok.World) (st : Grok.State) (t : string) (n : integer) :
  let loaded := fst (Grok.loadMovies w st) in
  exists l,
    Grok.moviesCache (snd (Grok.getRecommendations w st t n)) =
      Some (Grok.mkArr (Grok.ref loaded) l) /\
    (l = Grok.items loaded \/
     exists m, l = (Grok.items loaded ++ [m])%list /\
               movie_id m = Int (Z.of_nat (List.length (Grok.items loaded)) + 1)).
Proof.
  intros loaded. unfold Grok.getRecommendations.
  pose proof (grok_load_cache w st) as Hc. fold loaded in Hc.
  destruct (Grok.loadMovies w st) as [movies st1]. simpl in *. subst loaded.
  assert (Hsame : Some movies = Some (Grok.mkArr (Grok.ref movies) (Grok.items movies)))
    by (destruct movies; reflexivity).
  destruct (List.length (Grok.items movies) =? 0)%nat.
  { exists (Grok.items movies). simpl. rewrite Hc. auto. }
  destruct (Grok.findMovieByTitle (Grok.items movies) t) as [m|].
  - exists (Grok.items movies). split; [|auto].
    pose proof (grok_build_cache st1 movies) as Hb.
    destruct (Grok.buildTfIdfMatrix st1 movies) as [[[matrix vocab]|msg] st3];
      simpl in *.
    + destruct (findIndex _ _); simpl; congruence.
    + congruence.
  - destruct (Grok.searchMovieInGrok w t) as [g|].
    + eexists. split.
      * match goal with
        | |- context [Grok.buildTfIdfMatrix ?s ?a] =>
            pose proof (grok_build_cache s a) as Hb;
            destruct (Grok.buildTfIdfMatrix s a) as [[[matrix vocab]|msg] st3]
        end; simpl in *; [destruct (findIndex _ _); simpl|]; exact Hb.
      * right. eexists. split; reflexivity.
    + exists (Grok.items movies). simpl. rewrite Hc. auto.
Qed.

Lemma mapi_ids (l : list Grok.GrokMovie) :
  forall i : nat,
    (forall k g, nth_error l k = Some g ->
       Grok.g_movie_id g = None \/ Grok.g_movie_id g = Some 0%Z \/
       Grok.g_movie_id g = Some (Z.of_nat (i + k) + 1)%Z) ->
    map movie_id (Grok.mapi_from Grok.convert i l) =
    map (fun j => Int (Z.of_nat j + 1)) (seq i (List.length l)).
Proof.
  induction l as [|g l IH]; intros i H; simpl; [reflexivity|].
  f_equal.
  - destruct (H 0%nat g eq_refl) as [E|[E|E]]; rewrite E; simpl;
      rewrite ?Nat.add_0_r; try reflexivity.
    destruct (Z.of_nat i + 1 =? 0)%Z; reflexivity.
  - apply IH. intros k g' Hk.
    replace (S i + k)%nat with (i + S k)%nat by lia.
    apply (H (S k) g'). exact Hk.
Qed.

Lemma ids_in_order_push (l : list Movie) (m : Movie) :
  ids_in_order l -> movie_id m = Int (Z.of_nat (List.length l) + 1) ->
  ids_in_order (l ++ [m]).
Proof.
  unfold ids_in_order. intros Hl Hm.
  rewrite map_app, length_app, Hl. simpl.
  rewrite seq_app, map_app. simpl. rewrite Hm. reflexivity.
Qed.

Lemma ids_in_order_NoDup (l : list Movie) :
  ids_in_order l -> NoDup (map movie_id l).
Proof.
  unfold ids_in_order. intros ->.
  apply Injective_map_NoDup; [|apply seq_NoDup].
  intros x y H. injection H as H. lia.
Qed.

Lemma grok_load_in_order (w : Grok.World) (st : Grok.State) :
  positional_world w -> cache_in_order st ->
  cache_in_order (snd (Grok.loadMovies w st)).
Proof.
  intros Hw Hst arr.
  destruct (grok_load_cases w st) as [-> | (cached & Hc & ->)].
  - simpl. intros [= <-]. simpl. unfold ids_in_order.
    rewrite mapi_ids.
    + f_equal. f_equal. clear. generalize 0%nat.
      induction (Grok.allMovies w); intros i; simpl; [reflexivity|].
      f_equal. apply IHl.
    + intros k g Hk. apply (Hw k g Hk).
  - simpl. apply Hst.
Qed.

Lemma grok_reachable_in_order (st : Grok.State) :
  Grok.reachable positional_world st -> cache_in_order st.
Proof.
  induction 1 as [|w st _ IH Hw|w st t n _ IH Hw|w st i _ IH Hw|w st g _ IH Hw].
  - intros arr. discriminate.
  - apply grok_load_in_order; assumption.
  - pose proof (grok_load_in_order w st Hw IH) as Hl.
    pose proof (grok_load_cache w st) as Hc.
    destruct (grok_recommend_cache w st t n) as (l & Hl' & Hcase).
    intros arr Harr. rewrite Hl' in Harr. injection Harr as <-. simpl.
    specialize (Hl _ Hc).
    destruct Hcase as [->|(m & -> & Hm)]; [exact Hl|].
    apply ids_in_order_push; assumption.
  - unfold Grok.getMoviesByIndustry.
    pose proof (grok_load_in_order w st Hw IH) as Hl.
    destruct (Grok.loadMovies w st). exact Hl.
  - unfold Grok.getMoviesByGenre.
    pose proof (grok_load_in_order w st Hw IH) as Hl.
    destruct (Grok.loadMovies w st). exact Hl.
Qed.

(** On a data source that sends its items without identifiers (or with
    their positions counted from 1), every corpus reachable through the
    loads and the appends has the identifiers 1, 2, ... in order, so that
    no two items share one. *)
Lemma positional_ids_stay_unique (st : Grok.State)
    (Hreach : Grok.reachable positional_world st) :
  forall arr, Grok.moviesCache st = Some arr ->
    ids_in_order (Grok.items arr) /\ NoDup (map movie_id (Grok.items arr)).
Proof.
  intros arr Harr.
  pose proof (grok_reachable_in_order st Hreach arr Harr) as H.
  split; [exact H | apply ids_in_order_NoDup; exact H].
Qed.

Lemma NoDup_snoc {A : Type} (l : list A) (x : A) :
  NoDup (l ++ [x]) <-> NoDup l /\ ~ In x l.
Proof.
  split.
  - intros H. apply NoDup_remove in H. rewrite app_nil_r in H. exact H.
  - intros [H1 H2]. apply (proj2 (NoDup_Add (Add_app x l []))).
    rewrite app_nil_r. split; assumption.
Qed.

(** The identifiers after an append: those of the loaded corpus, followed
    by its length plus one, whether or not a loaded item has that
    identifier already. *)
Lemma append_picks_the_length (w : Grok.World) (st : Grok.State) (t : string)
    (n : integer) (g : Grok.GrokMovie) :
  let loaded := Grok.items (fst (Grok.loadMovies w st)) in
  loaded <> [] ->
  Grok.findMovieByTitle loaded t = None ->
  Grok.searchMovieInGrok w t = Some g ->
  exists arr,
    Grok.moviesCache (snd (Grok.getRecommendations w st t n)) = Some arr /\
    map movie_id (Grok.items arr) =
      (map movie_id loaded ++ [Int (Z.of_nat (List.length loaded) + 1)])%list /\
    (NoDup (map movie_id (Grok.items arr)) <->
     NoDup (map movie_id loaded) /\
     ~ In (Int (Z.of_nat (List.length loaded) + 1)) (map movie_id loaded)).
Proof.
  intros loaded Hne Hmiss Hhit.
  destruct (grok_recommend_cache w st t n) as (l & Hl & Hcase).
  fold loaded in Hcase.
  assert (Hgrown : exists m, l = (loaded ++ [m])%list /\
             movie_id m = Int (Z.of_nat (List.length loaded) + 1)).
  { destruct Hcase as [E|H]; [|exact H]. exfalso.
    revert Hl. unfold Grok.getRecommendations. subst loaded.
    destruct (Grok.loadMovies w st) as [movies st1]. cbn [fst snd] in *.
    destruct (List.length (Grok.items movies) =? 0)%nat eqn:El.
    { apply Nat.eqb_eq in El.
      destruct (Grok.items movies); [contradiction | discriminate]. }
    rewrite Hmiss, Hhit.
    match goal with
    | |- context [Grok.buildTfIdfMatrix ?s ?a] =>
        pose proof (grok_build_cache s a) as Hb;
        destruct (Grok.buildTfIdfMatrix s a) as [[[matrix vocab]|msg] st3]
    end; cbn [fst snd Grok.moviesCache] in Hb.
    - destruct (findIndex _ _); cbn [snd]; rewrite Hb; intros [= H];
        rewrite E in H; apply (f_equal (@List.length Movie)) in H;
        rewrite length_app in H; simpl in H; lia.
    - cbn [snd]. rewrite Hb. intros [= H].
      rewrite E in H. apply (f_equal (@List.length Movie)) in H.
      rewrite length_app in H. simpl in H. lia. }
  destruct Hgrown as (m & -> & Hm).
  eexists. split; [exact Hl|]. cbn [Grok.items].
  rewrite map_app. cbn [map]. rewrite Hm.
  split; [reflexivity | apply NoDup_snoc].
Qed.

(** C10 at a data source whose two items carry the distinct identifiers 1
    and 3: the corpus is loaded with these, and the item appended after
    the external lookup of "Beta" gets the new length, 3, which the second
    item has already. *)
Theorem append_reuses_an_id :
  let loaded := snd (Grok.loadMovies gap_world Grok.initial) in
  let grown := snd (Grok.getRecommendations gap_world loaded "Beta" 5) in
  Grok.reachable any_world grown /\
  (exists arr, Grok.moviesCache loaded = Some arr /\
               map movie_id (Grok.items arr) = [Int 1; Int 3] /\
               NoDup (map movie_id (Grok.items arr))) /\
  (exists arr, Grok.moviesCache grown = Some arr /\
               map title (Grok.items arr) = ["Alpha"; "Gamma"; "Beta"] /\
               map movie_id (Grok.items arr) = [Int 1; Int 3; Int 3] /\
               ~ NoDup (map movie_id (Grok.items arr))).
Proof.
  cbv zeta. split; [|split].
  - apply Grok.reach_recommend; [|exact I].
    apply Grok.reach_load; [constructor | exact I].
  - eexists. split; [reflexivity|]. split; [reflexivity|].
    cbn. repeat constructor; cbn; intuition discriminate.
  - eexists. split; [reflexivity|]. split; [reflexivity|]. split; [reflexivity|].
    cbn. intros H. inversion H as [|? ? _ H']; subst.
    inversion H' as [|? ? Hn _]; subst. apply Hn. left. reflexivity.
Qed.

End Identifiers.

(* ------------------------------------------------------------------ *)
(** ** Reuse of the cached matrix *)
(* ------------------------------------------------------------------ *)

Section MatrixReuse.

Lemma calculateTfIdf_length (doc : string) (vocab docs : list string) :
  List.length (calculateTfIdf doc vocab docs) = List.length vocab.
Proof.
  unfold calculateTfIdf.
  destruct (List.length (tokenize doc) =? 0)%nat; apply length_map.
Qed.

Lemma tfidf_rows_widths (movies : list Movie) :
  map (@List.length number) (tfidf_rows movies) =
  map (fun _ => List.length (buildVocabulary movies)) movies.
Proof.
  unfold tfidf_rows. rewrite !map_map. apply map_ext.
  intros m. apply calculateTfIdf_length.
Qed.

(** When the cached matrix is handed out again. *)
Lemma grok_build_reuses (st : Grok.State) (movies cached : Grok.Arr)
    (matrix : list (list number)) (vocab : list string) :
  Grok.items movies <> [] ->
  Grok.tfidfMatrix st = Some matrix -> Grok.vocabulary st = Some vocab ->
  Grok.moviesCache st = Some cached -> Grok.ref cached = Grok.ref movies ->
  List.length matrix = List.length (Grok.items movies) ->
  Grok.buildTfIdfMatrix st movies = (Ok (matrix, vocab), st).
Proof.
  intros Hne Hm Hv Hc Href Hlen. unfold Grok.buildTfIdfMatrix.
  destruct (Grok.items movies) as [|m ms] eqn:E; [contradiction|].
  change (List.length (m :: ms) =? 0)%nat with false. cbv iota.
  rewrite Hm, Hv, Hc, Href, Hlen, !Nat.eqb_refl. reflexivity.
Qed.

(** The append path does invalidate: after a push the matrix is built
    anew, from the corpus with the pushed item. *)
Lemma grok_build_after_push (st : Grok.State) (movies : Grok.Arr) :
  Grok.items movies <> [] -> Grok.tfidfMatrix st = None ->
  fst (Grok.buildTfIdfMatrix st movies) =
    Ok (tfidf_rows (Grok.items movies), buildVocabulary (Grok.items movies)).
Proof.
  intros Hne Hm. unfold Grok.buildTfIdfMatrix.
  destruct (Grok.items movies) as [|m ms] eqn:E; [contradiction|].
  change (List.length (m :: ms) =? 0)%nat with false. cbv iota.
  rewrite Hm. reflexivity.
Qed.

(** C5 at a reload: the data source answers [Alpha] first and, after the
    hour of the cache has passed, [Beta].  The second load replaces the
    corpus by a new array of the same length and leaves the matrix in
    place, and the build call that follows hands out the matrix that was
    built from the first corpus, which is not the matrix of the corpus it
    is called with. *)
Theorem stale_matrix_after_reload :
  let st1 := snd (Grok.getRecommendations world_one Grok.initial "Alpha" 5) in
  let loaded := Grok.loadMovies world_two st1 in
  let st2 := snd (Grok.getRecommendations world_two st1 "Beta" 5) in
  Grok.moviesCache st1 = Some (Grok.mkArr 0 [alpha]) /\
  Grok.tfidfMatrix st1 = Some (tfidf_rows [alpha]) /\
  fst loaded = Grok.mkArr 1 [beta] /\
  fst (Grok.buildTfIdfMatrix (snd loaded) (fst loaded)) =
    Ok (tfidf_rows [alpha], buildVocabulary [alpha]) /\
  Grok.moviesCache st2 = Some (Grok.mkArr 1 [beta]) /\
  Grok.tfidfMatrix st2 = Some (tfidf_rows [alpha]) /\
  tfidf_rows [alpha] <> tfidf_rows [beta].
Proof.
  cbv zeta.
  assert (H1 : snd (Grok.getRecommendations world_one Grok.initial "Alpha" 5) =
               Grok.mkState (Some (Grok.mkArr 0 [alpha]))
                            (Some (tfidf_rows [alpha]))
                            (Some (buildVocabulary [alpha])) 1000 1)
    by reflexivity.
  rewrite H1.
  assert (H2 : Grok.loadMovies world_two
                 (Grok.mkState (Some (Grok.mkArr 0 [alpha]))
                               (Some (tfidf_rows [alpha]))
                               (Some (buildVocabulary [alpha])) 1000 1) =
               (Grok.mkArr 1 [beta],
                Grok.mkState (Some (Grok.mkArr 1 [beta]))
                             (Some (tfidf_rows [alpha]))
                             (Some (buildVocabulary [alpha])) 3601000 2))
    by reflexivity.
  assert (H3 : Grok.buildTfIdfMatrix
                 (Grok.mkState (Some (Grok.mkArr 1 [beta]))
                               (Some (tfidf_rows [alpha]))
                               (Some (buildVocabulary [alpha])) 3601000 2)
                 (Grok.mkArr 1 [beta]) =
               (Ok (tfidf_rows [alpha], buildVocabulary [alpha]),
                Grok.mkState (Some (Grok.mkArr 1 [beta]))
                             (Some (tfidf_rows [alpha]))
                             (Some (buildVocabulary [alpha])) 3601000 2)).
  { apply grok_build_reuses with (cached := Grok.mkArr 1 [beta]);
      try reflexivity. discriminate. }
  split; [reflexivity|]. split; [reflexivity|].
  rewrite H2. split; [reflexivity|].
  split; [cbn [fst snd]; rewrite H3; reflexivity|].
  assert (H4 : snd (Grok.getRecommendations world_two
                 (Grok.mkState (Some (Grok.mkArr 0 [alpha]))
                               (Some (tfidf_rows [alpha]))
                               (Some (buildVocabulary [alpha])) 1000 1)
                 "Beta" 5) =
               Grok.mkState (Some (Grok.mkArr 1 [beta]))
                            (Some (tfidf_rows [alpha]))
                            (Some (buildVocabulary [alpha])) 3601000 2).
  { unfold Grok.getRecommendations. rewrite H2.
    change (List.length (Grok.items (Grok.mkArr 1 [beta])) =? 0)%nat with false.
    cbv iota.
    change (Grok.findMovieByTitle (Grok.items (Grok.mkArr 1 [beta])) "Beta")
      with (Some beta).
    cbv iota. rewrite H3.
    change (Grok.items (Grok.mkArr 1 [beta])) with [beta].
    change (findIndex _ [beta]) with (Some 0%nat).
    reflexivity. }
  rewrite H4. split; [reflexivity|]. split; [reflexivity|].
  intros E. apply (f_equal (map (@List.length number))) in E.
  rewrite !tfidf_rows_widths in E. vm_compute in E. discriminate.
Qed.

End MatrixReuse.

(* ------------------------------------------------------------------ *)
(** ** More on the tokenizer *)
(* ------------------------------------------------------------------ *)

Section TokenizerExtras.

Lemma map_string_app (f : ascii -> ascii) (a b : string) :
  map_string f (a ++ b) = (map_string f a ++ map_string f b)%string.
Proof.
  induction a as [|c a IH]; simpl; [reflexivity|]. rewrite IH. reflexivity.
Qed.

Lemma pieces_nonempty (s : string) : pieces s <> [].
Proof.
  destruct s as [|c s]; simpl; [discriminate|].
  destruct (is_space c); [discriminate|].
  destruct (pieces s); discriminate.
Qed.

Lemma pieces_app_space (a b : string) :
  pieces (a ++ String space b) = (pieces a ++ pieces b)%list.
Proof.
  induction a as [|c a IH]; simpl; [reflexivity|].
  rewrite IH. destruct (is_space c); [reflexivity|].
  pose proof (pieces_nonempty a) as Hne.
  destruct (pieces a); [contradiction | reflexivity].
Qed.

Lemma tokenize_pieces (s : string) :
  tokenize s = filter long (pieces (strip_punct (toLowerCase s))).
Proof. unfold tokenize. apply filter_split_ws. Qed.

Lemma tokenize_app_space (a b : string) :
  tokenize (a ++ String space b) = (tokenize a ++ tokenize b)%list.
Proof.
  rewrite !tokenize_pieces. unfold toLowerCase, strip_punct.
  rewrite !map_string_app. simpl map_string.
  change (lower_char space) with space.
  change (if is_word space || is_space space then space else space) with space.
  rewrite pieces_app_space. apply filter_app.
Qed.

(** X1: the tokens of two texts joined by a space are the tokens of the
    first followed by the tokens of the second; so the tokens of a movie
    are those of its title, then of its genre, then of its overview. *)
Theorem tokenize_joined (a b : string) (m : Movie) :
  tokenize (a ++ " " ++ b) = (tokenize a ++ tokenize b)%list /\
  tokenize (combinedText m) =
    (tokenize (title m) ++ tokenize (genre m) ++ tokenize (overview m))%list.
Proof.
  split; [apply tokenize_app_space|].
  change (combinedText m)
    with (title m ++ String space (genre m ++ String space (overview m)))%string.
  rewrite (tokenize_app_space (title m)), (tokenize_app_space (genre m)).
  reflexivity.
Qed.

Lemma token_char_fixed (c : ascii) :
  token_char c = true ->
  lower_char c = c /\ is_word c = true /\ is_space c = false.
Proof.
  destruct c as [[] [] [] [] [] [] [] []]; vm_compute; intros H;
    try discriminate H; repeat split.
Qed.

Lemma map_string_fixed (f : ascii -> ascii) (p : ascii -> bool) (w : string) :
  (forall c, p c = true -> f c = c) ->
  forallb_string p w = true -> map_string f w = w.
Proof.
  intros Hf. induction w as [|c w IH]; intros H; [reflexivity|].
  cbn [forallb_string] in H. apply andb_true_iff in H as [Hc Hw].
  cbn [map_string]. rewrite (Hf c Hc), (IH Hw). reflexivity.
Qed.

Lemma pieces_word (w : string) :
  forallb_string token_char w = true -> pieces w = [w].
Proof.
  induction w as [|c w IH]; intros H; [reflexivity|].
  cbn [forallb_string] in H. apply andb_true_iff in H as [Hc Hw].
  destruct (token_char_fixed c Hc) as (_ & _ & Hsp).
  cbn [pieces]. rewrite Hsp, (IH Hw). reflexivity.
Qed.

Lemma token_word_fixed (w : string) :
  forallb_string token_char w = true ->
  strip_punct (toLowerCase w) = w.
Proof.
  intros H. unfold toLowerCase, strip_punct.
  rewrite (map_string_fixed lower_char token_char w);
    [|intros c Hc; apply (token_char_fixed c Hc) | exact H].
  apply (map_string_fixed _ token_char w); [|exact H].
  intros c Hc. destruct (token_char_fixed c Hc) as (_ & -> & _). reflexivity.
Qed.

Lemma tokenize_one_token (w : string) :
  forallb_string token_char w = true -> (2 < String.length w)%nat ->
  tokenize w = [w].
Proof.
  intros Hw Hlen. rewrite tokenize_pieces.
  rewrite (token_word_fixed w Hw), (pieces_word w Hw). simpl.
  unfold long. apply Nat.ltb_lt in Hlen. rewrite Hlen. reflexivity.
Qed.

Lemma tokenize_concat (l : list string) :
  Forall (fun w => (2 < String.length w)%nat /\
                   forallb_string token_char w = true) l ->
  tokenize (String.concat " " l) = l.
Proof.
  induction l as [|w l IH]; intros H; [reflexivity|].
  inversion H as [|? ? [Hlen Hw] Hl]; subst.
  destruct l as [|w' l'].
  - simpl. apply tokenize_one_token; assumption.
  - change (String.concat " " (w :: w' :: l'))
      with (w ++ String space (String.concat " " (w' :: l')))%string.
    rewrite tokenize_app_space, (IH Hl), tokenize_one_token by assumption.
    reflexivity.
Qed.

(** X2: joining the tokens of a text with spaces and tokenizing again
    gives the same tokens: tokenized text is a fixed point. *)
Theorem tokenize_round_trip (text : string) :
  tokenize (String.concat " " (tokenize text)) = tokenize text.
Proof. apply tokenize_concat. apply tokenize_tokens. Qed.

End TokenizerExtras.

(* ------------------------------------------------------------------ *)
(** ** The vocabulary *)
(* ------------------------------------------------------------------ *)

Section VocabularyExtras.

Lemma set_add_In (s : list string) (x y : string) :
  In x (set_add s y) <-> In x s \/ x = y.
Proof.
  unfold set_add. destruct (existsb (String.eqb y) s) eqn:E.
  - split; [auto|]. intros [H | ->]; [exact H|].
    apply existsb_exists in E as (z & Hz & Ez).
    apply String.eqb_eq in Ez. subst z. exact Hz.
  - rewrite in_app_iff. simpl. intuition.
Qed.

Lemma set_add_NoDup (s : list string) (y : string) :
  NoDup s -> NoDup (set_add s y).
Proof.
  intros Hs. unfold set_add. destruct (existsb (String.eqb y) s) eqn:E; [exact Hs|].
  apply NoDup_app; [exact Hs | repeat constructor; intros [] |].
  intros x Hx [E' | []]. subst x.
  assert (existsb (String.eqb y) s = true); [|congruence].
  apply existsb_exists. exists y. split; [exact Hx | apply String.eqb_refl].
Qed.

Lemma fold_set_add (l : list string) :
  forall s : list string,
    (forall x, In x (fold_left set_add l s) <-> In x s \/ In x l) /\
    (NoDup s -> NoDup (fold_left set_add l s)).
Proof.
  induction l as [|y l IH]; intros s; simpl.
  - split; [intuition | auto].
  - destruct (IH (set_add s y)) as [IH1 IH2]. split.
    + intros x. rewrite IH1, set_add_In. intuition.
    + intros Hs. apply IH2, set_add_NoDup, Hs.
Qed.

Lemma vocab_set (movies : list Movie) :
  forall s : list string,
    let vs := fold_left
                (fun set m => fold_left set_add (tokenize (combinedText m)) set)
                movies s in
    (forall x, In x vs <->
               In x s \/ exists m, In m movies /\ In x (tokenize (combinedText m))) /\
    (NoDup s -> NoDup vs).
Proof.
  induction movies as [|m movies IH]; intros s; simpl.
  - split; [|auto]. intros x. split; [auto|].
    intros [H | (m & [] & _)]. exact H.
  - destruct (IH (fold_left set_add (tokenize (combinedText m)) s)) as [IH1 IH2].
    destruct (fold_set_add (tokenize (combinedText m)) s) as [F1 F2].
    split.
    + intros x. rewrite IH1, F1. split.
      * intros [[H | H] | (m' & Hm' & Hx)]; eauto.
      * intros [H | (m' & [<- | Hm'] & Hx)]; eauto.
    + intros Hs. apply IH2, F2, Hs.
Qed.

Lemma string_compare_trans (a : string) :
  forall b c : string,
    String.compare a b = Lt -> String.compare b c = Lt -> String.compare a c = Lt.
Proof.
  induction a as [|x a IH]; intros [|y b] [|z c]; simpl; try discriminate; auto.
  unfold Ascii.compare.
  destruct (N.compare_spec (N_of_ascii x) (N_of_ascii y)) as [E1|L1|G1];
    try discriminate;
    destruct (N.compare_spec (N_of_ascii y) (N_of_ascii z)) as [E2|L2|G2];
    try discriminate;
    destruct (N.compare_spec (N_of_ascii x) (N_of_ascii z)) as [E3|L3|G3];
    try lia; auto.
  apply IH.
Qed.

Lemma string_ltb_total (a b : string) :
  String.ltb a b = false -> String.ltb b a = false -> a = b.
Proof.
  unfold String.ltb. rewrite (String.compare_antisym a b).
  destruct (String.compare b a) eqn:E; simpl; try discriminate.
  intros _ _. symmetry. apply String.compare_eq_iff. exact E.
Qed.

Lemma string_ltb_asym (a b : string) :
  String.ltb a b = true -> String.ltb b a = false.
Proof.
  unfold String.ltb. rewrite (String.compare_antisym a b).
  destruct (String.compare b a); simpl; try discriminate; reflexivity.
Qed.

Lemma string_ltb_trans (a b c : string) :
  String.ltb a b = true -> String.ltb b c = true -> String.ltb a c = true.
Proof.
  unfold String.ltb.
  destruct (String.compare a b) eqn:E1; try discriminate.
  destruct (String.compare b c) eqn:E2; try discriminate.
  rewrite (string_compare_trans a b c E1 E2). reflexivity.
Qed.

Lemma string_after_negtrans (x y z : string) :
  String.ltb y x = false -> String.ltb z y = false -> String.ltb z x = false.
Proof.
  intros H1 H2. destruct (String.ltb z x) eqn:E; [|reflexivity].
  destruct (String.ltb x y) eqn:Exy.
  - rewrite (string_ltb_trans z x y E Exy) in H2. discriminate.
  - rewrite <- (string_ltb_total x y Exy H1) in H2. congruence.
Qed.

Lemma NoDup_distinct (l : list string) :
  NoDup l -> StronglySorted (fun a b => a <> b) l.
Proof.
  induction 1 as [|x l Hx Hl IH]; constructor; auto.
  rewrite Forall_forall. intros y Hy ->. contradiction.
Qed.

(** X3: the vocabulary holds exactly the tokens of the movies' texts, in
    strictly ascending order of code units, each one once; for an empty
    corpus it is empty. *)
Theorem vocabulary_sorted_set (movies : list Movie) :
  (forall w, In w (buildVocabulary movies) <->
             exists m, In m movies /\ In w (tokenize (combinedText m))) /\
  StronglySorted (fun a b => String.ltb a b = true) (buildVocabulary movies) /\
  NoDup (buildVocabulary movies) /\
  buildVocabulary [] = [].
Proof.
  destruct (vocab_set movies []) as [Hin Hnd]. cbv zeta in Hin, Hnd.
  specialize (Hnd (NoDup_nil _)).
  unfold buildVocabulary, sort_strings.
  set (vs := fold_left _ movies []) in *.
  pose proof (sort_perm (fun x y => String.ltb y x) vs) as Hperm.
  split; [|split; [|split]].
  - intros w. split.
    + intros H. apply (Permutation_in _ Hperm) in H. apply Hin in H.
      destruct H as [[]|H]. exact H.
    + intros H. apply (Permutation_in _ (Permutation_sym Hperm)).
      apply Hin. right. exact H.
  - apply StronglySorted_impl
      with (R := may_precede (fun x y => String.ltb y x) (fun a b => a <> b)).
    + intros x y [H1 H2]. cbv beta in H1, H2.
      destruct (String.ltb x y) eqn:E; [reflexivity|].
      exfalso. apply (H2 eq_refl). apply string_ltb_total; assumption.
    + apply sort_sorted.
      * intros x y. apply string_ltb_asym.
      * intros x y z. apply string_after_negtrans.
      * apply NoDup_distinct. exact Hnd.
  - eapply Permutation_NoDup; [symmetry; exact Hperm | exact Hnd].
  - reflexivity.
Qed.

End VocabularyExtras.

(* ------------------------------------------------------------------ *)
(** ** The matrix: shape, caching, weights *)
(* ------------------------------------------------------------------ *)

Section MatrixExtras.

Local Open Scope R_scope.

Lemma tfidf_rows_shape (movies : list Movie) :
  List.length (tfidf_rows movies) = List.length movies /\
  Forall (fun r => List.length r = List.length (buildVocabulary movies))
         (tfidf_rows movies).
Proof.
  split.
  - unfold tfidf_rows. rewrite !length_map. reflexivity.
  - apply Forall_forall. intros r Hr. unfold tfidf_rows in Hr.
    apply in_map_iff in Hr as (doc & <- & _). apply calculateTfIdf_length.
Qed.

(** X4: with no matrix cached, [buildTfIdfMatrix] on the cached, non-empty
    array returns one row per movie and one column per vocabulary term and
    stores both; building again for the same array returns the same pair
    and leaves the state as it is. *)
Theorem build_then_reuse (st : Grok.State) (movies : Grok.Arr)
    (Hne : Grok.items movies <> [])
    (Hcache : Grok.moviesCache st = Some movies)
    (Hnone : Grok.tfidfMatrix st = None) :
  exists matrix vocab st',
    Grok.buildTfIdfMatrix st movies = (Ok (matrix, vocab), st') /\
    vocab = buildVocabulary (Grok.items movies) /\
    List.length matrix = List.length (Grok.items movies) /\
    Forall (fun r => List.length r = List.length vocab) matrix /\
    Grok.tfidfMatrix st' = Some matrix /\ Grok.vocabulary st' = Some vocab /\
    Grok.buildTfIdfMatrix st' movies = (Ok (matrix, vocab), st').
Proof.
  destruct (tfidf_rows_shape (Grok.items movies)) as [Hlen Hrows].
  exists (tfidf_rows (Grok.items movies)), (buildVocabulary (Grok.items movies)).
  exists (Grok.mkState (Grok.moviesCache st)
                       (Some (tfidf_rows (Grok.items movies)))
                       (Some (buildVocabulary (Grok.items movies)))
                       (Grok.cacheTimestamp st) (Grok.fresh st)).
  split.
  { unfold Grok.buildTfIdfMatrix.
    destruct (Grok.items movies) as [|m ms] eqn:E; [contradiction|].
    change (List.length (m :: ms) =? 0)%nat with false. cbv iota.
    rewrite Hnone. reflexivity. }
  repeat split; auto.
  apply grok_build_reuses with (cached := movies); auto.
Qed.

Lemma build_then_reuse_witness :
  Grok.items (Grok.mkArr 0 [alpha]) <> [] /\
  exists matrix vocab st',
    Grok.buildTfIdfMatrix
      (Grok.mkState (Some (Grok.mkArr 0 [alpha])) None None 1000 1)
      (Grok.mkArr 0 [alpha]) = (Ok (matrix, vocab), st') /\
    vocab = buildVocabulary [alpha] /\
    List.length matrix = 1%nat.
Proof.
  assert (H : Grok.items (Grok.mkArr 0 [alpha]) <> []) by discriminate.
  split; [exact H|].
  destruct (build_then_reuse
              (Grok.mkState (Some (Grok.mkArr 0 [alpha])) None None 1000 1)
              (Grok.mkArr 0 [alpha]) H eq_refl eq_refl)
    as (matrix & vocab & st' & H1 & H2 & H3 & _).
  exists matrix, vocab, st'. auto.
Defined.

(** X5: in a non-empty corpus whose vocabulary has no term that names a
    member of [Object.prototype], the entry of row [i] and column [j] of
    the matrix is tf * idf of term [j] in document [i]; and the row of a
    document without tokens is the zero vector, whatever the vocabulary. *)
Theorem matrix_entries (movies : list Movie) (i j : nat) (m : Movie) (w : string)
    (Hplain : plain_vocabulary (buildVocabulary movies))
    (Hi : nth_error movies i = Some m)
    (Hj : nth_error (buildVocabulary movies) j = Some w) :
  (exists r, nth_error (tfidf_rows movies) i = Some r /\
             nth_error r j =
               Some (Fin (weight w (combinedText m) (map combinedText movies)))) /\
  (forall vocab docs,
      tokenize (combinedText m) = [] ->
      calculateTfIdf (combinedText m) vocab docs =
      vec (zero_vector (List.length vocab))).
Proof.
  split; [|intros vocab docs H; apply calculateTfIdf_no_tokens; exact H].
  assert (Hne : movies <> []) by (intros ->; destruct i; discriminate).
  eexists. split.
  - rewrite tfidf_rows_plain by assumption.
    rewrite nth_error_map, Hi. reflexivity.
  - unfold vec, weights. rewrite !nth_error_map, Hj. reflexivity.
Qed.

Lemma sample_plain : plain_vocabulary (buildVocabulary sample_corpus).
Proof.
  unfold plain_vocabulary. apply Forall_forall. intros w Hw.
  vm_compute in Hw.
  repeat (destruct Hw as [<-|Hw]; [reflexivity|]). contradiction.
Qed.

Lemma matrix_entries_witness :
  plain_vocabulary (buildVocabulary sample_corpus) /\
  exists r, nth_error (tfidf_rows sample_corpus) 1 = Some r /\
            nth_error r 0 =
              Some (Fin (weight "action" (combinedText the_thief)
                                (map combinedText sample_corpus))).
Proof.
  split; [exact sample_plain|].
  apply (matrix_entries sample_corpus 1 0 the_thief "action" sample_plain
                        eq_refl eq_refl).
Defined.

Lemma doc_frequency_le (w : string) (docs : list string) :
  (doc_frequency w docs <= List.length docs)%nat.
Proof. unfold doc_frequency. apply filter_length_le. Qed.

(** X6: the sign of the inverse document frequency that the code computes
    in a non-empty collection: positive for a term found in fewer than all
    documents but one, zero for a term found in all but one, negative for
    a term found in every document. *)
Theorem idf_sign (w : string) (docs : list string) (Hdocs : docs <> []) :
  let docCount :=
    List.length (filter (fun doc => array_includes (tokenize doc) w) docs) in
  exists r,
    mlog (div (of_nat (List.length docs)) (of_nat (docCount + 1))) = Fin r /\
    ((docCount + 1 < List.length docs)%nat -> 0 < r) /\
    ((docCount + 1 = List.length docs)%nat -> r = 0) /\
    (docCount = List.length docs -> r < 0).
Proof.
  cbv zeta. exists (idf w docs). split; [apply idf_code; exact Hdocs|].
  rewrite docCount_frequency. unfold idf.
  set (df := doc_frequency w docs). set (n := List.length docs).
  assert (Hn : 0 < INR n).
  { apply lt_0_INR. unfold n. destruct docs; [contradiction | simpl; lia]. }
  assert (Hd : 0 < INR df + 1).
  { pose proof (pos_INR df). lra. }
  rewrite <- ln_1.
  split; [|split].
  - intros H. apply ln_increasing; [lra|].
    apply Rmult_lt_reg_r with (INR df + 1); [exact Hd|].
    unfold Rdiv. rewrite Rmult_assoc, Rinv_l by lra.
    apply lt_INR in H. rewrite plus_INR in H. simpl in H. lra.
  - intros H. f_equal.
    rewrite <- H, plus_INR. simpl. field. lra.
  - intros H. apply ln_increasing.
    + apply Rdiv_lt_0_compat; assumption.
    + apply Rmult_lt_reg_r with (INR df + 1); [exact Hd|].
      unfold Rdiv. rewrite Rmult_assoc, Rinv_l by lra.
      rewrite <- H. lra.
Qed.

Lemma idf_sign_witness :
  map combinedText sample_corpus <> [] /\
  exists r,
    mlog (div (of_nat (List.length (map combinedText sample_corpus)))
              (of_nat (List.length
                         (filter (fun doc => array_includes (tokenize doc) "thief")
                                 (map combinedText sample_corpus)) + 1)))
      = Fin r.
Proof.
  assert (H : map combinedText sample_corpus <> []) by discriminate.
  split; [exact H|].
  destruct (idf_sign "thief" (map combinedText sample_corpus) H) as (r & Hr & _).
  exists r. exact Hr.
Defined.

End MatrixExtras.

(* ------------------------------------------------------------------ *)
(** ** More on cosine similarity *)
(* ------------------------------------------------------------------ *)

Section CosineExtras.

Local Open Scope R_scope.

Lemma dot_comm (a : list R) : forall b, dot a b = dot b a.
Proof.
  induction a as [|x a IH]; intros [|y b]; simpl; try reflexivity.
  rewrite IH. ring.
Qed.

Lemma cosine_value_comm (a b : list R) :
  List.length a = List.length b -> cosine_value a b = cosine_value b a.
Proof.
  intros Hlen. unfold cosine_value.
  rewrite Hlen, firstn_all, <- Hlen, firstn_all.
  rewrite (Rmult_comm (norm b) (norm a)), (dot_comm b a). reflexivity.
Qed.

(** X7: on real vectors of equal length cosine similarity is symmetric. *)
Theorem cosine_symmetric (a b : list R)
    (Hlen : List.length a = List.length b) :
  Grok.cosineSimilarity (Some (vec a)) (Some (vec b)) =
  Grok.cosineSimilarity (Some (vec b)) (Some (vec a)).
Proof.
  unfold Grok.cosineSimilarity.
  rewrite !cosine_arrays_vec by lia.
  f_equal. apply cosine_value_comm. exact Hlen.
Qed.

Lemma cosine_symmetric_witness :
  List.length [1; 2] = List.length [3; 4] /\
  Grok.cosineSimilarity (Some (vec [1; 2])) (Some (vec [3; 4])) =
  Grok.cosineSimilarity (Some (vec [3; 4])) (Some (vec [1; 2])).
Proof.
  split; [reflexivity | apply (cosine_symmetric [1; 2] [3; 4]); reflexivity].
Defined.

End CosineExtras.

(* ------------------------------------------------------------------ *)
(** ** More on the ranking of [recommendation.ts] *)
(* ------------------------------------------------------------------ *)

Section RankingExtras.

Local Open Scope R_scope.

Lemma csv_cosine_present (v1 v2 : list number) :
  exists s, Csv.cosineSimilarity (Some v1) (Some v2) = Ok s.
Proof. destruct v1; eexists; reflexivity. Qed.

Lemma csv_similarities_present (movies : list Movie) (q : nat)
    (Hq : (q < List.length movies)%nat) (rest : list Movie) :
  forall i : nat,
    rest = skipn i movies ->
    exists sims,
      Csv.similarities_from (tfidf_rows movies) q i rest = Ok sims /\
      map fst sims =
        map (fun j => nth j movies no_movie)
            (filter (fun j => negb (j =? q)%nat) (seq i (List.length rest))).
Proof.
  induction rest as [|m rest IH]; intros i Hrest.
  - exists []. split; reflexivity.
  - symmetry in Hrest. apply skipn_cons_nth in Hrest as [Hnth Hrest].
    assert (Hi : (i < List.length movies)%nat).
    { apply nth_error_Some. congruence. }
    destruct (IH (S i) (eq_sym Hrest)) as (sims & Hs & Hfst).
    simpl. rewrite Hs.
    destruct (i =? q)%nat eqn:E; simpl.
    + exists sims. auto.
    + rewrite (matrix_row_any movies q Hq), (matrix_row_any movies i Hi).
      destruct (csv_cosine_present
                  (calculateTfIdf (combinedText (nth q movies no_movie))
                     (buildVocabulary movies) (map combinedText movies))
                  (calculateTfIdf (combinedText (nth i movies no_movie))
                     (buildVocabulary movies) (map combinedText movies)))
        as (s & ->).
      eexists. split; [reflexivity|].
      simpl. rewrite Hfst, (nth_error_nth _ _ _ Hnth). reflexivity.
Qed.

Lemma others_length (q n : nat) :
  (q < n)%nat -> List.length (others q n) = (n - 1)%nat.
Proof.
  intros Hq. unfold others.
  replace n with (q + (1 + (n - q - 1)))%nat at 1 by lia.
  rewrite !seq_app, !filter_app, !length_app. simpl.
  rewrite Nat.eqb_refl. simpl.
  assert (H : forall a k, (forall j, In j (seq a k) -> j <> q) ->
              List.length (filter (fun i => negb (i =? q)%nat) (seq a k)) = k).
  { intros a k Hall. transitivity (List.length (seq a k)); [|apply length_seq].
    f_equal.
    apply forallb_filter_id. apply forallb_forall. intros j Hj.
    apply negb_true_iff, Nat.eqb_neq, Hall, Hj. }
  rewrite !H; [lia | |]; intros j Hj; apply in_seq in Hj; lia.
Qed.

Lemma slice0_length_eq {A : Type} (l : list A) (e : Z) :
  Z.of_nat (List.length (slice0 l e)) =
  (if (e <? 0)%Z then Z.max (Z.of_nat (List.length l) + e) 0
   else Z.min e (Z.of_nat (List.length l)))%Z.
Proof.
  unfold slice0. rewrite length_firstn.
  destruct (Z.ltb_spec e 0); lia.
Qed.

Lemma findIndex_never {A : Type} (p : A -> bool) (l : list A) :
  (forall x, In x l -> p x = false) -> findIndex p l = None.
Proof.
  induction l as [|x l IH]; intros H; simpl; [reflexivity|].
  rewrite (H x) by (left; reflexivity).
  rewrite IH; [reflexivity|]. intros y Hy. apply H. right. exact Hy.
Qed.

(** A movie whose identifier is NaN is not found again by its
    identifier. *)
Lemma csv_recommend_blank_id (dataset : result (list Movie)) (st : Csv.State)
    (t : string) (n : integer) (movies : list Movie) (input : Movie) :
  coherent st ->
  fst (Csv.loadMovies dataset st) = Ok movies ->
  Csv.findMovieByTitle movies t = Some input ->
  movie_id input = NaNint ->
  fst (Csv.getRecommendations dataset st t n) = Throw (Csv.msg_not_in_dataset t).
Proof.
  intros Hco Hload Hfound Hid.
  assert (Hin : In input movies).
  { unfold Csv.findMovieByTitle in Hfound. apply find_some in Hfound. tauto. }
  assert (Hne : movies <> []) by (destruct movies; [contradiction | discriminate]).
  assert (Hlen : (List.length movies =? 0)%nat = false).
  { apply Nat.eqb_neq. destruct movies; [contradiction | simpl; lia]. }
  unfold Csv.getRecommendations.
  pose proof (csv_load_coherent dataset st Hco) as Hco1.
  destruct (csv_load_ok dataset st movies Hload) as (Hcache & _).
  destruct (Csv.loadMovies dataset st) as [r st1].
  cbn [fst snd] in Hload, Hco1, Hcache. subst r.
  rewrite Hlen, Hfound.
  destruct (csv_build st1 movies Hco1 Hcache Hne) as (st2 & -> & _).
  rewrite findIndex_never; [reflexivity|].
  intros x _. rewrite Hid. destruct (movie_id x); reflexivity.
Qed.

Lemma csv_recommend_total (dataset : result (list Movie)) (st : Csv.State)
    (t : string) (n : integer) (movies : list Movie) (input : Movie)
    (Hreach : Csv.reachable st)
    (Hload : fst (Csv.loadMovies dataset st) = Ok movies)
    (Hfound : Csv.findMovieByTitle movies t = Some input)
    (Hnum : is_number (movie_id input)) :
  exists q out,
    findIndex (fun m => strict_eq (movie_id m) (movie_id input)) movies = Some q /\
    fst (Csv.getRecommendations dataset st t n) = Ok out /\
    (forall z, n = Int z ->
       Z.of_nat (List.length out) =
         (if (z <? 0)%Z then Z.max (Z.of_nat (List.length movies) - 1 + z) 0
          else Z.min z (Z.of_nat (List.length movies) - 1))%Z) /\
    (n = NaNint -> out = []) /\
    (forall r, In r out ->
       exists i, i <> q /\ nth_error movies i = Some (movie r)).
Proof.
  pose proof (csv_reachable_coherent st Hreach) as Hco.
  assert (Hin : In input movies).
  { unfold Csv.findMovieByTitle in Hfound. apply find_some in Hfound. tauto. }
  assert (Hne : movies <> []) by (destruct movies; [contradiction | discriminate]).
  destruct (findIndex_exists (fun m => strict_eq (movie_id m) (movie_id input))
              movies input Hin (strict_eq_refl _ Hnum)) as (q & Hq).
  destruct (findIndex_some _ _ _ Hq) as (x & Hx & _).
  assert (Hlt : (q < List.length movies)%nat).
  { apply nth_error_Some. congruence. }
  destruct (csv_similarities_present movies q Hlt movies 0 eq_refl)
    as (sims & Hsims & Hfst).
  fold (others q (List.length movies)) in Hfst.
  exists q, (top_results sims n). split; [exact Hq|].
  assert (Hlen : (List.length movies =? 0)%nat = false).
  { apply Nat.eqb_neq. lia. }
  split; [|split; [|split]].
  - unfold Csv.getRecommendations.
    pose proof (csv_load_coherent dataset st Hco) as Hco1.
    destruct (csv_load_ok dataset st movies Hload) as (Hcache & _).
    destruct (Csv.loadMovies dataset st) as [r st1].
    cbn [fst snd] in Hload, Hco1, Hcache. subst r.
    rewrite Hlen, Hfound.
    destruct (csv_build st1 movies Hco1 Hcache Hne) as (st2 & -> & _).
    rewrite Hq, (matrix_row_any movies q Hlt), Hsims. reflexivity.
  - intros z ->.
    unfold top_results. rewrite length_map, slice0_length_eq, sort_length.
    rewrite <- (length_map fst sims), Hfst, length_map, others_length by exact Hlt.
    replace (Z.of_nat (List.length movies - 1))
      with (Z.of_nat (List.length movies) - 1)%Z by lia.
    reflexivity.
  - intros ->. reflexivity.
  - intros r Hr. unfold top_results in Hr.
    apply in_map_iff in Hr as (x0 & <- & Hx0).
    assert (Hx1 : In x0 (sort score_after sims)).
    { destruct n as [z|]; [|contradiction].
      unfold slice0 in Hx0. apply In_firstn_in in Hx0. exact Hx0. }
    apply (Permutation_in _ (sort_perm score_after sims)) in Hx1.
    apply (in_map fst) in Hx1. rewrite Hfst in Hx1.
    apply in_map_iff in Hx1 as (i & Hi & Hio).
    apply others_spec in Hio as [Hil Hiq].
    exists i. split; [exact Hiq|].
    simpl. rewrite <- Hi. apply nth_error_nth'. exact Hil.
Qed.

(** X10: on every state the module can reach, once the corpus is loaded
    and the title resolves to a movie, [getRecommendations] looks the movie
    up again by its identifier.  When the identifier is a number, the call
    returns a list and does not raise: no row of the matrix is missing; for
    a count [n >= 0] the list has min(n, movies - 1) entries (for a negative
    count, all but the last [-n] of the movies - 1; for a count that is NaN,
    none), and every entry is a movie of a row other than the one found for
    the query.  When the identifier is NaN (a blank or non-numeric cell of
    the data set), the second lookup fails and the call raises "not found
    in the dataset" although the title was found. *)
Theorem recommendations_by_identifier (dataset : result (list Movie))
    (st : Csv.State) (t : string) (n : integer) (movies : list Movie)
    (input : Movie)
    (Hreach : Csv.reachable st)
    (Hload : fst (Csv.loadMovies dataset st) = Ok movies)
    (Hfound : Csv.findMovieByTitle movies t = Some input) :
  (is_number (movie_id input) ->
   exists q out,
     findIndex (fun m => strict_eq (movie_id m) (movie_id input)) movies = Some q /\
     fst (Csv.getRecommendations dataset st t n) = Ok out /\
     (forall z, n = Int z ->
        Z.of_nat (List.length out) =
          (if (z <? 0)%Z then Z.max (Z.of_nat (List.length movies) - 1 + z) 0
           else Z.min z (Z.of_nat (List.length movies) - 1))%Z) /\
     (n = NaNint -> out = []) /\
     (forall r, In r out ->
        exists i, i <> q /\ nth_error movies i = Some (movie r))) /\
  (movie_id input = NaNint ->
   fst (Csv.getRecommendations dataset st t n) =
     Throw (Csv.msg_not_in_dataset t)).
Proof.
  split.
  - exact (csv_recommend_total dataset st t n movies input Hreach Hload Hfound).
  - exact (csv_recommend_blank_id dataset st t n movies input
             (csv_reachable_coherent st Hreach) Hload Hfound).
Qed.

Lemma recommendations_by_identifier_witness :
  Csv.reachable Csv.initial /\
  fst (Csv.loadMovies (Ok blank_id_corpus) Csv.initial) = Ok blank_id_corpus /\
  Csv.findMovieByTitle blank_id_corpus "Inception" = Some inception /\
  Csv.findMovieByTitle blank_id_corpus "unnumbered" = Some unnumbered /\
  ((is_number (movie_id inception) ->
    exists q out,
      findIndex (fun m => strict_eq (movie_id m) (movie_id inception))
                blank_id_corpus = Some q /\
      fst (Csv.getRecommendations (Ok blank_id_corpus) Csv.initial "Inception" 2)
        = Ok out /\
      (forall z, Int 2 = Int z ->
         Z.of_nat (List.length out) =
           (if (z <? 0)%Z
            then Z.max (Z.of_nat (List.length blank_id_corpus) - 1 + z) 0
            else Z.min z (Z.of_nat (List.length blank_id_corpus) - 1))%Z) /\
      (Int 2 = NaNint -> out = []) /\
      (forall r, In r out ->
         exists i, i <> q /\ nth_error blank_id_corpus i = Some (movie r))) /\
   (movie_id inception = NaNint ->
    fst (Csv.getRecommendations (Ok blank_id_corpus) Csv.initial "Inception" 2) =
      Throw (Csv.msg_not_in_dataset "Inception"))) /\
  ((is_number (movie_id unnumbered) ->
    exists q out,
      findIndex (fun m => strict_eq (movie_id m) (movie_id unnumbered))
                blank_id_corpus = Some q /\
      fst (Csv.getRecommendations (Ok blank_id_corpus) Csv.initial "unnumbered" 2)
        = Ok out /\
      (forall z, Int 2 = Int z ->
         Z.of_nat (List.length out) =
           (if (z <? 0)%Z
            then Z.max (Z.of_nat (List.length blank_id_corpus) - 1 + z) 0
            else Z.min z (Z.of_nat (List.length blank_id_corpus) - 1))%Z) /\
      (Int 2 = NaNint -> out = []) /\
      (forall r, In r out ->
         exists i, i <> q /\ nth_error blank_id_corpus i = Some (movie r))) /\
   (movie_id unnumbered = NaNint ->
    fst (Csv.getRecommendations (Ok blank_id_corpus) Csv.initial "unnumbered" 2) =
      Throw (Csv.msg_not_in_dataset "unnumbered"))).
Proof.
  split; [constructor|]. split; [reflexivity|]. split; [reflexivity|].
  split; [reflexivity|]. split.
  - apply (recommendations_by_identifier (Ok blank_id_corpus) Csv.initial
             "Inception" 2 blank_id_corpus inception Csv.reach_initial
             eq_refl eq_refl).
  - apply (recommendations_by_identifier (Ok blank_id_corpus) Csv.initial
             "unnumbered" 2 blank_id_corpus unnumbered Csv.reach_initial
             eq_refl eq_refl).
Defined.

Lemma round4_range (x : R) : -1 <= x <= 1 -> -1 <= round4 x <= 1.
Proof.
  intros Hx. unfold round4, round_half_up.
  destruct (Rlt_dec x 0) as [Hneg|Hpos].
  - destruct (base_Int_part (- x * 10000 + / 2)) as [H1 H2].
    assert (Hk : (Int_part (- x * 10000 + / 2) <= 10000)%Z).
    { apply Z.lt_succ_r. apply lt_IZR. rewrite succ_IZR. lra. }
    assert (Hk0 : (0 <= Int_part (- x * 10000 + / 2))%Z).
    { apply Z.lt_succ_r. apply lt_IZR. rewrite succ_IZR. lra. }
    apply IZR_le in Hk, Hk0. lra.
  - destruct (base_Int_part (x * 10000 + / 2)) as [H1 H2].
    assert (Hk : (Int_part (x * 10000 + / 2) <= 10000)%Z).
    { apply Z.lt_succ_r. apply lt_IZR. rewrite succ_IZR. lra. }
    assert (Hk0 : (0 <= Int_part (x * 10000 + / 2))%Z).
    { apply Z.lt_succ_r. apply lt_IZR. rewrite succ_IZR. lra. }
    apply IZR_le in Hk, Hk0. lra.
Qed.

(** X11: on a corpus whose vocabulary has no term that names a member of
    [Object.prototype], every score that [getRecommendations] reports is a
    real number between -1 and 1 with at most four decimal digits. *)
Theorem reported_scores_in_range (dataset : result (list Movie)) (st : Csv.State)
    (t : string) (n : integer) (movies : list Movie) (input : Movie)
    (out : list RecommendationResult)
    (Hreach : Csv.reachable st)
    (Hload : fst (Csv.loadMovies dataset st) = Ok movies)
    (Hfound : Csv.findMovieByTitle movies t = Some input)
    (Hplain : plain_vocabulary (buildVocabulary movies))
    (Hout : fst (Csv.getRecommendations dataset st t n) = Ok out) :
  Forall (fun r => exists y k,
            similarity_score r = Fin y /\ -1 <= y <= 1 /\ y = IZR k / 10000)
         out.
Proof.
  assert (Hnum : is_number (movie_id input)).
  { destruct (movie_id input) as [z|] eqn:Eid; [exists z; reflexivity|].
    rewrite (csv_recommend_blank_id dataset st t n movies input
               (csv_reachable_coherent st Hreach) Hload Hfound Eid) in Hout.
    discriminate. }
  destruct (csv_recommend_core dataset st t n movies input
              (csv_reachable_coherent st Hreach) Hload Hfound Hnum Hplain)
    as (q & _ & _ & _ & _ & Hres).
  rewrite Hres in Hout. injection Hout as <-.
  apply Forall_forall. intros r Hr.
  apply in_map_iff in Hr as (i & <- & _).
  assert (Hne : movies <> []).
  { unfold Csv.findMovieByTitle in Hfound. destruct movies; discriminate. }
  pose proof (similarity_bounds movies q i) as Hb.
  destruct (round4_rounded (similarity movies q i)) as [(k & Hk) _].
  exists (round4 (similarity movies q i)), k.
  split; [reflexivity|]. split; [apply round4_range; exact Hb | exact Hk].
Qed.

Lemma reported_scores_in_range_witness :
  Csv.reachable Csv.initial /\
  plain_vocabulary (buildVocabulary sample_corpus) /\
  forall out,
    fst (Csv.getRecommendations (Ok sample_corpus) Csv.initial "Inception" 2)
      = Ok out ->
    Forall (fun r => exists y k,
              similarity_score r = Fin y /\ -1 <= y <= 1 /\ y = IZR k / 10000)
           out.
Proof.
  split; [constructor|]. split; [exact sample_plain|].
  intros out Hout.
  apply (reported_scores_in_range (Ok sample_corpus) Csv.initial "Inception" 2
           sample_corpus inception out Csv.reach_initial eq_refl eq_refl
           sample_plain Hout).
Defined.

End RankingExtras.

(* ------------------------------------------------------------------ *)
(** ** Loading in [recommendation-grok.ts] *)
(* ------------------------------------------------------------------ *)

Section LoadExtras.

Lemma trimStart_clean (s : string) : starts_clean (trimStart s).
Proof.
  induction s as [|c s IH]; simpl; [exact I|].
  destruct (is_space c) eqn:E; [exact IH | exact E].
Qed.

Lemma trimStart_of_clean (s : string) : starts_clean s -> trimStart s = s.
Proof.
  destruct s as [|c s]; simpl; [reflexivity|]. intros ->. reflexivity.
Qed.

Lemma trimEnd_clean (s : string) : starts_clean s -> starts_clean (trimEnd s).
Proof.
  destruct s as [|c s]; simpl; [auto|]. intros Hc.
  destruct (trimEnd s); [rewrite Hc|]; exact Hc.
Qed.

Lemma trimEnd_idem (s : string) : trimEnd (trimEnd s) = trimEnd s.
Proof.
  induction s as [|c s IH]; [reflexivity|]. cbn [trimEnd].
  destruct (trimEnd s) as [|d t] eqn:E.
  - destruct (is_space c) eqn:Hc; [reflexivity|].
    cbn [trimEnd]. rewrite Hc. reflexivity.
  - cbn [trimEnd]. cbn [trimEnd] in IH. rewrite IH. reflexivity.
Qed.

Lemma trim_idem (s : string) : trim (trim s) = trim s.
Proof.
  unfold trim.
  rewrite (trimStart_of_clean (trimEnd (trimStart s)))
    by apply trimEnd_clean, trimStart_clean.
  apply trimEnd_idem.
Qed.

Lemma normalize_trim (s : string) : Grok.normalize (trim s) = Grok.normalize s.
Proof. unfold Grok.normalize. rewrite trim_idem. reflexivity. Qed.

Lemma id_or_nonzero (id : option Z) (index : nat) : Grok.id_or id index <> 0%Z.
Proof.
  unfold Grok.id_or. destruct id as [n|]; [|lia].
  destruct (Z.eqb_spec n 0); lia.
Qed.

Lemma mapi_from_spec {A B : Type} (f : nat -> A -> B) (l : list A) :
  forall (i k : nat),
    nth_error (Grok.mapi_from f i l) k = option_map (f (i + k)%nat) (nth_error l k).
Proof.
  induction l as [|x l IH]; intros i k; simpl.
  - destruct k; reflexivity.
  - destruct k as [|k]; simpl; [rewrite Nat.add_0_r; reflexivity|].
    rewrite IH. replace (S i + k)%nat with (i + S k)%nat by lia. reflexivity.
Qed.

(** X12: when the cache is empty or its hour is over, [loadMovies] stores
    a new array with one movie per item that the data source sends, in the
    same order, with every text field trimmed and an identifier that is
    not 0, and stamps it with the time of the call. *)
Theorem load_fresh (w : Grok.World) (st : Grok.State)
    (Hold : Grok.moviesCache st = None \/
            (Grok.CACHE_DURATION <= Grok.now w - Grok.cacheTimestamp st)%Z) :
  let loaded := fst (Grok.loadMovies w st) in
  let st1 := snd (Grok.loadMovies w st) in
  Grok.ref loaded = Grok.fresh st /\
  Grok.moviesCache st1 = Some loaded /\
  Grok.cacheTimestamp st1 = Grok.now w /\
  List.length (Grok.items loaded) = List.length (Grok.allMovies w) /\
  (forall k m, nth_error (Grok.items loaded) k = Some m ->
     exists g, nth_error (Grok.allMovies w) k = Some g /\
               title m = trim (Grok.g_title g) /\
               release_year m = Grok.g_release_year g /\
               trimmed (title m) /\ trimmed (industry m) /\ trimmed (genre m) /\
               trimmed (language m) /\ trimmed (overview m) /\
               movie_id m <> 0%Z).
Proof.
  assert (E : Grok.loadMovies w st =
              Grok.store st (Grok.mapi_from Grok.convert 0 (Grok.allMovies w))
                         (Grok.now w)).
  { unfold Grok.loadMovies.
    destruct (Grok.moviesCache st) as [cached|].
    - destruct Hold as [H|H]; [discriminate|].
      destruct (Z.ltb_spec (Grok.now w - Grok.cacheTimestamp st) Grok.CACHE_DURATION);
        [lia|].
      destruct (Grok.allMovies w); reflexivity.
    - destruct (Grok.allMovies w); reflexivity. }
  cbv zeta. rewrite E. simpl.
  repeat split; try reflexivity.
  - clear. generalize 0%nat. induction (Grok.allMovies w); intros i; simpl; auto.
  - intros k m Hk. rewrite mapi_from_spec in Hk.
    destruct (nth_error (Grok.allMovies w) k) as [g|]; [|discriminate].
    simpl in Hk. injection Hk as <-. exists g. simpl.
    unfold trimmed. rewrite !trim_idem.
    repeat split; try reflexivity.
    intros H. injection H as H. revert H. apply id_or_nonzero.
Qed.

Lemma load_fresh_witness :
  (Grok.moviesCache Grok.initial = None \/
   (Grok.CACHE_DURATION <=
    Grok.now world_one - Grok.cacheTimestamp Grok.initial)%Z) /\
  Grok.ref (fst (Grok.loadMovies world_one Grok.initial)) = Grok.fresh Grok.initial.
Proof.
  assert (H : Grok.moviesCache Grok.initial = None \/
              (Grok.CACHE_DURATION <=
               Grok.now world_one - Grok.cacheTimestamp Grok.initial)%Z)
    by (left; reflexivity).
  split; [exact H | apply (load_fresh world_one Grok.initial H)].
Defined.



End LoadExtras.

(* ------------------------------------------------------------------ *)
(** ** The flows of [getRecommendations] in [recommendation-grok.ts] *)
(* ------------------------------------------------------------------ *)

Section FlowExtras.

Lemma find_exists {A : Type} (p : A -> bool) (l : list A) (x : A) :
  In x l -> p x = true -> exists y, find p l = Some y.
Proof.
  induction l as [|z l IH]; intros Hin Hp; [contradiction|]. simpl.
  destruct (p z) eqn:E; [eauto|].
  destruct Hin as [->|Hin]; [congruence | apply IH; assumption].
Qed.

Lemma items_nonempty_length (l : list Movie) :
  l <> [] -> (List.length l =? 0)%nat = false.
Proof. destruct l; [contradiction | reflexivity]. Qed.

(** X14: when the loaded corpus is not empty, no title of it resolves the
    query and no movie that the external lookup fetches has the query's
    normalized title, [getRecommendations] throws the not-found error;
    the state is the one loading left: nothing is appended and no matrix
    is built. *)
Theorem lookup_miss_not_found (w : Grok.World) (st : Grok.State)
    (t : string) (n : integer)
    (Hne : Grok.items (fst (Grok.loadMovies w st)) <> [])
    (Hcorpus : Grok.findMovieByTitle
                 (Grok.items (fst (Grok.loadMovies w st))) t = None)
    (Hfetch : Forall (fun g => Grok.normalize (Grok.g_title g) <> Grok.normalize t)
                     (Grok.fetchMovies w t)) :
  Grok.getRecommendations w st t n =
    (Throw (Grok.msg_not_found t), snd (Grok.loadMovies w st)).
Proof.
  unfold Grok.getRecommendations.
  destruct (Grok.loadMovies w st) as [movies st1]. simpl in *.
  rewrite (items_nonempty_length _ Hne), Hcorpus.
  assert (Hs : Grok.searchMovieInGrok w t = None).
  { unfold Grok.searchMovieInGrok.
    destruct (find _ (Grok.fetchMovies w t)) as [g|] eqn:E; [|reflexivity].
    apply find_some in E as [Hin Heq]. apply String.eqb_eq in Heq.
    rewrite Forall_forall in Hfetch. destruct (Hfetch g Hin Heq). }
  rewrite Hs. reflexivity.
Qed.

Lemma lookup_miss_not_found_witness :
  Grok.items (fst (Grok.loadMovies world_one Grok.initial)) <> [] /\
  Grok.getRecommendations world_one Grok.initial "Omega" 5 =
    (Throw (Grok.msg_not_found "Omega"),
     snd (Grok.loadMovies world_one Grok.initial)).
Proof.
  assert (H : Grok.items (fst (Grok.loadMovies world_one Grok.initial)) <> [])
    by discriminate.
  split; [exact H|].
  apply (lookup_miss_not_found world_one Grok.initial "Omega" 5 H eq_refl).
  constructor.
Defined.

Lemma grok_lookup_hit (w : Grok.World) (st : Grok.State)
    (t : string) (n : integer) (g : Grok.GrokMovie)
    (Hne : Grok.items (fst (Grok.loadMovies w st)) <> [])
    (Hcorpus : Grok.findMovieByTitle
                 (Grok.items (fst (Grok.loadMovies w st))) t = None)
    (Hlookup : Grok.searchMovieInGrok w t = Some g) :
  let loaded := fst (Grok.loadMovies w st) in
  let st1 := snd (Grok.loadMovies w st) in
  let newMovie :=
    mkMovie (Z.of_nat (List.length (Grok.items loaded)) + 1)
            (trim (Grok.g_title g)) (trim (Grok.g_industry g))
            (trim (Grok.g_genre g)) (trim (Grok.g_language g))
            (Grok.g_release_year g) (trim (Grok.g_overview g)) in
  let grown := (Grok.items loaded ++ [newMovie])%list in
  Grok.normalize (title newMovie) = Grok.normalize t /\
  exists out,
    Grok.getRecommendations w st t n =
      (Ok out,
       Grok.mkState (Some (Grok.mkArr (Grok.ref loaded) grown))
                    (Some (tfidf_rows grown)) (Some (buildVocabulary grown))
                    (Grok.cacheTimestamp st1) (Grok.fresh st1)).
Proof.
  cbv zeta. split.
  { simpl. rewrite normalize_trim.
    unfold Grok.searchMovieInGrok in Hlookup.
    apply find_some in Hlookup as [_ H]. apply String.eqb_eq in H. exact H. }
  unfold Grok.getRecommendations.
  destruct (Grok.loadMovies w st) as [movies st1]. simpl in *.
  rewrite (items_nonempty_length _ Hne), Hcorpus, Hlookup.
  set (newMovie := mkMovie _ _ _ _ _ _ _).
  set (grown := (Grok.items movies ++ [newMovie])%list).
  assert (Hg : grown <> []) by (unfold grown; destruct (Grok.items movies); discriminate).
  assert (Hb : Grok.buildTfIdfMatrix
                 (Grok.mkState (Some (Grok.mkArr (Grok.ref movies) grown)) None None
                               (Grok.cacheTimestamp st1) (Grok.fresh st1))
                 (Grok.mkArr (Grok.ref movies) grown) =
               (Ok (tfidf_rows grown, buildVocabulary grown),
                Grok.mkState (Some (Grok.mkArr (Grok.ref movies) grown))
                             (Some (tfidf_rows grown)) (Some (buildVocabulary grown))
                             (Grok.cacheTimestamp st1) (Grok.fresh st1))).
  { unfold Grok.buildTfIdfMatrix. simpl Grok.items.
    rewrite (items_nonempty_length _ Hg). reflexivity. }
  rewrite Hb. simpl Grok.items.
  destruct (findIndex_exists
              (fun m => String.eqb (toLowerCase (title m))
                                   (toLowerCase (title newMovie)))
              grown newMovie) as (q & ->).
  - unfold grown. apply in_or_app. right. left. reflexivity.
  - apply String.eqb_refl.
  - eexists. reflexivity.
Qed.

(** X15: when the loaded corpus is not empty, no title of it resolves the
    query and the external lookup finds a movie, that movie (fields
    trimmed, identifier the new length) is pushed onto the cached array,
    which keeps its identity; the matrix and the vocabulary that the state
    holds afterwards are those of the grown corpus; the call returns a
    list; and the title of the pushed movie is the query's, up to case and
    outer white space. *)
Theorem lookup_hit_appends (w : Grok.World) (st : Grok.State)
    (t : string) (n : integer) (g : Grok.GrokMovie)
    (Hne : Grok.items (fst (Grok.loadMovies w st)) <> [])
    (Hcorpus : Grok.findMovieByTitle
                 (Grok.items (fst (Grok.loadMovies w st))) t = None)
    (Hlookup : Grok.searchMovieInGrok w t = Some g) :
  let loaded := fst (Grok.loadMovies w st) in
  let st1 := snd (Grok.loadMovies w st) in
  let newMovie :=
    mkMovie (Z.of_nat (List.length (Grok.items loaded)) + 1)
            (trim (Grok.g_title g)) (trim (Grok.g_industry g))
            (trim (Grok.g_genre g)) (trim (Grok.g_language g))
            (Grok.g_release_year g) (trim (Grok.g_overview g)) in
  let grown := (Grok.items loaded ++ [newMovie])%list in
  Grok.normalize (title newMovie) = Grok.normalize t /\
  exists out,
    Grok.getRecommendations w st t n =
      (Ok out,
       Grok.mkState (Some (Grok.mkArr (Grok.ref loaded) grown))
                    (Some (tfidf_rows grown)) (Some (buildVocabulary grown))
                    (Grok.cacheTimestamp st1) (Grok.fresh st1)).
Proof. exact (grok_lookup_hit w st t n g Hne Hcorpus Hlookup). Qed.

Lemma lookup_hit_appends_witness :
  Grok.items (fst (Grok.loadMovies lookup_world Grok.initial)) <> [] /\
  Grok.searchMovieInGrok lookup_world "beta " = Some beta_g /\
  exists out,
    fst (Grok.getRecommendations lookup_world Grok.initial "beta " 5) = Ok out.
Proof.
  assert (H : Grok.items (fst (Grok.loadMovies lookup_world Grok.initial)) <> [])
    by discriminate.
  split; [exact H|]. split; [reflexivity|].
  destruct (lookup_hit_appends lookup_world Grok.initial "beta " 5 beta_g
              H eq_refl eq_refl) as (_ & out & E).
  exists out. rewrite E. reflexivity.
Defined.

(** X16: when the cache is within its hour and holds a corpus together
    with the matrix and the vocabulary built from it, and some title of
    the corpus equals the query up to case and outer white space (the
    query not being blank), [getRecommendations] returns a list and
    leaves the state exactly as it was; the list is the same whatever the
    data source and the external lookup would answer. *)
Theorem warm_call_changes_nothing (st : Grok.State) (cached : Grok.Arr)
    (t : string) (n : integer) (m : Movie)
    (Hcache : Grok.moviesCache st = Some cached)
    (Hmatrix : Grok.tfidfMatrix st = Some (tfidf_rows (Grok.items cached)))
    (Hvocab : Grok.vocabulary st = Some (buildVocabulary (Grok.items cached)))
    (Hin : In m (Grok.items cached))
    (Hm : Grok.normalize (title m) = Grok.normalize t)
    (Ht : Grok.normalize t <> EmptyString) :
  exists out,
    forall w : Grok.World,
      (Grok.now w - Grok.cacheTimestamp st < Grok.CACHE_DURATION)%Z ->
      Grok.getRecommendations w st t n = (Ok out, st).
Proof.
  assert (Hne : Grok.items cached <> []) by (destruct (Grok.items cached); [destruct Hin | discriminate]).
  destruct (find_exists
              (fun x => String.eqb (Grok.normalize (title x)) (Grok.normalize t))
              (Grok.items cached) m Hin) as (x & Hx).
  { rewrite Hm. apply String.eqb_refl. }
  assert (Hfound : Grok.findMovieByTitle (Grok.items cached) t = Some x).
  { unfold Grok.findMovieByTitle.
    destruct (Grok.normalize t); [contradiction|]. simpl. rewrite Hx. reflexivity. }
  assert (Hxin : In x (Grok.items cached)) by (apply find_some in Hx; tauto).
  destruct (findIndex_exists
              (fun y => String.eqb (toLowerCase (title y)) (toLowerCase (title x)))
              (Grok.items cached) x Hxin (String.eqb_refl _)) as (q & Hq).
  assert (Hb : Grok.buildTfIdfMatrix st cached =
               (Ok (tfidf_rows (Grok.items cached),
                    buildVocabulary (Grok.items cached)), st)).
  { apply grok_build_reuses with (cached := cached); auto.
    apply tfidf_rows_shape. }
  eexists. intros w Hw.
  unfold Grok.getRecommendations, Grok.loadMovies.
  rewrite Hcache. apply Z.ltb_lt in Hw. rewrite Hw.
  rewrite (items_nonempty_length _ Hne), Hfound, Hb, Hq. reflexivity.
Qed.

Lemma warm_call_changes_nothing_witness :
  let st := Grok.mkState (Some (Grok.mkArr 0 [alpha])) (Some (tfidf_rows [alpha]))
                         (Some (buildVocabulary [alpha])) 1000 1 in
  In alpha [alpha] /\
  Grok.normalize (title alpha) = Grok.normalize " ALPHA" /\
  Grok.normalize " ALPHA" <> EmptyString /\
  exists out,
    forall w : Grok.World,
      (Grok.now w - Grok.cacheTimestamp st < Grok.CACHE_DURATION)%Z ->
      Grok.getRecommendations w st " ALPHA" 5 = (Ok out, st).
Proof.
  cbv zeta.
  assert (H1 : In alpha [alpha]) by (left; reflexivity).
  assert (H2 : Grok.normalize " ALPHA" <> EmptyString) by discriminate.
  split; [exact H1|]. split; [reflexivity|]. split; [exact H2|].
  apply (warm_call_changes_nothing
           (Grok.mkState (Some (Grok.mkArr 0 [alpha])) (Some (tfidf_rows [alpha]))
                         (Some (buildVocabulary [alpha])) 1000 1)
           (Grok.mkArr 0 [alpha]) " ALPHA" 5 alpha eq_refl eq_refl eq_refl H1
           eq_refl H2).
Defined.

End FlowExtras.

Section BoundExtras.

Lemma grok_similarities_bound (matrix : list (list number)) (q : nat)
    (rest : list Movie) :
  forall i : nat,
    (List.length (Grok.similarities_from matrix q i rest) <= List.length rest)%nat /\
    ((i <= q < i + List.length rest)%nat ->
     (List.length (Grok.similarities_from matrix q i rest) < List.length rest)%nat) /\
    (forall x, In x (Grok.similarities_from matrix q i rest) -> In (fst x) rest).
Proof.
  induction rest as [|m rest IH]; intros i; simpl.
  - repeat split; auto; lia.
  - destruct (IH (S i)) as (H1 & H2 & H3).
    destruct (Nat.eqb_spec i q) as [->|Hne].
    + repeat split; [lia | intros _; lia | intros x Hx; right; apply H3; exact Hx].
    + destruct (nth_error matrix q), (nth_error matrix i); simpl;
        (repeat split;
         [ lia
         | intros Hr; assert (S i <= q < S i + List.length rest)%nat by lia;
           specialize (H2 H); lia
         | intros x Hx; try (destruct Hx as [<-|Hx]; [left; reflexivity|]);
           right; apply H3; exact Hx ]).
Qed.

Lemma grok_recommend_ok (w : Grok.World) (st : Grok.State) (t : string) (n : integer)
    (out : list RecommendationResult) :
  fst (Grok.getRecommendations w st t n) = Ok out ->
  exists arr matrix q,
    Grok.moviesCache (snd (Grok.getRecommendations w st t n)) = Some arr /\
    (q < List.length (Grok.items arr))%nat /\
    out = top_results (Grok.similarities_from matrix q 0 (Grok.items arr)) n.
Proof.
  unfold Grok.getRecommendations.
  pose proof (grok_load_cache w st) as Hc.
  destruct (Grok.loadMovies w st) as [movies st1]. simpl in Hc.
  destruct (List.length (Grok.items movies) =? 0)%nat; [discriminate|].
  destruct (Grok.findMovieByTitle (Grok.items movies) t) as [m|].
  - pose proof (grok_build_cache st1 movies) as Hb.
    destruct (Grok.buildTfIdfMatrix st1 movies) as [[[matrix vocab]|msg] st3];
      [|discriminate].
    simpl in Hb.
    destruct (findIndex _ (Grok.items movies)) as [q|] eqn:Hq; [|discriminate].
    simpl. intros [= <-]. exists movies, matrix, q.
    split; [congruence|]. split; [|reflexivity].
    destruct (findIndex_some _ _ _ Hq) as (x & Hx & _).
    apply nth_error_Some. congruence.
  - destruct (Grok.searchMovieInGrok w t) as [g|]; [|discriminate].
    match goal with
    | |- context [Grok.buildTfIdfMatrix ?s ?a] =>
        pose proof (grok_build_cache s a) as Hb;
        destruct (Grok.buildTfIdfMatrix s a) as [[[matrix vocab]|msg] st3];
        [|discriminate]
    end.
    simpl in Hb.
    match goal with
    | |- context [findIndex ?p ?l] => destruct (findIndex p l) as [q|] eqn:Hq
    end; [|discriminate].
    simpl. intros [= <-]. eexists. exists matrix, q.
    split; [exact Hb|]. split; [|reflexivity].
    destruct (findIndex_some _ _ _ Hq) as (x & Hx & _).
    apply nth_error_Some. cbn [Grok.items] in *. rewrite Hx. discriminate.
Qed.

(** X17: whatever the state, a list that [getRecommendations] returns is
    shorter than the corpus that the cache holds afterwards, holds only
    movies of that corpus and, for a count that is not negative, no more
    entries than asked for. *)
Theorem recommendations_bounded (w : Grok.World) (st : Grok.State) (t : string)
    (n : Z) (out : list RecommendationResult)
    (Hout : fst (Grok.getRecommendations w st t n) = Ok out) :
  exists arr,
    Grok.moviesCache (snd (Grok.getRecommendations w st t n)) = Some arr /\
    (List.length out < List.length (Grok.items arr))%nat /\
    ((0 <= n)%Z -> (Z.of_nat (List.length out) <= n)%Z) /\
    (forall r, In r out -> In (movie r) (Grok.items arr)).
Proof.
  destruct (grok_recommend_ok w st t n out Hout) as (arr & matrix & q & Hc & Hq & ->).
  exists arr. split; [exact Hc|].
  destruct (grok_similarities_bound matrix q (Grok.items arr) 0) as (H1 & H2 & H3).
  unfold top_results. rewrite length_map. split; [|split].
  - unfold slice0. rewrite length_firstn, sort_length.
    specialize (H2 ltac:(lia)). lia.
  - intros Hn. apply slice0_length. exact Hn.
  - intros r Hr. apply in_map_iff in Hr as (x & <- & Hx).
    unfold slice0 in Hx. apply In_firstn_in in Hx.
    apply (Permutation_in _ (sort_perm score_after _)) in Hx.
    simpl. apply H3. exact Hx.
Qed.

Lemma recommendations_bounded_witness :
  exists out,
    fst (Grok.getRecommendations lookup_world Grok.initial "Beta" 5) = Ok out /\
    exists arr,
      Grok.moviesCache
        (snd (Grok.getRecommendations lookup_world Grok.initial "Beta" 5))
        = Some arr /\
      (List.length out < List.length (Grok.items arr))%nat.
Proof.
  destruct (grok_lookup_hit lookup_world Grok.initial "Beta" 5 beta_g)
    as (_ & out & E); try reflexivity; [discriminate|].
  exists out.
  assert (Hout : fst (Grok.getRecommendations lookup_world Grok.initial "Beta" 5)
                 = Ok out) by (rewrite E; reflexivity).
  split; [exact Hout|].
  destruct (recommendations_bounded lookup_world Grok.initial "Beta" 5 out Hout)
    as (arr & H1 & H2 & _).
  exists arr. split; assumption.
Defined.

End BoundExtras.

(* ------------------------------------------------------------------ *)
(** ** The cache and the filters of [recommendation.ts] *)
(* ------------------------------------------------------------------ *)

Section CsvExtras.

(** X18: once a corpus is cached, it is never read again nor replaced:
    [loadMovies] returns it whatever the data set file holds (even when
    reading it would fail), and every exported operation leaves it in the
    cache. *)
Theorem corpus_loaded_once (st : Csv.State) (movies : list Movie)
    (Hcache : Csv.moviesCache st = Some movies) :
  forall (d : result (list Movie)) (t q g ind : string) (n l : Z)
         (i : list string),
    Csv.loadMovies d st = (Ok movies, st) /\
    Csv.moviesCache (snd (Csv.getRecommendations d st t n)) = Some movies /\
    Csv.moviesCache (snd (Csv.searchMoviesByKeyword d st q i l)) = Some movies /\
    snd (Csv.getMoviesByIndustry d st ind) = st /\
    snd (Csv.getMoviesByGenre d st g) = st.
Proof.
  intros d t q g ind n l i.
  assert (Hload : Csv.loadMovies d st = (Ok movies, st)).
  { unfold Csv.loadMovies. rewrite Hcache. reflexivity. }
  split; [exact Hload|]. split; [|split; [|split]].
  - unfold Csv.getRecommendations. rewrite Hload.
    destruct (List.length movies =? 0)%nat; [exact Hcache|].
    destruct (Csv.findMovieByTitle movies t); [|exact Hcache].
    assert (Hb : Csv.moviesCache (snd (Csv.buildTfIdfMatrix st movies)) = Some movies).
    { unfold Csv.buildTfIdfMatrix.
      destruct (List.length movies =? 0)%nat; [exact Hcache|].
      destruct (Csv.tfidfMatrix st), (Csv.vocabulary st); exact Hcache. }
    destruct (Csv.buildTfIdfMatrix st movies) as [[[matrix vocab]|msg] st2];
      simpl in Hb; [|exact Hb].
    destruct (findIndex _ movies) as [k|]; [|exact Hb].
    destruct (nth_error matrix k); [|exact Hb].
    destruct (Csv.similarities_from matrix k 0 movies); exact Hb.
  - unfold Csv.searchMoviesByKeyword.
    destruct (truthy (toLowerCase (trim q))); simpl; [|exact Hcache].
    rewrite Hload.
    destruct (List.length movies =? 0)%nat; [exact Hcache|].
    destruct (List.length _ =? 0)%nat; exact Hcache.
  - unfold Csv.getMoviesByIndustry. rewrite Hload. reflexivity.
  - unfold Csv.getMoviesByGenre. rewrite Hload. reflexivity.
Qed.

Lemma corpus_loaded_once_witness :
  Csv.moviesCache (Csv.mkState (Some sample_corpus) None None) = Some sample_corpus /\
  Csv.loadMovies (Throw "ENOENT") (Csv.mkState (Some sample_corpus) None None) =
    (Ok sample_corpus, Csv.mkState (Some sample_corpus) None None).
Proof.
  split; [reflexivity|].
  apply (corpus_loaded_once (Csv.mkState (Some sample_corpus) None None)
           sample_corpus eq_refl (Throw "ENOENT") "a" "b" "c" "d" 1%Z 1%Z []).
Defined.

(** X20: the keyword score of a movie is the number of query tokens that
    are not empty and occur in its lowercased title, genre and overview:
    it is at most the number of tokens, it is positive exactly when some
    token occurs, and a token that the query repeats counts each time. *)
Theorem keyword_score_counts (tokens more : list string) (m : Movie) :
  let occurs := fun t => truthy t && includes (toLowerCase (combinedText m)) t in
  Csv.keyword_score tokens m = List.length (filter occurs tokens) /\
  (Csv.keyword_score tokens m <= List.length tokens)%nat /\
  ((0 < Csv.keyword_score tokens m)%nat <->
   exists t, In t tokens /\ occurs t = true) /\
  Csv.keyword_score (tokens ++ more) m =
    (Csv.keyword_score tokens m + Csv.keyword_score more m)%nat.
Proof.
  cbv zeta.
  assert (E : forall ts, Csv.keyword_score ts m =
                List.length (filter (fun t => truthy t
                                 && includes (toLowerCase (combinedText m)) t) ts)).
  { intros ts. unfold Csv.keyword_score. rewrite keyword_score_count. reflexivity. }
  rewrite !E. split; [reflexivity|]. split; [apply filter_length_le|]. split.
  - split.
    + intros H. destruct (filter _ tokens) as [|x r] eqn:F; [simpl in H; lia|].
      exists x.
      assert (Hx : In x (x :: r)) by (left; reflexivity).
      rewrite <- F in Hx. apply filter_In in Hx. exact Hx.
    + intros (x & Hx).
      pose proof (proj2 (filter_In
                    (fun t => truthy t
                              && includes (toLowerCase (combinedText m)) t)
                    x tokens) Hx) as Hf.
      destruct (filter _ tokens); [contradiction | simpl; lia].
  - rewrite filter_app, length_app. reflexivity.
Qed.

End CsvExtras.

(* ------------------------------------------------------------------ *)
(** ** The CSV branch of the route *)
(* ------------------------------------------------------------------ *)

Section RouteExtras.

Lemma best_match_in (movies : list Movie) (query : string) (m : Movie) :
  Route.findBestCsvMatch movies query = Some m -> In m movies.
Proof.
  unfold Route.findBestCsvMatch.
  destruct (negb (truthy (Route.normalizeTitle query))); [discriminate|].
  destruct (find _ movies) as [x|] eqn:E.
  - intros [= <-]. apply find_some in E. tauto.
  - intros H. apply find_some in H. tauto.
Qed.

(** X21: for a corpus whose titles are trimmed, as the loader leaves
    them, a movie that the route's [findBestCsvMatch] returns is always
    resolved again by the title lookup inside [getRecommendations], to
    which the route hands its title.  What the call then gives depends on
    the identifier of the movie so resolved and on the parameter [num],
    which the handler has accepted: with an identifier that is NaN the call
    raises "not found in the dataset"; with a numeric identifier it returns
    a list of at most 50 entries: min(20, movies - 1) when industries are
    given, min(num, movies - 1) for a numeric [num], and none at all when
    [num] is NaN (a parameter that is not a number passes the range
    check). *)
Theorem csv_match_is_recommended (dataset : result (list Movie)) (st : Csv.State)
    (query : string) (industriesParam : option string) (numRecs : integer)
    (movies : list Movie) (m : Movie)
    (Hreach : Csv.reachable st)
    (Hload : fst (Csv.loadMovies dataset st) = Ok movies)
    (Htrim : Forall (fun x => trimmed (title x)) movies)
    (Hmatch : Route.findBestCsvMatch movies query = Some m)
    (Hnum : Route.accepted numRecs = true) :
  exists m',
    Csv.findMovieByTitle movies (title m) = Some m' /\
    toLowerCase (title m') = toLowerCase (title m) /\
    (movie_id m' = NaNint ->
     fst (Route.csvRecommendations dataset st m industriesParam numRecs) =
       Throw (Csv.msg_not_in_dataset (title m))) /\
    (is_number (movie_id m') ->
     exists out,
       fst (Route.csvRecommendations dataset st m industriesParam numRecs)
         = Ok out /\
       (List.length out <= 50)%nat /\
       (Route.given industriesParam = true ->
        Z.of_nat (List.length out) = Z.min 20 (Z.of_nat (List.length movies) - 1)) /\
       (Route.given industriesParam = false ->
        forall z, numRecs = Int z ->
          (1 <= z <= 50)%Z /\
          Z.of_nat (List.length out) = Z.min z (Z.of_nat (List.length movies) - 1)) /\
       (Route.given industriesParam = false -> numRecs = NaNint -> out = [])).
Proof.
  pose proof (best_match_in movies query m Hmatch) as Hin.
  assert (Hm : trim (title m) = title m).
  { rewrite Forall_forall in Htrim. apply (Htrim m Hin). }
  destruct (find_exists
              (fun x => String.eqb (toLowerCase (title x))
                                   (toLowerCase (trim (title m))))
              movies m Hin) as (m' & Hm').
  { rewrite Hm. apply String.eqb_refl. }
  assert (Hfound : Csv.findMovieByTitle movies (title m) = Some m') by exact Hm'.
  exists m'. split; [exact Hfound|]. split.
  { apply find_some in Hm' as [_ H]. apply String.eqb_eq in H.
    rewrite Hm in H. exact H. }
  split.
  { intros Hid. unfold Route.csvRecommendations.
    apply (csv_recommend_blank_id dataset st (title m) _ movies m'
             (csv_reachable_coherent st Hreach) Hload Hfound Hid). }
  intros Hid.
  destruct (csv_recommend_total dataset st (title m)
              (Route.wantTopN industriesParam numRecs) movies m'
              Hreach Hload Hfound Hid) as (q & out & _ & Hout & Hlen & Hnan & _).
  exists out. split; [exact Hout|].
  unfold Route.wantTopN in Hlen, Hnan.
  destruct (Route.given industriesParam).
  - specialize (Hlen (Z.max 1 (Z.min 50 20)) eq_refl).
    change (Z.max 1 (Z.min 50 20)) with 20%Z in Hlen. cbn in Hlen.
    split; [lia|]. split; [intros _; lia|].
    split; intros; discriminate.
  - destruct numRecs as [z|].
    + assert (Hz : (1 <= z <= 50)%Z).
      { unfold Route.accepted in Hnum. cbn in Hnum.
        apply negb_true_iff, orb_false_iff in Hnum as [H1 H2].
        apply Z.ltb_ge in H1, H2. lia. }
      specialize (Hlen (Z.max 1 (Z.min 50 z)) eq_refl).
      replace (Z.max 1 (Z.min 50 z)) with z in Hlen by lia.
      destruct (Z.ltb_spec z 0); [lia|].
      split; [lia|]. split; [intros; discriminate|].
      split.
      * intros _ z' [= <-]. split; [exact Hz | exact Hlen].
      * intros _ H'. discriminate.
    + rewrite (Hnan eq_refl). simpl.
      split; [lia|]. split; [intros; discriminate|].
      split; [intros _ z' H'; discriminate | reflexivity].
Qed.

Lemma sample_trimmed : Forall (fun x => trimmed (title x)) sample_corpus.
Proof. repeat constructor. Qed.

Lemma csv_match_is_recommended_witness :
  Csv.reachable Csv.initial /\
  Route.findBestCsvMatch sample_corpus "thie" = Some the_thief /\
  Route.accepted 10 = true /\
  Route.accepted NaNint = true /\
  (exists out,
     fst (Route.csvRecommendations (Ok sample_corpus) Csv.initial the_thief
                                   None 10) = Ok out /\
     List.length out = 2%nat) /\
  fst (Route.csvRecommendations (Ok sample_corpus) Csv.initial the_thief
                                None NaNint) = Ok [].
Proof.
  split; [constructor|]. split; [reflexivity|]. split; [reflexivity|].
  split; [reflexivity|]. split.
  - destruct (csv_match_is_recommended (Ok sample_corpus) Csv.initial "thie"
                None 10 sample_corpus the_thief Csv.reach_initial eq_refl
                sample_trimmed eq_refl eq_refl)
      as (m' & Hfound & _ & _ & Hnumeric).
    injection Hfound as <-.
    destruct Hnumeric as (out & Hout & _ & _ & Hlen & _).
    { exists 2%Z. reflexivity. }
    exists out. split; [exact Hout|].
    destruct (Hlen eq_refl 10%Z eq_refl) as [_ H]. cbn in H. lia.
  - destruct (csv_match_is_recommended (Ok sample_corpus) Csv.initial "thie"
                None NaNint sample_corpus the_thief Csv.reach_initial eq_refl
                sample_trimmed eq_refl eq_refl)
      as (m' & Hfound & _ & _ & Hnumeric).
    injection Hfound as <-.
    destruct Hnumeric as (out & Hout & _ & _ & _ & Hnan).
    { exists 2%Z. reflexivity. }
    rewrite Hout, (Hnan eq_refl eq_refl). reflexivity.
Defined.

End RouteExtras.

(* ------------------------------------------------------------------ *)
(** ** [imdb-suggest.ts] *)
(* ------------------------------------------------------------------ *)

Section ImdbExtras.

Lemma toSummary_well_formed (item : option ImdbSuggest.Item)
    (s : ImdbSuggest.MovieSummary) :
  ImdbSuggest.toSummary item = Some s -> ImdbSuggest.well_formed s.
Proof.
  unfold ImdbSuggest.toSummary.
  destruct item as [it|]; [|discriminate].
  destruct (ImdbSuggest.l it) as [label|]; [|discriminate].
  destruct (ImdbSuggest.id it) as [|c i] eqn:Ei; [discriminate|].
  destruct label as [|d lb]; [discriminate|]. simpl.
  intros [= <-]. repeat split; simpl; discriminate.
Qed.

Lemma filter_some_in {A : Type} (xs : list (option A)) (x : A) :
  In x (ImdbSuggest.filter_some xs) <-> In (Some x) xs.
Proof.
  induction xs as [|[y|] xs IH]; simpl.
  - tauto.
  - rewrite IH. split; intros [H|H]; auto; [left; congruence|].
    injection H as ->. auto.
  - rewrite IH. split; [auto|]. intros [H|H]; [discriminate | exact H].
Qed.

Lemma cache_get_in (st : ImdbSuggest.State) (key : string)
    (e : ImdbSuggest.CacheEntry) :
  ImdbSuggest.cache_get st key = Some e -> exists k, In (k, e) st.
Proof.
  induction st as [|[k e'] st IH]; simpl; [discriminate|].
  destruct (String.eqb key k).
  - intros [= <-]. exists k. left. reflexivity.
  - intros H. destruct (IH H) as (k' & Hk'). exists k'. right. exact Hk'.
Qed.

Lemma imdb_reachable_well_formed (st : ImdbSuggest.State) :
  ImdbSuggest.reachable st ->
  forall k e, In (k, e) st -> Forall ImdbSuggest.well_formed (ImdbSuggest.value e).
Proof.
  induction 1 as [|w st query _ IH]; [intros k e []|].
  unfold ImdbSuggest.imdbSuggestSearch.
  destruct (negb (truthy (ImdbSuggest.normalizeQuery query))); [exact IH|].
  assert (Hreq : forall k e,
            In (k, e)
               (snd (match ImdbSuggest.fetch w (ImdbSuggest.normalizeQuery query) with
                     | ImdbSuggest.Failed | ImdbSuggest.NotOk =>
                         ([], ImdbSuggest.cache_set st
                                (ImdbSuggest.normalizeQuery query)
                                (ImdbSuggest.mkEntry []
                                   (ImdbSuggest.now w + ImdbSuggest.CACHE_TTL_MS)))
                     | ImdbSuggest.Body d =>
                         (ImdbSuggest.filter_some
                            (map ImdbSuggest.toSummary
                                 match d with Some items => items | None => [] end),
                          ImdbSuggest.cache_set st
                            (ImdbSuggest.normalizeQuery query)
                            (ImdbSuggest.mkEntry
                               (ImdbSuggest.filter_some
                                  (map ImdbSuggest.toSummary
                                       match d with
                                       | Some items => items
                                       | None => []
                                       end))
                               (ImdbSuggest.now w + ImdbSuggest.CACHE_TTL_MS)))
                     end)) ->
            Forall ImdbSuggest.well_formed (ImdbSuggest.value e)).
  { intros k e.
    destruct (ImdbSuggest.fetch w (ImdbSuggest.normalizeQuery query)) as [| |d];
      simpl; (intros [[= <- <-]|H]; [|exact (IH k e H)]); simpl;
      try constructor.
    apply Forall_forall. intros s Hs.
    apply filter_some_in, in_map_iff in Hs as (item & Hs & _).
    apply (toSummary_well_formed item s Hs). }
  destruct (ImdbSuggest.cache_get st (ImdbSuggest.normalizeQuery query)) as [c|];
    [|exact Hreq].
  destruct (ImdbSuggest.now w <? ImdbSuggest.expiresAt c)%Z; [exact IH | exact Hreq].
Qed.

(** X22: every summary that [imdbSuggestSearch] returns, from the network
    or from its cache, has an identifier and a title that are not empty
    and the IMDb address made of its identifier. *)
Theorem suggestions_well_formed (st : ImdbSuggest.State) (w : ImdbSuggest.World)
    (query : string) (Hreach : ImdbSuggest.reachable st) :
  Forall ImdbSuggest.well_formed (fst (ImdbSuggest.imdbSuggestSearch w st query)).
Proof.
  pose proof (imdb_reachable_well_formed _
                (@ImdbSuggest.reach_search w st query Hreach)) as Hafter.
  pose proof (imdb_reachable_well_formed st Hreach) as Hbefore.
  unfold ImdbSuggest.imdbSuggestSearch in *.
  destruct (negb (truthy (ImdbSuggest.normalizeQuery query))); [constructor|].
  destruct (ImdbSuggest.cache_get st (ImdbSuggest.normalizeQuery query)) as [c|] eqn:Ec.
  - destruct (ImdbSuggest.now w <? ImdbSuggest.expiresAt c)%Z.
    + destruct (cache_get_in st _ c Ec) as (k & Hk). apply (Hbefore k c Hk).
    + destruct (ImdbSuggest.fetch w (ImdbSuggest.normalizeQuery query));
        simpl in *; try constructor.
      apply (Hafter _ _ (or_introl eq_refl)).
  - destruct (ImdbSuggest.fetch w (ImdbSuggest.normalizeQuery query));
      simpl in *; try constructor.
    apply (Hafter _ _ (or_introl eq_refl)).
Qed.

Lemma suggestions_well_formed_witness :
  let first := ImdbSuggest.imdbSuggestSearch suggest_world ImdbSuggest.initial
                                             "Inception" in
  let later := ImdbSuggest.imdbSuggestSearch
                 (ImdbSuggest.mkWorld 1000 (fun _ => ImdbSuggest.Failed))
                 (snd first) " INCEPTION " in
  ImdbSuggest.reachable ImdbSuggest.initial /\
  ImdbSuggest.reachable (snd first) /\
  map ImdbSuggest.imdbId (fst first) = ["tt1375666"] /\
  fst later = fst first /\
  Forall ImdbSuggest.well_formed (fst first) /\
  Forall ImdbSuggest.well_formed (fst later).
Proof.
  cbv zeta.
  assert (H0 : ImdbSuggest.reachable ImdbSuggest.initial) by constructor.
  assert (H1 : ImdbSuggest.reachable
                 (snd (ImdbSuggest.imdbSuggestSearch suggest_world
                         ImdbSuggest.initial "Inception")))
    by (constructor; exact H0).
  split; [exact H0|]. split; [exact H1|].
  split; [reflexivity|]. split; [reflexivity|]. split.
  - apply (suggestions_well_formed ImdbSuggest.initial suggest_world
             "Inception" H0).
  - apply (suggestions_well_formed _
             (ImdbSuggest.mkWorld 1000 (fun _ => ImdbSuggest.Failed))
             " INCEPTION " H1).
Defined.



End ImdbExtras.

(* ------------------------------------------------------------------ *)
(** ** The matrix cache of [recommendation.ts] *)
(* ------------------------------------------------------------------ *)

Section CsvMatrixCache.

(** X24: in [recommendation.ts] a cached matrix is never stale: on every
    state that the exported operations can reach, the matrix in the cache
    is the matrix of the corpus in the cache, and the vocabulary beside it
    is the vocabulary of that corpus. *)
Theorem csv_matrix_never_stale (st : Csv.State) (matrix : list (list number))
    (Hreach : Csv.reachable st)
    (Hmatrix : Csv.tfidfMatrix st = Some matrix) :
  exists movies,
    Csv.moviesCache st = Some movies /\
    matrix = tfidf_rows movies /\
    Csv.vocabulary st = Some (buildVocabulary movies).
Proof.
  pose proof (csv_reachable_coherent st Hreach) as H.
  unfold coherent in H. rewrite Hmatrix in H.
  destruct (Csv.vocabulary st) as [vocab|]; [|contradiction].
  destruct H as (movies & H1 & H2 & H3).
  exists movies. subst. auto.
Qed.

Lemma csv_matrix_never_stale_witness :
  let st := snd (Csv.getRecommendations (Ok sample_corpus) Csv.initial
                                        "Inception" 2) in
  Csv.reachable st /\
  Csv.tfidfMatrix st = Some (tfidf_rows sample_corpus) /\
  exists movies,
    Csv.moviesCache st = Some movies /\
    tfidf_rows sample_corpus = tfidf_rows movies /\
    Csv.vocabulary st = Some (buildVocabulary movies).
Proof.
  cbv zeta.
  assert (H1 : Csv.reachable
                 (snd (Csv.getRecommendations (Ok sample_corpus) Csv.initial
                                              "Inception" 2)))
    by (apply Csv.reach_recommend; constructor).
  assert (H2 : Csv.tfidfMatrix
                 (snd (Csv.getRecommendations (Ok sample_corpus) Csv.initial
                                              "Inception" 2))
               = Some (tfidf_rows sample_corpus)).
  { unfold Csv.getRecommendations.
    change (Csv.loadMovies (Ok sample_corpus) Csv.initial)
      with (Ok sample_corpus, Csv.mkState (Some sample_corpus) None None).
    cbv iota beta.
    change (List.length sample_corpus =? 0)%nat with false. cbv iota.
    change (Csv.findMovieByTitle sample_corpus "Inception") with (Some inception).
    cbv iota.
    change (Csv.buildTfIdfMatrix (Csv.mkState (Some sample_corpus) None None)
                                 sample_corpus)
      with (Ok (tfidf_rows sample_corpus, buildVocabulary sample_corpus),
            Csv.mkState (Some sample_corpus) (Some (tfidf_rows sample_corpus))
                        (Some (buildVocabulary sample_corpus))).
    cbv iota beta.
    destruct (findIndex _ sample_corpus); [|reflexivity].
    destruct (nth_error (tfidf_rows sample_corpus) n); [|reflexivity].
    destruct (Csv.similarities_from _ n 0 sample_corpus); reflexivity. }
  split; [exact H1|]. split; [exact H2|].
  apply (csv_matrix_never_stale _ (tfidf_rows sample_corpus) H1 H2).
Defined.

End CsvMatrixCache.
